(** * Git Tutor: the simulated repository of [git_tutor/script.js]

    A shallow embedding of the [SimulatedRepo] and [RemoteStore] classes, and
    theorems about the git subset they implement ([runGit] and the methods
    it dispatches to, [getStatus], [serialize] and [deserialize]), about the
    shell subset ([runShell], with the path utilities, [listDir] and
    [isDirectory]) and about the teammate of the pull lesson
    ([simulateTeammateCommitToOriginMain]).  The example repositories assign
    to [workingFiles] as the [setup] functions of the lessons do.

    Conventions of the embedding.
    - A JS object used as a map is an association list in insertion order
      ([obj]); [Object.keys] is the list of its keys.  Keys that look like
      array indices (which JS enumerates first) are outside the model.
    - The maps are plain objects, so a read [o[k]] also finds the members of
      [Object.prototype] ([inherited]).  The model follows such reads
      ([js_read], [js_defined]) where the script tests a name it was given:
      the branch name of [branch] and [checkout], the remote name of
      [remote add], [push] and [pull], the URL in the remote store, the hash
      of [revert], the current branch in [ensureBranchMeta] and
      [deserialize].  A member of [Object.prototype] is a function, a value
      the state of the model cannot hold.  So the model stops short where the
      script would go on with such a value as a head: [merge], [push] and
      [pull] of a branch named like a member of [Object.prototype] that has
      no entry in [branches] are answered as for an unknown branch, and a
      repository whose current branch is such a name without an entry (as
      [checkout] of the name leaves it) reads its head as null and its lane
      as 0.  The keys that no command takes from the user,
      paths (they start with a slash) and stored hashes (twelve hexadecimal
      digits), are taken not to be such names.
    - [null] and [undefined] are [None]; a map from names to nullable values
      is an [obj (option _)], so that an absent key and a null value differ.
      The truthiness tests of the script are kept: an empty string is falsy.
    - A JS string is the [string] of its UTF-8 bytes.  White space is that of
      ECMAScript ([blanks]), for [trim] and for the splitting of a command
      line; letter case is that of ASCII, and a slice counts bytes, both
      exact on hashes.  [deepCopy] is the identity on the values of the
      model (all of them are plain JSON data).
    - [Math.random], [Date.now] and [toLocaleString] are inputs of the
      operations that use them (the fresh hash, the time, the date format).
    - A method mutating [this] is a function returning the new repository;
      the methods given the remote store also return the store, and an
      [Outcome] that tells a returned result from an exception. *)

From Stdlib Require Import List String Ascii Bool Arith ZArith Lia DecimalString.
Import ListNotations.
Local Open Scope list_scope.
Local Open Scope string_scope.

(** ** JS objects as insertion-ordered association lists *)

Section Obj.
Context {V : Type}.

Definition obj := list (string * V).

Fixpoint obj_get (o : obj) (k : string) : option V :=
  match o with
  | [] => None
  | (k', v) :: t => if String.eqb k' k then Some v else obj_get t k
  end.

(* Object.prototype.hasOwnProperty.call(o, k) *)
Definition obj_has (o : obj) (k : string) : bool :=
  match obj_get o k with Some _ => true | None => false end.

(* o[k] = v : an existing key keeps its place, a new one goes last *)
Fixpoint obj_set (o : obj) (k : string) (v : V) : obj :=
  match o with
  | [] => [(k, v)]
  | (k', v') :: t =>
      if String.eqb k' k then (k', v) :: t else (k', v') :: obj_set t k v
  end.

(* delete o[k] *)
Fixpoint obj_delete (o : obj) (k : string) : obj :=
  match o with
  | [] => []
  | (k', v') :: t =>
      if String.eqb k' k then obj_delete t k else (k', v') :: obj_delete t k
  end.

Definition obj_keys (o : obj) : list string := map fst o.
End Obj.
Arguments obj V : clear implicits.

(** ** Small helpers of the script *)

Definition mem (x : string) (l : list string) : bool :=
  existsb (String.eqb x) l.

(** The maps of the script are plain objects, so a read [o[k]] also finds
    the members of [Object.prototype].  These are functions, and for
    [__proto__] the prototype itself: defined, truthy, and none of the
    values the script stores. *)
Definition inherited_names : list string :=
  ["constructor"; "hasOwnProperty"; "isPrototypeOf"; "propertyIsEnumerable";
   "toLocaleString"; "toString"; "valueOf"; "__proto__";
   "__defineGetter__"; "__defineSetter__"; "__lookupGetter__"; "__lookupSetter__"].

Definition inherited (k : string) : bool := mem k inherited_names.

(* what o[k] gives: an own property, a member of Object.prototype, or
   undefined *)
Inductive Read (V : Type) : Type :=
| own (v : V)
| proto
| undef.
Arguments own {V} v.
Arguments proto {V}.
Arguments undef {V}.

Definition js_read {V : Type} (o : obj V) (k : string) : Read V :=
  match obj_get o k with
  | Some v => own v
  | None => if inherited k then proto else undef
  end.

(* o[k] !== undefined, and !!o[k] where the own values are objects *)
Definition js_defined {V : Type} (o : obj V) (k : string) : bool :=
  (obj_has o k || inherited k)%bool.

(* new Set(l), as the list of its elements in insertion order *)
Definition set_of (l : list string) : list string :=
  fold_left (fun acc x => if mem x acc then acc else (acc ++ [x])%list) l [].

(* set.delete(x) *)
Definition set_delete (x : string) (l : list string) : list string :=
  filter (fun y => negb (String.eqb y x)) l.

(* Array.prototype.sort() on strings (byte-wise here, UTF-16 units in JS) *)
Fixpoint sort_insert (x : string) (l : list string) : list string :=
  match l with
  | [] => [x]
  | y :: t => if String.leb x y then x :: l else y :: sort_insert x t
  end.

Definition sort (l : list string) : list string :=
  fold_right sort_insert [] l.

(* !!s for a string *)
Definition nonempty (s : string) : bool := negb (String.eqb s "").

(* !!h for a nullable string *)
Definition truthy (h : option string) : bool :=
  match h with Some s => nonempty s | None => false end.

Definition deepCopy {A : Type} (x : A) : A := x.

Definition nat_to_string (n : nat) : string :=
  NilZero.string_of_uint (Nat.to_uint n).

Definition shortHash (h : option string) : string :=
  if truthy h
  then match h with Some s => substring 0 7 s | None => "" end
  else "—".

(* the double quote character, as a string *)
Definition dq : string := String (ascii_of_nat 34) "".

(* the newline character, as a string *)
Definition nl : string := String (ascii_of_nat 10) "".

Definition plural (n : nat) (word : string) : string :=
  nat_to_string n ++ " " ++ word ++ (if Nat.eqb n 1 then "" else "s").

(** ** Path utilities *)

Definition slash : ascii := "/"%char.
Definition backslash : ascii := "\"%char.

(* s.split("/") *)
Fixpoint split_slash (s : string) : list string :=
  match s with
  | EmptyString => [""]
  | String c t =>
      if Ascii.eqb c slash then "" :: split_slash t
      else match split_slash t with
           | [] => [String c ""]
           | w :: ws => String c w :: ws
           end
  end.

(* s.replaceAll("\\", "/") *)
Fixpoint backslashes_to_slashes (s : string) : string :=
  match s with
  | EmptyString => EmptyString
  | String c t =>
      String (if Ascii.eqb c backslash then slash else c) (backslashes_to_slashes t)
  end.

Definition startsWith (s p : string) : bool := String.prefix p s.

Fixpoint endsWith_slash (s : string) : bool :=
  match s with
  | EmptyString => false
  | String c EmptyString => Ascii.eqb c slash
  | String _ t => endsWith_slash t
  end.

Definition normalize_step (stack : list string) (part : string) : list string :=
  if (String.eqb part "." || String.eqb part "")%bool then stack
  else if String.eqb part ".." then removelast stack
  else (stack ++ [part])%list.

Definition normalizePath (inputPath : string) : string :=
  let raw := backslashes_to_slashes inputPath in
  let parts := filter nonempty (split_slash raw) in
  let stack := fold_left normalize_step parts [] in
  "/" ++ String.concat "/" stack.

Definition joinPath (cwd maybeRelative : string) : string :=
  let rel := maybeRelative in
  if startsWith rel "/" then normalizePath rel
  else
    let base := if nonempty cwd then cwd else "/" in
    let combined := if endsWith_slash base then base ++ rel else base ++ "/" ++ rel in
    normalizePath combined.

Definition dirname (path : string) : string :=
  let p := normalizePath path in
  if String.eqb p "/" then "/"
  else
    let parts := filter nonempty (split_slash p) in
    "/" ++ String.concat "/" (removelast parts).

Definition basename (path : string) : string :=
  let p := normalizePath path in
  if String.eqb p "/" then "/"
  else
    let parts := filter nonempty (split_slash p) in
    let l := last parts "" in
    if nonempty l then l else "/".

Definition relPath (absPath : string) : string :=
  let p := normalizePath absPath in
  if String.eqb p "/" then "/"
  else if startsWith p "/" then substring 1 (String.length p - 1) p else p.

(** ** Data model *)

Definition BRANCH_COLORS : list string :=
  ["#4cc9f0"; "#b392f0"; "#2ee59d"; "#ffd166"; "#ff5470"; "#ff9f1c"].

Record Commit := {
  hash : string;
  message : string;
  parents : list string;
  timestamp : Z;
  files : obj string;
  lane : nat;
  branch : string
}.

Record BranchMeta := { meta_lane : nat; meta_color : string }.

Record MergeState := {
  theirBranch : string;
  theirHash : string;
  conflicts : list string
}.

Record Remote := { url : string }.

Record Upstream := { up_remote : string; up_branch : string }.

Record StashEntry := {
  stash_message : string;
  stash_workingFiles : obj string;
  stash_stagedFiles : obj (option string);
  createdAt : Z
}.

(* the descriptors stored in lastEvent; the constructor is the type tag *)
Inductive Event :=
| fs_write (path : string)
| fs_mkdir (path : string)
| fs_touch (path : string)
| fs_rm (path : string)
| fs_edit (path : string)
| git_init
| git_add (paths : list string)
| git_commit (h msg : string)
| git_branch_create (b : string)
| git_checkout_new (b : string)
| git_checkout (b : string)
| git_merge_ff (b : string)
| git_merge_conflict (b : string) (cs : list string)
| git_merge (b : string)
| git_remote_add (name u : string)
| git_push (remote b : string)
| git_pull_ff (remote b : string)
| git_pull_merge (remote b : string)
| git_clone (u : string)
| git_stash
| git_stash_pop
| git_reset_hard (target : string)
| git_revert (h : string).

Record Repo := {
  initialized : bool;
  cwd : string;
  directories : obj bool;
  workingFiles : obj string;
  stagedFiles : obj (option string);   (* None is the deletion marker null *)
  commits : obj Commit;
  commitOrder : list string;
  branches : obj (option string);      (* None is an unborn branch *)
  currentBranch : string;
  branchMeta : obj BranchMeta;
  nextLane : nat;
  mergeState : option MergeState;
  remotes : obj Remote;
  upstreams : obj Upstream;
  stash : list StashEntry;
  lastEvent : option Event
}.

(* the value every command returns; an absent stdout or stderr is [] *)
Record Result := {
  ok : bool;
  exitCode : nat;
  stdout : list string;
  stderr : list string
}.

Definition success (out : list string) : Result :=
  {| ok := true; exitCode := 0; stdout := out; stderr := [] |}.

Definition failure (out err : list string) : Result :=
  {| ok := false; exitCode := 1; stdout := out; stderr := err |}.

(** Field updates, one per assignment of the script. *)

Definition set_initialized (v : bool) (r : Repo) : Repo :=
  {| initialized := v; cwd := cwd r; directories := directories r;
     workingFiles := workingFiles r; stagedFiles := stagedFiles r;
     commits := commits r; commitOrder := commitOrder r; branches := branches r;
     currentBranch := currentBranch r; branchMeta := branchMeta r;
     nextLane := nextLane r; mergeState := mergeState r; remotes := remotes r;
     upstreams := upstreams r; stash := stash r; lastEvent := lastEvent r |}.

Definition set_directories (v : obj bool) (r : Repo) : Repo :=
  {| initialized := initialized r; cwd := cwd r; directories := v;
     workingFiles := workingFiles r; stagedFiles := stagedFiles r;
     commits := commits r; commitOrder := commitOrder r; branches := branches r;
     currentBranch := currentBranch r; branchMeta := branchMeta r;
     nextLane := nextLane r; mergeState := mergeState r; remotes := remotes r;
     upstreams := upstreams r; stash := stash r; lastEvent := lastEvent r |}.

Definition set_workingFiles (v : obj string) (r : Repo) : Repo :=
  {| initialized := initialized r; cwd := cwd r; directories := directories r;
     workingFiles := v; stagedFiles := stagedFiles r;
     commits := commits r; commitOrder := commitOrder r; branches := branches r;
     currentBranch := currentBranch r; branchMeta := branchMeta r;
     nextLane := nextLane r; mergeState := mergeState r; remotes := remotes r;
     upstreams := upstreams r; stash := stash r; lastEvent := lastEvent r |}.

Definition set_stagedFiles (v : obj (option string)) (r : Repo) : Repo :=
  {| initialized := initialized r; cwd := cwd r; directories := directories r;
     workingFiles := workingFiles r; stagedFiles := v;
     commits := commits r; commitOrder := commitOrder r; branches := branches r;
     currentBranch := currentBranch r; branchMeta := branchMeta r;
     nextLane := nextLane r; mergeState := mergeState r; remotes := remotes r;
     upstreams := upstreams r; stash := stash r; lastEvent := lastEvent r |}.

Definition set_commits (v : obj Commit) (r : Repo) : Repo :=
  {| initialized := initialized r; cwd := cwd r; directories := directories r;
     workingFiles := workingFiles r; stagedFiles := stagedFiles r;
     commits := v; commitOrder := commitOrder r; branches := branches r;
     currentBranch := currentBranch r; branchMeta := branchMeta r;
     nextLane := nextLane r; mergeState := mergeState r; remotes := remotes r;
     upstreams := upstreams r; stash := stash r; lastEvent := lastEvent r |}.

Definition set_commitOrder (v : list string) (r : Repo) : Repo :=
  {| initialized := initialized r; cwd := cwd r; directories := directories r;
     workingFiles := workingFiles r; stagedFiles := stagedFiles r;
     commits := commits r; commitOrder := v; branches := branches r;
     currentBranch := currentBranch r; branchMeta := branchMeta r;
     nextLane := nextLane r; mergeState := mergeState r; remotes := remotes r;
     upstreams := upstreams r; stash := stash r; lastEvent := lastEvent r |}.

Definition set_branches (v : obj (option string)) (r : Repo) : Repo :=
  {| initialized := initialized r; cwd := cwd r; directories := directories r;
     workingFiles := workingFiles r; stagedFiles := stagedFiles r;
     commits := commits r; commitOrder := commitOrder r; branches := v;
     currentBranch := currentBranch r; branchMeta := branchMeta r;
     nextLane := nextLane r; mergeState := mergeState r; remotes := remotes r;
     upstreams := upstreams r; stash := stash r; lastEvent := lastEvent r |}.

Definition set_currentBranch (v : string) (r : Repo) : Repo :=
  {| initialized := initialized r; cwd := cwd r; directories := directories r;
     workingFiles := workingFiles r; stagedFiles := stagedFiles r;
     commits := commits r; commitOrder := commitOrder r; branches := branches r;
     currentBranch := v; branchMeta := branchMeta r;
     nextLane := nextLane r; mergeState := mergeState r; remotes := remotes r;
     upstreams := upstreams r; stash := stash r; lastEvent := lastEvent r |}.

Definition set_branchMeta (v : obj BranchMeta) (n : nat) (r : Repo) : Repo :=
  {| initialized := initialized r; cwd := cwd r; directories := directories r;
     workingFiles := workingFiles r; stagedFiles := stagedFiles r;
     commits := commits r; commitOrder := commitOrder r; branches := branches r;
     currentBranch := currentBranch r; branchMeta := v;
     nextLane := n; mergeState := mergeState r; remotes := remotes r;
     upstreams := upstreams r; stash := stash r; lastEvent := lastEvent r |}.

Definition set_mergeState (v : option MergeState) (r : Repo) : Repo :=
  {| initialized := initialized r; cwd := cwd r; directories := directories r;
     workingFiles := workingFiles r; stagedFiles := stagedFiles r;
     commits := commits r; commitOrder := commitOrder r; branches := branches r;
     currentBranch := currentBranch r; branchMeta := branchMeta r;
     nextLane := nextLane r; mergeState := v; remotes := remotes r;
     upstreams := upstreams r; stash := stash r; lastEvent := lastEvent r |}.

Definition set_remotes (v : obj Remote) (r : Repo) : Repo :=
  {| initialized := initialized r; cwd := cwd r; directories := directories r;
     workingFiles := workingFiles r; stagedFiles := stagedFiles r;
     commits := commits r; commitOrder := commitOrder r; branches := branches r;
     currentBranch := currentBranch r; branchMeta := branchMeta r;
     nextLane := nextLane r; mergeState := mergeState r; remotes := v;
     upstreams := upstreams r; stash := stash r; lastEvent := lastEvent r |}.

Definition set_upstreams (v : obj Upstream) (r : Repo) : Repo :=
  {| initialized := initialized r; cwd := cwd r; directories := directories r;
     workingFiles := workingFiles r; stagedFiles := stagedFiles r;
     commits := commits r; commitOrder := commitOrder r; branches := branches r;
     currentBranch := currentBranch r; branchMeta := branchMeta r;
     nextLane := nextLane r; mergeState := mergeState r; remotes := remotes r;
     upstreams := v; stash := stash r; lastEvent := lastEvent r |}.

Definition set_stash (v : list StashEntry) (r : Repo) : Repo :=
  {| initialized := initialized r; cwd := cwd r; directories := directories r;
     workingFiles := workingFiles r; stagedFiles := stagedFiles r;
     commits := commits r; commitOrder := commitOrder r; branches := branches r;
     currentBranch := currentBranch r; branchMeta := branchMeta r;
     nextLane := nextLane r; mergeState := mergeState r; remotes := remotes r;
     upstreams := upstreams r; stash := v; lastEvent := lastEvent r |}.

Definition set_lastEvent (v : option Event) (r : Repo) : Repo :=
  {| initialized := initialized r; cwd := cwd r; directories := directories r;
     workingFiles := workingFiles r; stagedFiles := stagedFiles r;
     commits := commits r; commitOrder := commitOrder r; branches := branches r;
     currentBranch := currentBranch r; branchMeta := branchMeta r;
     nextLane := nextLane r; mergeState := mergeState r; remotes := remotes r;
     upstreams := upstreams r; stash := stash r; lastEvent := v |}.

Definition set_cwd (v : string) (r : Repo) : Repo :=
  {| initialized := initialized r; cwd := v; directories := directories r;
     workingFiles := workingFiles r; stagedFiles := stagedFiles r;
     commits := commits r; commitOrder := commitOrder r; branches := branches r;
     currentBranch := currentBranch r; branchMeta := branchMeta r;
     nextLane := nextLane r; mergeState := mergeState r; remotes := remotes r;
     upstreams := upstreams r; stash := stash r; lastEvent := lastEvent r |}.

(** ** SimulatedRepo: construction and accessors *)

Definition main_meta : BranchMeta :=
  {| meta_lane := 0; meta_color := nth 0 BRANCH_COLORS "" |}.

(* reset(): the state of a new SimulatedRepo *)
Definition reset : Repo :=
  {| initialized := false; cwd := "/"; directories := [("/", true)];
     workingFiles := []; stagedFiles := []; commits := []; commitOrder := [];
     branches := [("main", None)]; currentBranch := "main";
     branchMeta := [("main", main_meta)]; nextLane := 1; mergeState := None;
     remotes := []; upstreams := []; stash := []; lastEvent := None |}.

(* get head() : this.branches[this.currentBranch] ?? null *)
Definition head (r : Repo) : option string :=
  match obj_get (branches r) (currentBranch r) with
  | Some h => h
  | None => None
  end.

(* set head(hash) *)
Definition set_head (h : option string) (r : Repo) : Repo :=
  set_branches (obj_set (branches r) (currentBranch r) h) r.

Definition getSnapshot (r : Repo) (h : option string) : obj string :=
  if truthy h then
    match h with
    | Some s => match obj_get (commits r) s with
                | Some c => files c
                | None => []
                end
    | None => []
    end
  else [].

Definition getHeadSnapshot (r : Repo) : obj string := getSnapshot r (head r).

Definition listAllPaths (r : Repo) : list string :=
  let headSnap := getHeadSnapshot r in
  sort (set_of (obj_keys (workingFiles r) ++ obj_keys headSnap
                ++ obj_keys (stagedFiles r))%list).

(** ** getStatus *)

Record StatusEntry := { path : string; code : string }.

Record Status := {
  st_branch : string;
  st_initialized : bool;
  hasCommits : bool;
  staged : list StatusEntry;
  unstaged : list StatusEntry;
  untracked : list StatusEntry;
  st_mergeState : option MergeState;
  st_conflicts : list string;
  isDirty : bool
}.

Definition merge_conflicts (r : Repo) : list string :=
  match mergeState r with
  | Some ms => conflicts ms
  | None => []
  end.

Definition opt_eqb (a b : option string) : bool :=
  match a, b with
  | Some x, Some y => String.eqb x y
  | None, None => true
  | _, _ => false
  end.

(* x !== undefined *)
Definition is_defined (a : option string) : bool :=
  match a with Some _ => true | None => false end.

(* the three lists built by the loop of getStatus *)
Record StatusAcc := {
  acc_staged : list StatusEntry;
  acc_unstaged : list StatusEntry;
  acc_untracked : list StatusEntry
}.

Definition push_staged (e : StatusEntry) (a : StatusAcc) : StatusAcc :=
  {| acc_staged := (acc_staged a ++ [e])%list; acc_unstaged := acc_unstaged a;
     acc_untracked := acc_untracked a |}.

Definition push_unstaged (e : StatusEntry) (a : StatusAcc) : StatusAcc :=
  {| acc_staged := acc_staged a; acc_unstaged := (acc_unstaged a ++ [e])%list;
     acc_untracked := acc_untracked a |}.

Definition push_untracked (e : StatusEntry) (a : StatusAcc) : StatusAcc :=
  {| acc_staged := acc_staged a; acc_unstaged := acc_unstaged a;
     acc_untracked := (acc_untracked a ++ [e])%list |}.

(* one iteration of the loop over allPaths *)
Definition status_step (r : Repo) (a : StatusAcc) (p : string) : StatusAcc :=
  let headSnap := getHeadSnapshot r in
  let stagedMap := stagedFiles r in
  let headHas := obj_has headSnap p in
  let workHas := obj_has (workingFiles r) p in
  let stageHas := obj_has stagedMap p in
  let headContent := obj_get headSnap p in
  let workContent := obj_get (workingFiles r) p in
  (* string, or null for a staged deletion *)
  let stagedContent : option string :=
    match obj_get stagedMap p with Some c => c | None => None end in
  let isConflict := mem p (set_of (merge_conflicts r)) in
  if isConflict then a
  else
    (* staged differences (index vs HEAD) *)
    let indexContent := stagedContent in
    let a1 :=
      if stageHas then
        if (negb headHas && is_defined indexContent)%bool
        then push_staged {| path := p; code := "A" |} a
        else if (headHas && negb (is_defined indexContent))%bool
        then push_staged {| path := p; code := "D" |} a
        else if (headHas && negb (opt_eqb indexContent headContent))%bool
        then push_staged {| path := p; code := "M" |} a
        else a
      else a in
    (* working differences (working tree vs index/HEAD) *)
    let indexBaseline := if stageHas then stagedContent else headContent in
    let isUntracked := (negb headHas && workHas)%bool in
    if isUntracked then push_untracked {| path := p; code := "A" |} a1
    else
      let isDeleted := (headHas && negb workHas)%bool in
      if isDeleted then
        if negb stageHas then push_unstaged {| path := p; code := "D" |} a1 else a1
      else
        let isModified :=
          (headHas && workHas && negb (opt_eqb workContent headContent))%bool in
        if isModified then
          if negb (opt_eqb workContent indexBaseline)
          then push_unstaged {| path := p; code := "M" |} a1
          else a1
        else a1.

Definition getStatus (r : Repo) : Status :=
  let allPaths := listAllPaths r in
  let a := fold_left (status_step r) allPaths
             {| acc_staged := []; acc_unstaged := []; acc_untracked := [] |} in
  {| st_branch := currentBranch r;
     st_initialized := initialized r;
     hasCommits := negb (Nat.eqb (List.length (commitOrder r)) 0);
     staged := acc_staged a;
     unstaged := acc_unstaged a;
     untracked := acc_untracked a;
     st_mergeState := mergeState r;
     st_conflicts := merge_conflicts r;
     isDirty :=
       (negb (Nat.eqb (List.length (obj_keys (stagedFiles r))) 0)
        || negb (Nat.eqb (List.length (acc_staged a)) 0)
        || negb (Nat.eqb (List.length (acc_unstaged a)) 0)
        || negb (Nat.eqb (List.length (acc_untracked a)) 0)
        || negb (Nat.eqb (List.length (merge_conflicts r)) 0))%bool |}.

(* A commit's lane is used only for drawing the graph. *)
Definition ensureBranchMeta (branchName : string) (r : Repo) : Repo :=
  if js_defined (branchMeta r) branchName then r
  else
    let l := nextLane r in
    let color := nth (l mod List.length BRANCH_COLORS) BRANCH_COLORS "" in
    set_branchMeta
      (obj_set (branchMeta r) branchName {| meta_lane := l; meta_color := color |})
      (nextLane r + 1) r.

(** ** Loops over the commit graph

    A [while] loop is the iteration of its body, a function from the loop's
    variables to either their next values or the value returned.  [iter] runs
    it for at most [fuel] rounds; the loops of the script finish within
    [graph_fuel] rounds whatever the graph (lemmas [*_terminates] below), so
    the functions defined from them never meet the default. *)

Section Loop.
Context {S R : Type}.
Variable body : S -> S + R.

Fixpoint iter (fuel : nat) (s : S) : option R :=
  match fuel with
  | O => None
  | Datatypes.S f =>
      match body s with
      | inl s' => iter f s'
      | inr res => Some res
      end
  end.
End Loop.

Definition total_parents (cs : obj Commit) : nat :=
  fold_right (fun kc n => List.length (parents (snd kc)) + n) 0 cs.

Definition graph_fuel (r : Repo) : nat := 3 + total_parents (commits r).

(* the body of the loop of isAncestor; the stack has its top first *)
Definition isAncestor_body (r : Repo) (ancestorHash : string)
    (st : list string * list string) : (list string * list string) + bool :=
  let '(seen, stack) := st in
  match stack with
  | [] => inr false
  | cur :: rest =>
      if (negb (nonempty cur) || mem cur seen)%bool then inl (seen, rest)
      else
        let seen' := cur :: seen in
        if String.eqb cur ancestorHash then inr true
        else match obj_get (commits r) cur with
             | None => inl (seen', rest)
             | Some c => inl (seen', (rev (parents c) ++ rest)%list)
             end
  end.

Definition isAncestor (r : Repo) (ancestorHash descendantHash : option string) : bool :=
  match ancestorHash, descendantHash with
  | Some a, Some d =>
      if (negb (nonempty a) || negb (nonempty d))%bool then false
      else if String.eqb a d then true
      else match iter (isAncestor_body r a) (graph_fuel r) ([], [d]) with
           | Some b => b
           | None => false
           end
  | _, _ => false
  end.

(* first loop of findCommonAncestor: distances from a, breadth first *)
Definition dist_body (r : Repo) (st : obj nat * list (string * nat))
    : (obj nat * list (string * nat)) + obj nat :=
  let '(dist, queue) := st in
  match queue with
  | [] => inr dist
  | (h, d) :: rest =>
      if (negb (nonempty h) || obj_has dist h)%bool then inl (dist, rest)
      else
        let dist' := obj_set dist h d in
        match obj_get (commits r) h with
        | None => inl (dist', rest)
        | Some c => inl (dist', (rest ++ map (fun p => (p, d + 1)) (parents c))%list)
        end
  end.

Record BestAcc := {
  best : option string;
  bestD : option nat;          (* None is Infinity *)
  seen2 : list string;
  queue2 : list (string * nat)
}.

Definition lt_bestD (total : nat) (bd : option nat) : bool :=
  match bd with
  | None => true
  | Some m => Nat.ltb total m
  end.

(* second loop: the ancestor of b with the least summed distance *)
Definition best_body (r : Repo) (dist : obj nat) (st : BestAcc)
    : BestAcc + option string :=
  match queue2 st with
  | [] => inr (best st)
  | (h, d) :: rest =>
      if (negb (nonempty h) || mem h (seen2 st))%bool
      then inl {| best := best st; bestD := bestD st; seen2 := seen2 st; queue2 := rest |}
      else
        let seen' := h :: seen2 st in
        let '(b', bd') :=
          match obj_get dist h with
          | Some dh =>
              let total := dh + d in
              if lt_bestD total (bestD st) then (Some h, Some total)
              else (best st, bestD st)
          | None => (best st, bestD st)
          end in
        match obj_get (commits r) h with
        | None => inl {| best := b'; bestD := bd'; seen2 := seen'; queue2 := rest |}
        | Some c =>
            inl {| best := b'; bestD := bd'; seen2 := seen';
                   queue2 := (rest ++ map (fun p => (p, d + 1)) (parents c))%list |}
        end
  end.

Definition findCommonAncestor (r : Repo) (a b : option string) : option string :=
  match a, b with
  | Some ha, Some hb =>
      if (negb (nonempty ha) || negb (nonempty hb))%bool then None
      else if String.eqb ha hb then Some ha
      else
        let dist :=
          match iter (dist_body r) (graph_fuel r) ([], [(ha, 0)]) with
          | Some m => m
          | None => []
          end in
        match iter (best_body r dist) (graph_fuel r)
                {| best := None; bestD := None; seen2 := []; queue2 := [(hb, 0)] |} with
        | Some res => res
        | None => None
        end
  | _, _ => None
  end.

Definition ensureInitialized (r : Repo) : Result :=
  if negb (initialized r)
  then {| ok := false; exitCode := 1; stdout := [];
          stderr := ["fatal: not a git repository (simulated)"] |}
  else {| ok := true; exitCode := 0; stdout := []; stderr := [] |}.

(** ** Git commands *)

(* b ?? null for this.branches[name] *)
Definition branch_or_null (r : Repo) (name : string) : option string :=
  match obj_get (branches r) name with
  | Some h => h
  | None => None
  end.

Definition gitInit (r : Repo) : Repo * Result :=
  let already := initialized r in
  let r1 := set_initialized true r in
  let r2 :=
    if negb (truthy (branch_or_null r1 "main"))
    then set_branches (obj_set (branches r1) "main" (branch_or_null r1 "main")) r1
    else r1 in
  let r3 := if negb (nonempty (currentBranch r2)) then set_currentBranch "main" r2 else r2 in
  let r4 := set_lastEvent (Some git_init) r3 in
  (r4, success [if already
                then "Reinitialized existing Git repository (simulated)."
                else "Initialized empty Git repository (simulated)."]).

Definition statusLabel (c : string) : string :=
  if String.eqb c "A" then "new file"
  else if String.eqb c "M" then "modified"
  else if String.eqb c "D" then "deleted"
  else "changed".

(* the local function section(title, lines) of gitStatus *)
Definition section (title : string) (lines : list string) (out : list string)
    : list string :=
  match lines with
  | [] => out
  | _ => (out ++ [""; title] ++ map (String.append "  ") lines)%list
  end.

Definition is_nil {A : Type} (l : list A) : bool :=
  match l with [] => true | _ => false end.

Definition gitStatus (r : Repo) : Repo * Result :=
  let init := ensureInitialized r in
  if negb (ok init) then (r, init)
  else
    let status := getStatus r in
    let out0 := ["On branch " ++ st_branch status] in
    let out1 := if negb (hasCommits status) then (out0 ++ ["No commits yet"])%list else out0 in
    let out2 :=
      match st_mergeState status with
      | Some _ =>
          (out1 ++ [""; "You are in the middle of a merge.";
                    if negb (is_nil (st_conflicts status))
                    then ("  (fix conflicts and run " ++ dq ++ "git add <file>" ++ dq
                            ++ " then " ++ dq ++ "git commit" ++ dq ++ ")")%string
                    else ("  (all conflicts fixed: run " ++ dq ++ "git commit" ++ dq
                            ++ " to conclude merge)")%string])%list
      | None => out1
      end in
    let stagedLines :=
      map (fun f => statusLabel (code f) ++ ":   " ++ relPath (path f)) (staged status) in
    let out3 := section "Changes to be committed:" stagedLines out2 in
    let unstagedLines :=
      map (fun f => statusLabel (code f) ++ ":   " ++ relPath (path f)) (unstaged status) in
    let out4 := section "Changes not staged for commit:" unstagedLines out3 in
    let untrackedLines := map (fun f => relPath (path f)) (untracked status) in
    let out5 := section "Untracked files:" untrackedLines out4 in
    let out6 :=
      if (is_nil (staged status) && is_nil (unstaged status)
          && is_nil (untracked status) && is_nil (st_conflicts status))%bool
      then (out5 ++ [""; "nothing to commit, working tree clean"])%list
      else out5 in
    let out7 :=
      if negb (is_nil (st_conflicts status))
      then (out6 ++ [""; "Unmerged paths:"]
              ++ map (fun p => ("  both modified: " ++ relPath p)%string)
                   (st_conflicts status))%list
      else out6 in
    (r, success out7).

(* the variables of the loop of gitAdd *)
Record AddAcc := {
  add_staged : obj (option string);
  add_conflicts : list string;
  added : list string;
  errors : list string
}.

Definition gitAdd_step (r : Repo) (headSnap : obj string) (a : AddAcc) (p : string)
    : AddAcc :=
  let workHas := obj_has (workingFiles r) p in
  let headHas := obj_has headSnap p in
  if workHas then
    {| add_staged := obj_set (add_staged a) p (obj_get (workingFiles r) p);
       add_conflicts := set_delete p (add_conflicts a);
       added := (added a ++ [p])%list;
       errors := errors a |}
  else if (negb workHas && headHas)%bool then
    {| add_staged := obj_set (add_staged a) p None;
       add_conflicts := add_conflicts a;
       added := (added a ++ [p])%list;
       errors := errors a |}
  else
    {| add_staged := add_staged a;
       add_conflicts := add_conflicts a;
       added := added a;
       errors := (errors a ++ [("fatal: pathspec '" ++ relPath p
                                  ++ "' did not match any files")%string])%list |}.

Definition set_conflicts (cs : list string) (r : Repo) : Repo :=
  match mergeState r with
  | Some ms =>
      set_mergeState
        (Some {| theirBranch := theirBranch ms; theirHash := theirHash ms;
                 conflicts := cs |}) r
  | None => r
  end.

Definition gitAdd (args : list string) (r : Repo) : Repo * Result :=
  let init := ensureInitialized r in
  if negb (ok init) then (r, init)
  else if is_nil args then (r, failure [] ["fatal: pathspec is required"])
  else
    let targets :=
      if (mem "." args || mem "-A" args || mem "--all" args)%bool
      then set_of (obj_keys (workingFiles r) ++ obj_keys (getHeadSnapshot r))%list
      else map (joinPath (cwd r)) args in
    let headSnap := getHeadSnapshot r in
    let a := fold_left (gitAdd_step r headSnap) targets
               {| add_staged := stagedFiles r;
                  add_conflicts := set_of (merge_conflicts r);
                  added := []; errors := [] |} in
    let r1 := set_stagedFiles (add_staged a) r in
    let r2 := set_conflicts (add_conflicts a) r1 in
    if negb (is_nil (errors a)) then (r2, failure [] (errors a))
    else (set_lastEvent (Some (git_add (map relPath (added a)))) r2, success []).

(* the loop of gitCommit that looks for -m <message> *)
Fixpoint find_message (args : list string) : string :=
  match args with
  | [] => ""
  | a :: rest =>
      match rest with
      | m :: _ => if String.eqb a "-m" then m else find_message rest
      | [] => ""
      end
  end.

(* for (const [path, content] of Object.entries(staged)) ... on a snapshot *)
Definition apply_staged (snap : obj string) (stagedMap : obj (option string))
    : obj string :=
  fold_left
    (fun next pc =>
       match snd pc with
       | None => obj_delete next (fst pc)
       | Some content => obj_set next (fst pc) content
       end)
    stagedMap snap.

Definition opt_list (h : option string) : list string :=
  if truthy h then match h with Some s => [s] | None => [] end else [].

Definition gitCommit (args : list string) (newHash : string) (now : Z) (r : Repo)
    : Repo * Result :=
  let init := ensureInitialized r in
  if negb (ok init) then (r, init)
  else
    let status := getStatus r in
    let hasStaged :=
      (negb (is_nil (staged status)) || negb (is_nil (obj_keys (stagedFiles r))))%bool in
    if negb hasStaged
    then (r, failure [] ["nothing to commit (no staged changes)"])
    else if negb (is_nil (merge_conflicts r))
    then (r, failure []
               ["error: Committing is not possible because you have unmerged files."])
    else
      let message0 := find_message args in
      let msg :=
        if nonempty message0 then message0
        else match mergeState r with
             | Some ms => "Merge branch '" ++ theirBranch ms ++ "'"
             | None => "Commit"
             end in
      let parentList :=
        (opt_list (head r)
           ++ match mergeState r with
              | Some ms => opt_list (Some (theirHash ms))
              | None => []
              end)%list in
      let base := deepCopy (getHeadSnapshot r) in
      let next := apply_staged base (stagedFiles r) in
      let r1 := ensureBranchMeta (currentBranch r) r in
      let metaLane :=
        match obj_get (branchMeta r1) (currentBranch r1) with
        | Some m => meta_lane m
        | None => 0
        end in
      let c := {| hash := newHash; message := msg; parents := parentList;
                  timestamp := now; files := next; lane := metaLane;
                  branch := currentBranch r1 |} in
      let r2 := set_commits (obj_set (commits r1) newHash c) r1 in
      let r3 := set_commitOrder (commitOrder r2 ++ [newHash])%list r2 in
      let r4 := set_head (Some newHash) r3 in
      (* update the working tree for the files we staged *)
      let r5 := set_workingFiles (apply_staged (workingFiles r4) (stagedFiles r4)) r4 in
      let r6 := set_stagedFiles [] r5 in
      let r7 := set_mergeState None r6 in
      let r8 := set_lastEvent (Some (git_commit newHash msg)) r7 in
      let changed :=
        if negb (is_nil (staged status)) then List.length (staged status)
        else List.length (obj_keys next) in
      (r8, success ["[" ++ currentBranch r8 ++ " " ++ shortHash (Some newHash) ++ "] " ++ msg;
                    nat_to_string changed ++ " file(s) changed (simulated)"]).

(* the variables of the loop of gitLog *)
Record LogAcc := {
  log_cur : option string;
  log_seen : list string;
  log_out : list string
}.

Definition first_or_null (l : list string) : option string :=
  match l with
  | p :: _ => if nonempty p then Some p else None
  | [] => None
  end.

Definition gitLog_body (r : Repo) (oneline : bool) (fmtDate : Z -> string) (st : LogAcc)
    : LogAcc + list string :=
  match log_cur st with
  | None => inr (log_out st)
  | Some cur =>
      if (negb (nonempty cur) || mem cur (log_seen st))%bool then inr (log_out st)
      else
        match obj_get (commits r) cur with
        | None => inr (log_out st)
        | Some c =>
            let out' :=
              if oneline
              then (log_out st ++ [(shortHash (Some (hash c)) ++ " " ++ message c)%string])%list
              else (log_out st ++ [("commit " ++ hash c)%string;
                                   ("Date:   " ++ fmtDate (timestamp c))%string;
                                   "";
                                   ("    " ++ message c)%string;
                                   ""])%list in
            inl {| log_cur := first_or_null (parents c);
                   log_seen := cur :: log_seen st;
                   log_out := out' |}
        end
  end.

Definition gitLog (args : list string) (fmtDate : Z -> string) (r : Repo)
    : Repo * Result :=
  let init := ensureInitialized r in
  if negb (ok init) then (r, init)
  else if negb (truthy (head r))
  then (r, failure [] ["fatal: your current branch has no commits"])
  else
    let oneline := mem "--oneline" args in
    let out :=
      match iter (gitLog_body r oneline fmtDate) (2 + List.length (commits r))
              {| log_cur := head r; log_seen := []; log_out := [] |} with
      | Some o => o
      | None => []
      end in
    (r, success out).

Definition gitBranch (args : list string) (r : Repo) : Repo * Result :=
  let init := ensureInitialized r in
  if negb (ok init) then (r, init)
  else
    match args with
    | name :: _ =>
        if negb (nonempty name)
        then (r, success (map (fun b => if String.eqb b (currentBranch r)
                                        then ("* " ++ b)%string else ("  " ++ b)%string)
                              (sort (obj_keys (branches r)))))
        else if js_defined (branches r) name
        then (r, failure [] ["fatal: A branch named '" ++ name ++ "' already exists."])
        else
          let r1 := set_branches (obj_set (branches r) name (head r)) r in
          let r2 := ensureBranchMeta name r1 in
          (set_lastEvent (Some (git_branch_create name)) r2, success [])
    | [] =>
        (r, success (map (fun b => if String.eqb b (currentBranch r)
                                   then ("* " ++ b)%string else ("  " ++ b)%string)
                         (sort (obj_keys (branches r)))))
    end.

Definition gitCheckout (args : list string) (r : Repo) : Repo * Result :=
  let init := ensureInitialized r in
  if negb (ok init) then (r, init)
  else if isDirty (getStatus r)
  then (r, failure []
             ["error: Your local changes would be overwritten by checkout (simulated).";
              "Hint: commit, stash, or reset before switching branches."])
  else
    match args with
    | [] => (r, failure [] ["fatal: branch name required"])
    | a0 :: rest =>
        if String.eqb a0 "-b" then
          match first_or_null rest with
          | None => (r, failure [] ["fatal: -b requires a branch name"])
          | Some name =>
              if js_defined (branches r) name
              then (r, failure [] ["fatal: A branch named '" ++ name ++ "' already exists."])
              else
                let r1 := set_branches (obj_set (branches r) name (head r)) r in
                let r2 := ensureBranchMeta name r1 in
                let r3 := set_currentBranch name r2 in
                let r4 := set_workingFiles (deepCopy (getHeadSnapshot r3)) r3 in
                (set_lastEvent (Some (git_checkout_new name)) r4,
                 success ["Switched to a new branch '" ++ name ++ "'"])
          end
        else
          let name := a0 in
          if negb (js_defined (branches r) name)
          then (r, failure [] ["error: pathspec '" ++ name ++ "' did not match any branch"])
          else
            let r1 := set_currentBranch name r in
            let r2 := ensureBranchMeta name r1 in
            let r3 := set_workingFiles (deepCopy (getHeadSnapshot r2)) r2 in
            let r4 := set_stagedFiles [] r3 in
            let r5 := set_mergeState None r4 in
            (set_lastEvent (Some (git_checkout name)) r5,
             success ["Switched to branch '" ++ name ++ "'"])
    end.

(** *** merge *)

(* the conflict buffer written to the working tree *)
Definition conflict_buffer (o t : option string) (theirBranchName : string) : string :=
  let oursText := match o with Some s => s | None => "" end in
  let theirsText := match t with Some s => s | None => "" end in
  "<<<<<<< HEAD" ++ nl ++ oursText ++ nl ++ "=======" ++ nl ++ theirsText ++ nl
    ++ ">>>>>>> " ++ theirBranchName ++ nl.

(* merged[path] = v, or delete merged[path] when v is undefined *)
Definition put (merged : obj string) (p : string) (v : option string) : obj string :=
  match v with
  | None => obj_delete merged p
  | Some s => obj_set merged p s
  end.

(* one iteration of the three-way loop over paths *)
Definition merge_step (base oursSnap theirsSnap : obj string) (theirBranchName : string)
    (acc : obj string * list string) (p : string) : obj string * list string :=
  let '(merged, cs) := acc in
  let b := obj_get base p in
  let o := obj_get oursSnap p in
  let t := obj_get theirsSnap p in
  if opt_eqb o t then (put merged p o, cs)            (* same result on both sides *)
  else if opt_eqb o b then (put merged p t, cs)       (* ours unchanged: take theirs *)
  else if opt_eqb t b then (put merged p o, cs)       (* theirs unchanged: keep ours *)
  else (obj_set merged p (conflict_buffer o t theirBranchName), (cs ++ [p])%list).

Definition merge_paths (base oursSnap theirsSnap : obj string) : list string :=
  set_of (obj_keys base ++ obj_keys oursSnap ++ obj_keys theirsSnap)%list.

Definition three_way (base oursSnap theirsSnap : obj string) (theirBranchName : string)
    : obj string * list string :=
  fold_left (merge_step base oursSnap theirsSnap theirBranchName)
    (merge_paths base oursSnap theirsSnap) (deepCopy oursSnap, []).

(* stage everything resulting from the merge, and the deletions *)
Definition stage_all (work : obj string) (old : obj string)
    (st : obj (option string)) : obj (option string) :=
  let st1 := fold_left (fun s pc => obj_set s (fst pc) (Some (snd pc))) work st in
  fold_left (fun s p => if negb (obj_has work p) then obj_set s p None else s)
    (obj_keys old) st1.

Definition fast_forward (theirBranchName : string) (theirs : option string) (r : Repo)
    : Repo * Result :=
  let r1 := set_head theirs r in
  let r2 := set_workingFiles (deepCopy (getHeadSnapshot r1)) r1 in
  (set_lastEvent (Some (git_merge_ff theirBranchName)) r2,
   success ["Fast-forward (simulated)."]).

Definition gitMerge (args : list string) (newHash : string) (now : Z) (r : Repo)
    : Repo * Result :=
  let init := ensureInitialized r in
  if negb (ok init) then (r, init)
  else if isDirty (getStatus r)
  then (r, failure []
             ["error: cannot merge because you have local changes (simulated).";
              "Hint: commit or stash first."])
  else
    match first_or_null args with
    | None => (r, failure [] ["fatal: branch name required"])
    | Some theirBranchName =>
        if negb (obj_has (branches r) theirBranchName)
        then (r, failure [] ["fatal: branch '" ++ theirBranchName ++ "' not found"])
        else
          let ours := head r in
          let theirs := branch_or_null r theirBranchName in
          if negb (truthy theirs) then (r, success ["Already up to date."])
          else if negb (truthy ours) then fast_forward theirBranchName theirs r
          else if isAncestor r ours theirs then fast_forward theirBranchName theirs r
          else if isAncestor r theirs ours then (r, success ["Already up to date."])
          else
            let baseHash := findCommonAncestor r ours theirs in
            let base := getSnapshot r baseHash in
            let oursSnap := getSnapshot r ours in
            let theirsSnap := getSnapshot r theirs in
            let '(merged, cs) := three_way base oursSnap theirsSnap theirBranchName in
            let r1 := set_workingFiles merged r in
            let r2 := set_stagedFiles [] r1 in
            let theirHashStr := match theirs with Some s => s | None => "" end in
            if negb (is_nil cs) then
              let r3 := set_mergeState
                          (Some {| theirBranch := theirBranchName;
                                   theirHash := theirHashStr; conflicts := cs |}) r2 in
              let r4 := set_lastEvent
                          (Some (git_merge_conflict theirBranchName (map relPath cs))) r3 in
              let out0 := ["Auto-merging (simulated)…";
                           "CONFLICT (content): Merge conflict in "
                             ++ relPath (hd "" cs)] in
              let out1 :=
                if Nat.ltb 1 (List.length cs)
                then (out0 ++ [("(" ++ nat_to_string (List.length cs - 1)
                                  ++ " more conflict(s))")%string])%list
                else out0 in
              (r4, {| ok := false; exitCode := 1;
                      stdout := (out1 ++ [("Fix conflicts, then run " ++ dq ++ "git add <file>"
                                             ++ dq ++ " and " ++ dq ++ "git commit" ++ dq
                                             ++ ".")%string])%list;
                      stderr := [] |})
            else
              (* no conflicts: auto-create a merge commit *)
              let r3 := set_mergeState
                          (Some {| theirBranch := theirBranchName;
                                   theirHash := theirHashStr; conflicts := [] |}) r2 in
              let r4 := set_stagedFiles
                          (stage_all (workingFiles r3) oursSnap (stagedFiles r3)) r3 in
              let '(r5, res) :=
                gitCommit ["-m"; "Merge branch '" ++ theirBranchName ++ "'"] newHash now r4 in
              (set_lastEvent (Some (git_merge theirBranchName)) r5,
               {| ok := ok res; exitCode := exitCode res;
                  stdout := "Merge made by Git Tutor (simulated)." :: stdout res;
                  stderr := stderr res |})
    end.

(** ** Remote store *)

Record RemoteRepo := {
  remote_url : string;
  remote_commits : obj Commit;
  remote_commitOrder : list string;
  remote_branches : obj (option string)
}.

Record RemoteStore := { byUrl : obj RemoteRepo }.

(* what a call does: it returns, or an exception leaves it ([msg] is the
   message of an Error the script throws itself, and the name of the
   exception where the engine throws) *)
Inductive Outcome :=
| Returned (res : Result)
| Threw (msg : string).

(** White space.  A [string] holds the UTF-8 encoding of a JS string; the
    white space and the line terminators of ECMAScript, which [trim] strips
    and [\s] matches, are the following code points, by their encodings. *)
Definition bytes (l : list nat) : string :=
  fold_right (fun n s => String (ascii_of_nat n) s) EmptyString l.

Definition blanks : list string :=
  map bytes
    [[9]; [10]; [11]; [12]; [13]; [32];       (* TAB LF VT FF CR SP *)
     [194; 160];                              (* U+00A0 *)
     [225; 154; 128];                         (* U+1680 *)
     [226; 128; 128]; [226; 128; 129]; [226; 128; 130]; [226; 128; 131];
     [226; 128; 132]; [226; 128; 133]; [226; 128; 134]; [226; 128; 135];
     [226; 128; 136]; [226; 128; 137]; [226; 128; 138];   (* U+2000 .. U+200A *)
     [226; 128; 168]; [226; 128; 169];        (* U+2028 U+2029 *)
     [226; 128; 175];                         (* U+202F *)
     [226; 129; 159];                         (* U+205F *)
     [227; 128; 128];                         (* U+3000 *)
     [239; 187; 191]].                        (* U+FEFF *)

(* the length of the pattern that [s] begins with, 0 when it begins with none *)
Definition prefix_length (pats : list string) (s : string) : nat :=
  match find (fun b => String.prefix b s) pats with
  | Some b => String.length b
  | None => 0
  end.

(* the length of the white space character that [s] begins with, or 0 *)
Definition blank_length (s : string) : nat := prefix_length blanks s.

(* [s] without the patterns it begins with; [skip] counts the bytes of the
   current pattern that are still to be dropped *)
Fixpoint drop_prefixes (pats : list string) (skip : nat) (s : string) : string :=
  match s with
  | EmptyString => EmptyString
  | String _ t =>
      match skip with
      | S k => drop_prefixes pats k t
      | O =>
          match prefix_length pats s with
          | S k => drop_prefixes pats k t
          | O => s
          end
      end
  end.

Fixpoint string_rev (s : string) : string :=
  match s with
  | EmptyString => EmptyString
  | String c t => string_rev t ++ String c EmptyString
  end.

Definition trim_start (s : string) : string := drop_prefixes blanks 0 s.

Definition trim_end (s : string) : string :=
  string_rev (drop_prefixes (map string_rev blanks) 0 (string_rev s)).

Definition trim (s : string) : string := trim_end (trim_start s).

Definition createEmptyRemote (u : string) : RemoteRepo :=
  {| remote_url := u; remote_commits := []; remote_commitOrder := [];
     remote_branches := [("main", None)] |}.

(* ensureRepo(url): the store afterwards and the key under which it reads
   the value it returns; None when it throws.  The value is byUrl[key] read
   through the prototype chain: a repository, or, for a key that only
   Object.prototype defines, a member of the prototype (nothing is created
   then, and the store has no repository under the key) *)
Definition ensureRepo (store : RemoteStore) (u : string) : option (RemoteStore * string) :=
  let normalized := trim u in
  if negb (nonempty normalized) then None
  else if js_defined (byUrl store) normalized then Some (store, normalized)
  else Some ({| byUrl := obj_set (byUrl store) normalized (createEmptyRemote normalized) |},
             normalized).

(* getRepo(url): this.byUrl[normalized] || null, where [undef] is the null *)
Definition getRepo (store : RemoteStore) (u : string) : Read RemoteRepo :=
  js_read (byUrl store) (trim u).

Definition nth_truthy (n : nat) (l : list string) : option string :=
  match nth_error l n with
  | Some s => if nonempty s then Some s else None
  | None => None
  end.

Definition or_else (a : option string) (b : string) : string :=
  match a with Some s => s | None => b end.

Definition tab : string := String (ascii_of_nat 9) "".

Definition no_store : Result := failure [] ["internal error: remote store missing"].

Definition gitRemote (args : list string) (ctx : option RemoteStore) (r : Repo)
    : Repo * option RemoteStore * Outcome :=
  let init := ensureInitialized r in
  if negb (ok init) then (r, ctx, Returned init)
  else
    match ctx with
    | None => (r, ctx, Returned no_store)
    | Some store =>
        match nth_truthy 0 args with
        | None => (r, ctx, Returned (success (sort (obj_keys (remotes r)))))
        | Some sub =>
            if String.eqb sub "-v" then
              (r, ctx,
               Returned (success
                 (flat_map
                    (fun name =>
                       let u := match obj_get (remotes r) name with
                                | Some rm => url rm
                                | None => ""
                                end in
                       [(name ++ tab ++ u ++ " (fetch)")%string;
                        (name ++ tab ++ u ++ " (push)")%string])
                    (sort (obj_keys (remotes r))))))
            else if String.eqb sub "add" then
              match nth_truthy 1 args, nth_truthy 2 args with
              | Some name, Some u =>
                  if js_defined (remotes r) name
                  then (r, ctx, Returned (failure [] ["fatal: remote " ++ name
                                                        ++ " already exists"]))
                  else
                    match ensureRepo store u with
                    | None => (r, ctx, Threw "Remote URL is required.")
                    | Some (store', _) =>
                        let r1 := set_remotes (obj_set (remotes r) name {| url := u |}) r in
                        (set_lastEvent (Some (git_remote_add name u)) r1, Some store',
                         Returned (success []))
                    end
              | _, _ =>
                  (r, ctx, Returned (failure [] ["usage: git remote add <name> <url>"]))
              end
            else (r, ctx, Returned (failure []
                           ["usage: git remote [-v] | git remote add <name> <url>"]))
        end
    end.

(* the loop copying the missing commits; the flag says that deepCopy threw
   on a hash of commitOrder that has no commit *)
Fixpoint push_commits (local : obj Commit) (order : list string) (rc : obj Commit)
    : obj Commit * bool :=
  match order with
  | [] => (rc, false)
  | h :: rest =>
      if negb (obj_has rc h) then
        match obj_get local h with
        | Some c => push_commits local rest (obj_set rc h (deepCopy c))
        | None => (rc, true)
        end
      else push_commits local rest rc
  end.

Definition push_order (localOrder remoteOrder : list string) : list string :=
  let existing := set_of remoteOrder in
  (remoteOrder ++ filter (fun h => negb (mem h existing)) localOrder)%list.

Definition upstream_remote (r : Repo) : option string :=
  match obj_get (upstreams r) (currentBranch r) with
  | Some u => if nonempty (up_remote u) then Some (up_remote u) else None
  | None => None
  end.

Definition upstream_branch (r : Repo) : option string :=
  match obj_get (upstreams r) (currentBranch r) with
  | Some u => if nonempty (up_branch u) then Some (up_branch u) else None
  | None => None
  end.

Definition is_upstream_flag (a : string) : bool :=
  (String.eqb a "-u" || String.eqb a "--set-upstream")%bool.

(* the arguments of push without -u and --set-upstream *)
Definition push_cleaned (args : list string) : list string :=
  filter (fun a => negb (is_upstream_flag a)) args.

(* cleaned[0] || this.upstreams[this.currentBranch]?.remote || "origin" *)
Definition push_remoteName (args : list string) (r : Repo) : string :=
  match nth_truthy 0 (push_cleaned args) with
  | Some n => n
  | None => or_else (upstream_remote r) "origin"
  end.

(* cleaned[1] || this.currentBranch *)
Definition push_branchName (args : list string) (r : Repo) : string :=
  or_else (nth_truthy 1 (push_cleaned args)) (currentBranch r).

Definition gitPush (args : list string) (ctx : option RemoteStore) (r : Repo)
    : Repo * option RemoteStore * Outcome :=
  let init := ensureInitialized r in
  if negb (ok init) then (r, ctx, Returned init)
  else
    match ctx with
    | None => (r, ctx, Returned no_store)
    | Some store =>
        let setUpstream := existsb is_upstream_flag args in
        let remoteName := push_remoteName args r in
        let branchName := push_branchName args r in
        match js_read (remotes r) remoteName with
        | undef => (r, ctx, Returned (failure [] ["fatal: '" ++ remoteName
                                        ++ "' does not appear to be a git remote"]))
        | proto =>
            (* a member of Object.prototype has no url: ensureRepo(undefined) *)
            (r, ctx, Threw "Remote URL is required.")
        | own rm =>
            let u := url rm in
            match ensureRepo store u with
            | None => (r, ctx, Threw "Remote URL is required.")
            | Some (store1, key) =>
                let localHead := branch_or_null r branchName in
                if negb (truthy localHead)
                then (r, Some store1,
                      Returned (failure [] ["error: src refspec " ++ branchName
                                              ++ " does not match any"]))
                else
                match obj_get (byUrl store1) key with
                | None =>
                    (* a member of Object.prototype has no commits and no branches *)
                    (r, Some store1, Threw "TypeError")
                | Some remoteRepo =>
                  let '(rc, threw) :=
                    push_commits (commits r) (commitOrder r) (remote_commits remoteRepo) in
                  if threw
                  then (r,
                        Some {| byUrl := obj_set (byUrl store1) key
                                  {| remote_url := remote_url remoteRepo;
                                     remote_commits := rc;
                                     remote_commitOrder := remote_commitOrder remoteRepo;
                                     remote_branches := remote_branches remoteRepo |} |},
                        Threw "SyntaxError: JSON.parse")
                  else
                    let ro := push_order (commitOrder r) (remote_commitOrder remoteRepo) in
                    let old :=
                      match obj_get (remote_branches remoteRepo) branchName with
                      | Some h => if truthy h then h else None
                      | None => None
                      end in
                    let remoteRepo' :=
                      {| remote_url := remote_url remoteRepo;
                         remote_commits := rc;
                         remote_commitOrder := ro;
                         remote_branches :=
                           obj_set (remote_branches remoteRepo) branchName localHead |} in
                    let store2 := {| byUrl := obj_set (byUrl store1) key remoteRepo' |} in
                    let r1 :=
                      if setUpstream
                      then set_upstreams
                             (obj_set (upstreams r) branchName
                                {| up_remote := remoteName; up_branch := branchName |}) r
                      else r in
                    let r2 := set_lastEvent (Some (git_push remoteName branchName)) r1 in
                    let oldShort :=
                      if nonempty (shortHash old) then shortHash old else "0000000" in
                    let out :=
                      ([("To " ++ u)%string;
                        ("   " ++ oldShort ++ ".." ++ shortHash localHead ++ "  "
                           ++ branchName ++ " -> " ++ branchName)%string]
                       ++ (if setUpstream
                           then [("Branch '" ++ branchName ++ "' set up to track '"
                                    ++ remoteName ++ "/" ++ branchName
                                    ++ "'. (simulated)")%string]
                           else []))%list in
                    (r2, Some store2, Returned (success out))
                end
            end
        end
    end.

(* the loop of gitPull bringing the missing commits into the local repo *)
Definition pull_step (rcommits : obj Commit) (acc : obj Commit * list string) (h : string)
    : obj Commit * list string :=
  let '(cs, order) := acc in
  match obj_get rcommits h with
  | Some c =>
      if negb (obj_has cs h) then (obj_set cs h (deepCopy c), (order ++ [h])%list)
      else acc
  | None => acc
  end.

Definition prepend_stdout (line : string) (res : Result) : Result :=
  {| ok := ok res; exitCode := exitCode res; stdout := line :: stdout res;
     stderr := stderr res |}.

Definition gitPull (args : list string) (ctx : option RemoteStore)
    (newHash : string) (now : Z) (r : Repo) : Repo * Outcome :=
  let init := ensureInitialized r in
  if negb (ok init) then (r, Returned init)
  else
    match ctx with
    | None => (r, Returned no_store)
    | Some store =>
        if isDirty (getStatus r)
        then (r, Returned (failure []
                             ["error: cannot pull with local changes (simulated).";
                              "Hint: commit or stash first."]))
        else
          let remoteName :=
            match nth_truthy 0 args with
            | Some n => n
            | None => or_else (upstream_remote r) "origin"
            end in
          let branchName :=
            match nth_truthy 1 args with
            | Some b => b
            | None => or_else (upstream_branch r) (currentBranch r)
            end in
          let remote := js_read (remotes r) remoteName in
          match remote with
          | undef =>
              (r, Returned (failure [] ["fatal: remote '" ++ remoteName ++ "' not found"]))
          | _ =>
              (* remote.url: undefined for a member of Object.prototype *)
              let u := match remote with
                       | own rm => Some (url rm)
                       | _ => None
                       end in
              match getRepo store (or_else u "") with
              | undef =>
                  (r, Returned (failure [] ["fatal: remote URL not found: "
                                              ++ or_else u "undefined"]))
              | proto =>
                  (* a member of Object.prototype has no branches *)
                  (r, Threw "TypeError")
              | own remoteRepo =>
                  let remoteHead :=
                    match obj_get (remote_branches remoteRepo) branchName with
                    | Some h => h
                    | None => None
                    end in
                  if negb (truthy remoteHead)
                  then (r, Returned (failure [] ["fatal: remote branch '" ++ branchName
                                                   ++ "' not found"]))
                  else
                    let '(cs, order) :=
                      fold_left (pull_step (remote_commits remoteRepo))
                        (remote_commitOrder remoteRepo) (commits r, commitOrder r) in
                    let r1 := set_commitOrder order (set_commits cs r) in
                    let ours := head r1 in
                    let theirs := remoteHead in
                    if (negb (truthy ours) || isAncestor r1 ours theirs)%bool then
                      let r2 := set_head theirs r1 in
                      let r3 := set_workingFiles (deepCopy (getHeadSnapshot r2)) r2 in
                      (set_lastEvent (Some (git_pull_ff remoteName branchName)) r3,
                       Returned (success ["Fast-forward (simulated)."]))
                    else if isAncestor r1 theirs ours
                    then (r1, Returned (success ["Already up to date."]))
                    else
                      (* diverged: merge through a temporary branch pointer *)
                      let label := remoteName ++ "/" ++ branchName in
                      let tmpName := "__remote_" ++ label in
                      let r2 := set_branches (obj_set (branches r1) tmpName theirs) r1 in
                      let '(r3, res) := gitMerge [tmpName] newHash now r2 in
                      let r4 := set_branches (obj_delete (branches r3) tmpName) r3 in
                      let res' :=
                        if ok res
                        then prepend_stdout ("Merge from " ++ label ++ " (simulated).") res
                        else prepend_stdout
                               ("Merge from " ++ label
                                  ++ " requires conflict resolution (simulated).") res in
                      (set_lastEvent (Some (git_pull_merge remoteName branchName)) r4,
                       Returned res')
              end
          end
    end.

Definition gitClone (args : list string) (ctx : option RemoteStore) (r : Repo)
    : Repo * option RemoteStore * Outcome :=
  match ctx with
  | None => (r, ctx, Returned no_store)
  | Some store =>
      match nth_truthy 0 args with
      | None => (r, ctx, Returned (failure [] ["usage: git clone <url>"]))
      | Some u =>
          match ensureRepo store u with
          | None => (r, ctx, Threw "Remote URL is required.")
          | Some (store1, key) =>
              (* replace this repo with the remote content *)
              let r1 := set_initialized true reset in
              let r2 := set_remotes (obj_set (remotes r1) "origin" {| url := u |}) r1 in
              let r3 := set_upstreams
                          (obj_set (upstreams r2) "main"
                             {| up_remote := "origin"; up_branch := "main" |}) r2 in
              match obj_get (byUrl store1) key with
              | None =>
                  (* a member of Object.prototype has no commits: deepCopy(undefined) *)
                  (r3, Some store1, Threw "SyntaxError: JSON.parse")
              | Some remoteRepo =>
              let r4 := set_commits (deepCopy (remote_commits remoteRepo)) r3 in
              let r5 := set_commitOrder (remote_commitOrder remoteRepo) r4 in
              let r6 := set_branches (deepCopy (remote_branches remoteRepo)) r5 in
              let r7 := set_currentBranch "main" r6 in
              let r8 := set_branchMeta (obj_set (branchMeta r7) "main" main_meta) 1 r7 in
              let r9 := set_workingFiles (deepCopy (getHeadSnapshot r8)) r8 in
              let r10 :=
                set_directories
                  (fold_left (fun ds p => obj_set ds (dirname p) true)
                     (obj_keys (workingFiles r9)) (directories r9)) r9 in
              (set_lastEvent (Some (git_clone u)) r10, Some store1,
               Returned (success ["Cloning into '" ++ basename u ++ "'… (simulated)";
                                  "done."]))
              end
          end
      end
  end.

Definition gitStash (args : list string) (now : Z) (r : Repo) : Repo * Result :=
  let init := ensureInitialized r in
  if negb (ok init) then (r, init)
  else if match args with a0 :: _ => String.eqb a0 "pop" | [] => false end then
    match stash r with
    | [] => (r, failure [] ["No stash entries found."])
    | entry :: rest =>
        let r1 := set_stash rest r in
        let r2 := set_workingFiles (stash_workingFiles entry) r1 in
        let r3 := set_stagedFiles (stash_stagedFiles entry) r2 in
        let r4 := set_mergeState None r3 in
        (set_lastEvent (Some git_stash_pop) r4, success ["Applied stash (simulated)."])
    end
  else if negb (isDirty (getStatus r))
  then (r, failure [] ["No local changes to save."])
  else
    let msg := "WIP on " ++ currentBranch r ++ ": " ++ shortHash (head r)
                 ++ " (simulated)" in
    let entry := {| stash_message := msg;
                    stash_workingFiles := deepCopy (workingFiles r);
                    stash_stagedFiles := deepCopy (stagedFiles r);
                    createdAt := now |} in
    let r1 := set_stash (entry :: stash r) r in
    let r2 := set_workingFiles (deepCopy (getHeadSnapshot r1)) r1 in
    let r3 := set_stagedFiles [] r2 in
    let r4 := set_mergeState None r3 in
    (set_lastEvent (Some git_stash) r4,
     success ["Saved working directory and index state: " ++ msg]).

(* toLowerCase on the ASCII letters *)
Definition lower_ascii (c : ascii) : ascii :=
  let n := nat_of_ascii c in
  if (Nat.leb 65 n && Nat.leb n 90)%bool then ascii_of_nat (n + 32) else c.

Fixpoint toLowerCase (s : string) : string :=
  match s with
  | EmptyString => EmptyString
  | String c t => String (lower_ascii c) (toLowerCase t)
  end.

Definition resolveHashPrefix (r : Repo) (prefix : string) : option string :=
  let p := toLowerCase prefix in
  if negb (nonempty p) then None
  else
    let hashes := obj_keys (commits r) in
    let matches := filter (fun h => startsWith (toLowerCase h) p) hashes in
    match matches with
    | [m] => Some m
    | _ => None
    end.

(* the property name a nullable hash turns into when it indexes an object *)
Definition js_key (h : option string) : string :=
  match h with Some s => s | None => "null" end.

Definition gitReset (args : list string) (r : Repo) : Repo * Result :=
  let init := ensureInitialized r in
  if negb (ok init) then (r, init)
  else if negb (match args with a0 :: _ => String.eqb a0 "--hard" | [] => false end)
  then (r, failure [] ["Only '--hard' is supported in this tutorial."])
  else
    let target := or_else (nth_truthy 1 args) "HEAD" in
    let resolved : option (option string) :=
      if String.eqb target "HEAD" then Some (head r)
      else if String.eqb target "HEAD~1" then
        match obj_get (commits r) (js_key (head r)) with
        | Some headCommit => Some (first_or_null (parents headCommit))
        | None => Some None
        end
      else
        (* assume it is a hash prefix *)
        match resolveHashPrefix r target with
        | Some full => if nonempty full then Some (Some full) else None
        | None => None
        end in
    match resolved with
    | None => (r, failure [] ["fatal: ambiguous argument '" ++ target ++ "'"])
    | Some targetHash =>
        let r1 := set_head targetHash r in
        let r2 := set_workingFiles (deepCopy (getHeadSnapshot r1)) r1 in
        let r3 := set_stagedFiles [] r2 in
        let r4 := set_mergeState None r3 in
        (set_lastEvent (Some (git_reset_hard target)) r4,
         success ["HEAD is now at " ++ shortHash targetHash ++ " (simulated)."])
    end.

(* one iteration of the inverse-patch loop of gitRevert *)
Definition revert_step (parentFiles commitFiles : obj string)
    (headFiles : obj string) (p : string) : obj string :=
  let before := obj_get parentFiles p in
  let after := obj_get commitFiles p in
  if opt_eqb before after then headFiles
  else
    match before, after with
    | None, Some _ => obj_delete headFiles p          (* added in commit: delete *)
    | Some b, _ => obj_set headFiles p b              (* deleted or modified: restore *)
    | None, None => headFiles
    end.

(* what gitRevert reads of a member of Object.prototype found at
   commits[hashArg]: an undefined message, no parents and no files *)
Definition prototype_commit : Commit :=
  {| hash := ""; message := "undefined"; parents := []; timestamp := 0;
     files := []; lane := 0; branch := "" |}.

Definition gitRevert (args : list string) (newHash : string) (now : Z) (r : Repo)
    : Repo * Result :=
  let init := ensureInitialized r in
  if negb (ok init) then (r, init)
  else
    match nth_truthy 0 args with
    | None => (r, failure [] ["usage: git revert <hash>"])
    | Some hashArg =>
        let full :=
          match resolveHashPrefix r hashArg with
          | Some f => if nonempty f then Some f
                      else if js_defined (commits r) hashArg then Some hashArg else None
          | None => if js_defined (commits r) hashArg then Some hashArg else None
          end in
        match full with
        | None => (r, failure [] ["fatal: bad revision '" ++ hashArg ++ "'"])
        | Some f =>
            let commit :=
              match js_read (commits r) f with
              | own c => Some c
              | proto => Some prototype_commit
              | undef => None   (* not reached: full is a key or an inherited name *)
              end in
            match commit with
            | None => (r, failure [] ["fatal: bad revision '" ++ hashArg ++ "'"])
            | Some c =>
                let parentHash := first_or_null (parents c) in
                let parentFiles := getSnapshot r parentHash in
                let commitFiles := files c in
                let headFiles0 := deepCopy (getHeadSnapshot r) in
                let paths := set_of (obj_keys parentFiles ++ obj_keys commitFiles)%list in
                let headFiles := fold_left (revert_step parentFiles commitFiles)
                                   paths headFiles0 in
                (* create a new commit directly *)
                let r1 := set_stagedFiles
                            (stage_all headFiles (getHeadSnapshot r) []) r in
                let msg := "Revert " ++ dq ++ message c ++ dq in
                let '(r2, res) := gitCommit ["-m"; msg] newHash now r1 in
                let r3 := set_lastEvent (Some (git_revert f)) r2 in
                if ok res
                then (r3, {| ok := ok res; exitCode := exitCode res;
                             stdout := ("Reverted " ++ shortHash (Some f)
                                          ++ " (simulated).") :: stdout res;
                             stderr := stderr res |})
                else (r3, {| ok := ok res; exitCode := exitCode res;
                             stdout := stdout res;
                             stderr := "revert failed (simulated)" :: stderr res |})
            end
        end
    end.

(** ** Command-line parsing and dispatch *)

Definition dq_char : ascii := ascii_of_nat 34.

(* the loop of splitArgs over the characters of the trimmed line, byte by
   byte: [skip] counts the bytes still to pass of a white space character
   met outside quotes (every other character goes to the token as it is) *)
Fixpoint splitArgs_loop (s current : string) (inQuotes : bool) (tokens : list string)
    (skip : nat) : list string :=
  match s with
  | EmptyString => if nonempty current then (tokens ++ [current])%list else tokens
  | String ch t =>
      match skip with
      | S k => splitArgs_loop t current inQuotes tokens k
      | O =>
          if Ascii.eqb ch dq_char then splitArgs_loop t current (negb inQuotes) tokens 0
          else
            match (if inQuotes then 0 else blank_length s) with
            | S k =>
                splitArgs_loop t "" inQuotes
                  (if nonempty current then (tokens ++ [current])%list else tokens) k
            | O => splitArgs_loop t (current ++ String ch "") inQuotes tokens 0
            end
      end
  end.

Definition splitArgs (line : string) : list string :=
  let input := trim line in
  if negb (nonempty input) then [] else splitArgs_loop input "" false [] 0.

(* what the run takes from outside: Math.random, Date.now, toLocaleString *)
Record Env := {
  env_hash : string;
  env_now : Z;
  env_fmtDate : Z -> string
}.

Definition returned (x : Repo * Result) (ctx : option RemoteStore)
    : Repo * option RemoteStore * Outcome :=
  (fst x, ctx, Returned (snd x)).

Definition with_store (x : Repo * Outcome) (ctx : option RemoteStore)
    : Repo * option RemoteStore * Outcome :=
  (fst x, ctx, snd x).

Definition runGit (line : string) (ctx : option RemoteStore) (env : Env) (r : Repo)
    : Repo * option RemoteStore * Outcome :=
  let args := splitArgs line in
  match nth_truthy 1 args with
  | None =>
      (r, ctx, Returned (failure []
                 ["usage: git <command> [<args>]";
                  "Try: git init, git status, git add, git commit, git log"]))
  | Some sub =>
      let rest := skipn 2 args in
      if String.eqb sub "init" then returned (gitInit r) ctx
      else if String.eqb sub "status" then returned (gitStatus r) ctx
      else if String.eqb sub "add" then returned (gitAdd rest r) ctx
      else if String.eqb sub "commit"
      then returned (gitCommit rest (env_hash env) (env_now env) r) ctx
      else if String.eqb sub "log" then returned (gitLog rest (env_fmtDate env) r) ctx
      else if String.eqb sub "branch" then returned (gitBranch rest r) ctx
      else if String.eqb sub "checkout" then returned (gitCheckout rest r) ctx
      else if String.eqb sub "merge"
      then returned (gitMerge rest (env_hash env) (env_now env) r) ctx
      else if String.eqb sub "remote" then gitRemote rest ctx r
      else if String.eqb sub "push" then gitPush rest ctx r
      else if String.eqb sub "pull"
      then with_store (gitPull rest ctx (env_hash env) (env_now env) r) ctx
      else if String.eqb sub "clone" then gitClone rest ctx r
      else if String.eqb sub "stash" then returned (gitStash rest (env_now env) r) ctx
      else if String.eqb sub "reset" then returned (gitReset rest r) ctx
      else if String.eqb sub "revert"
      then returned (gitRevert rest (env_hash env) (env_now env) r) ctx
      else (r, ctx, Returned (failure []
                      ["git: '" ++ sub ++ "' is not implemented in this tutorial."]))
  end.

(** ** Shell commands *)

(* right.replace(/^"+|"+$/g, "") *)
Fixpoint strip_leading_quotes (s : string) : string :=
  match s with
  | EmptyString => EmptyString
  | String c t => if Ascii.eqb c dq_char then strip_leading_quotes t else s
  end.

Fixpoint strip_trailing_quotes (s : string) : string :=
  match s with
  | EmptyString => EmptyString
  | String c t =>
      match strip_trailing_quotes t with
      | EmptyString => if Ascii.eqb c dq_char then EmptyString else String c EmptyString
      | t' => String c t'
      end
  end.

(* s.slice(n) *)
Definition slice_from (n : nat) (s : string) : string :=
  substring n (String.length s - n) s.

(* the text and the file argument of [echo text > file], or null *)
Definition parseEchoRedirection (line : string) : option (string * string) :=
  let trimmed := trim line in
  if negb (startsWith trimmed "echo ") then None
  else
    match index 0 ">" trimmed with
    | None => None
    | Some idx =>
        let left := trim (substring 0 idx trimmed) in
        let right := trim (slice_from (idx + 1) trimmed) in
        let fileArg := strip_trailing_quotes (strip_leading_quotes right) in
        let leftTokens := splitArgs left in
        (* leftTokens[0] === "echo" *)
        let text := String.concat " " (tl leftTokens) in
        Some (text, fileArg)
    end.

(* text.replaceAll("\\n", "\n"): a backslash followed by n becomes a newline *)
Fixpoint unescape_newlines (s : string) : string :=
  match s with
  | String c1 (String c2 t as rest) =>
      if (Ascii.eqb c1 backslash && Ascii.eqb c2 "n"%char)%bool
      then String (ascii_of_nat 10) (unescape_newlines t)
      else String c1 (unescape_newlines rest)
  | _ => s
  end.

(* set.add(x) *)
Definition set_add (x : string) (l : list string) : list string :=
  if mem x l then l else (l ++ [x])%list.

Definition listDir_dirs (dir : string) (outDirs : list string) (d : string)
    : list string :=
  if (negb (String.eqb d dir) && String.eqb (dirname d) dir)%bool
  then set_add (basename d ++ "/") outDirs
  else outDirs.

Definition listDir_files (dir : string) (acc : list string * list string)
    (filePath : string) : list string * list string :=
  let '(outDirs, outFiles) := acc in
  let parent := dirname filePath in
  let outFiles1 := if String.eqb parent dir then set_add (basename filePath) outFiles
                   else outFiles in
  if (startsWith parent dir && negb (String.eqb parent dir))%bool
  then
    (* surface a directory name when files exist under it *)
    let rel := slice_from (if String.eqb dir "/" then 1 else String.length dir + 1)
                 parent in
    let top := hd "" (split_slash rel) in
    if nonempty top then (set_add (top ++ "/") outDirs, outFiles1)
    else (outDirs, outFiles1)
  else (outDirs, outFiles1).

Definition listDir (r : Repo) (path : string) : list string :=
  let dir := normalizePath path in
  let outDirs0 := fold_left (listDir_dirs dir) (obj_keys (directories r)) [] in
  let '(outDirs, outFiles) :=
    fold_left (listDir_files dir) (obj_keys (workingFiles r)) (outDirs0, []) in
  (sort outDirs ++ sort outFiles)%list.

Definition isDirectory (r : Repo) (path : string) : bool :=
  let dir := normalizePath path in
  match obj_get (directories r) dir with
  | Some true => true
  | _ =>
      (* implicit directories created by files *)
      let prefix := if String.eqb dir "/" then "/" else dir ++ "/" in
      existsb (fun filePath => startsWith filePath prefix) (obj_keys (workingFiles r))
  end.

Definition shell_failure (code : nat) (err : string) : Result :=
  {| ok := false; exitCode := code; stdout := []; stderr := [err] |}.

Definition runShell (line : string) (r : Repo) : Repo * Result :=
  match parseEchoRedirection line with
  | Some (text, fileArg) =>
      let path := joinPath (cwd r) fileArg in
      let r1 := set_directories (obj_set (directories r) (dirname path) true) r in
      let r2 := set_workingFiles
                  (obj_set (workingFiles r1) path (unescape_newlines text)) r1 in
      (set_lastEvent (Some (fs_write path)) r2, success [])
  | None =>
      let args := splitArgs line in
      match nth_truthy 0 args with
      | None => (r, success [])
      | Some cmd =>
          if String.eqb cmd "pwd" then (r, success [cwd r])
          else if String.eqb cmd "ls" then
            let target := match nth_truthy 1 args with
                          | Some a => joinPath (cwd r) a
                          | None => cwd r
                          end in
            (r, success [String.concat "  " (listDir r target)])
          else if String.eqb cmd "cd" then
            let next := match nth_truthy 1 args with
                        | Some a => joinPath (cwd r) a
                        | None => "/"
                        end in
            (* allow cd into any known directory, or into one that contains files *)
            if negb (isDirectory r next)
            then (r, shell_failure 1 ("cd: no such directory: " ++ next))
            else (set_cwd next r, success [])
          else if String.eqb cmd "mkdir" then
            match nth_truthy 1 args with
            | None => (r, shell_failure 1 "mkdir: missing operand")
            | Some name =>
                let path := joinPath (cwd r) name in
                let r1 := set_directories (obj_set (directories r) path true) r in
                (set_lastEvent (Some (fs_mkdir path)) r1, success [])
            end
          else if String.eqb cmd "touch" then
            match nth_truthy 1 args with
            | None => (r, shell_failure 1 "touch: missing file operand")
            | Some name =>
                let path := joinPath (cwd r) name in
                let r1 := set_directories
                            (obj_set (directories r) (dirname path) true) r in
                let r2 := if negb (obj_has (workingFiles r1) path)
                          then set_workingFiles (obj_set (workingFiles r1) path "") r1
                          else r1 in
                (set_lastEvent (Some (fs_touch path)) r2, success [])
            end
          else if String.eqb cmd "rm" then
            match nth_truthy 1 args with
            | None => (r, shell_failure 1 "rm: missing file operand")
            | Some name =>
                let path := joinPath (cwd r) name in
                if negb (obj_has (workingFiles r) path)
                then (r, shell_failure 1
                           ("rm: cannot remove '" ++ name ++ "': No such file"))
                else
                  let r1 := set_workingFiles (obj_delete (workingFiles r) path) r in
                  (set_lastEvent (Some (fs_rm path)) r1, success [])
            end
          else if String.eqb cmd "cat" then
            match nth_truthy 1 args with
            | None => (r, shell_failure 1 "cat: missing file operand")
            | Some name =>
                let path := joinPath (cwd r) name in
                match obj_get (workingFiles r) path with
                | None => (r, shell_failure 1 ("cat: " ++ name ++ ": No such file"))
                | Some content => (r, success [content])
                end
            end
          else (r, shell_failure 127 ("command not found: " ++ cmd))
      end
  end.

(* the components of a normalized path: named, without separators *)
Fixpoint has_char (c : ascii) (s : string) : bool :=
  match s with
  | EmptyString => false
  | String d t => (Ascii.eqb d c || has_char c t)%bool
  end.

Definition component (w : string) : Prop :=
  w <> "" /\ w <> "." /\ w <> ".." /\
  has_char slash w = false /\ has_char backslash w = false.

(* the stack [normalizePath] joins *)
Definition path_stack (inputPath : string) : list string :=
  fold_left normalize_step
    (filter nonempty (split_slash (backslashes_to_slashes inputPath))) [].

(** ** The teammate of the pull lesson *)

Definition teammate_note : string :=
  nl ++ "## Teammate update" ++ nl ++ "Pulled from origin." ++ nl.

Definition default_readme : string := "# Acme Widgets" ++ nl.

(* adds a commit to main of the remote behind origin; the new store, or None
   when the call throws *)
Definition simulateTeammateCommitToOriginMain (store : RemoteStore) (newHash : string)
    (now : Z) (repo : Repo) : option RemoteStore :=
  match obj_get (remotes repo) "origin" with
  | None => Some store
  | Some origin =>
      match ensureRepo store (url origin) with
      | None => None
      | Some (store1, key) =>
          match obj_get (byUrl store1) key with
          | None => None   (* a member of Object.prototype has no branches *)
          | Some remoteRepo =>
          (* undefined, null or a hash *)
          let headHash := obj_get (remote_branches remoteRepo) "main" in
          let headKey := match headHash with
                         | Some h => js_key h
                         | None => "undefined"
                         end in
          let headCommit := obj_get (remote_commits remoteRepo) headKey in
          let baseFiles0 := match headCommit with
                            | Some c => deepCopy (files c)
                            | None => []
                            end in
          let readme := match obj_get baseFiles0 "/README.md" with
                        | Some s => if nonempty s then s else default_readme
                        | None => default_readme
                        end in
          let baseFiles := obj_set baseFiles0 "/README.md" (readme ++ teammate_note) in
          (* create commit directly in remote repo *)
          let c := {| hash := newHash;
                      message := "Teammate: update README";
                      parents := opt_list (match headHash with
                                           | Some h => h
                                           | None => None
                                           end);
                      timestamp := now;
                      files := baseFiles;
                      lane := 0;
                      branch := "main" |} in
          Some {| byUrl :=
                    obj_set (byUrl store1) key
                      {| remote_url := remote_url remoteRepo;
                         remote_commits := obj_set (remote_commits remoteRepo) newHash c;
                         remote_commitOrder :=
                           (remote_commitOrder remoteRepo ++ [newHash])%list;
                         remote_branches :=
                           obj_set (remote_branches remoteRepo) "main" (Some newHash) |} |}
          end
      end
  end.

(** ** Persistence of a repository *)

(* the plain object serialize() returns and deserialize() reads; a field is
   None when it is missing or has the wrong type *)
Record Serialized := {
  s_initialized : option bool;
  s_cwd : option string;
  s_directories : option (obj bool);
  s_workingFiles : option (obj string);
  s_stagedFiles : option (obj (option string));
  s_commits : option (obj Commit);
  s_commitOrder : option (list string);
  s_branches : option (obj (option string));
  s_currentBranch : option string;
  s_branchMeta : option (obj BranchMeta);
  s_nextLane : option nat;
  s_mergeState : option MergeState;
  s_remotes : option (obj Remote);
  s_upstreams : option (obj Upstream);
  s_stash : option (list StashEntry)
}.

Definition serialize (r : Repo) : Serialized :=
  deepCopy
    {| s_initialized := Some (initialized r);
       s_cwd := Some (cwd r);
       s_directories := Some (directories r);
       s_workingFiles := Some (workingFiles r);
       s_stagedFiles := Some (stagedFiles r);
       s_commits := Some (commits r);
       s_commitOrder := Some (commitOrder r);
       s_branches := Some (branches r);
       s_currentBranch := Some (currentBranch r);
       s_branchMeta := Some (branchMeta r);
       s_nextLane := Some (nextLane r);
       s_mergeState := mergeState r;
       s_remotes := Some (remotes r);
       s_upstreams := Some (upstreams r);
       s_stash := Some (stash r) |}.

Definition empty_serialized : Serialized :=
  {| s_initialized := None; s_cwd := None; s_directories := None;
     s_workingFiles := None; s_stagedFiles := None; s_commits := None;
     s_commitOrder := None; s_branches := None; s_currentBranch := None;
     s_branchMeta := None; s_nextLane := None; s_mergeState := None;
     s_remotes := None; s_upstreams := None; s_stash := None |}.

Definition default {A : Type} (a : option A) (d : A) : A :=
  match a with Some x => x | None => d end.

Definition is_true_at (ds : obj bool) (k : string) : bool :=
  match obj_get ds k with Some b => b | None => false end.

Definition deserialize (o : option Serialized) : Repo :=
  let safe := default o empty_serialized in
  let repo :=
    {| initialized := default (s_initialized safe) false;
       cwd := default (s_cwd safe) "/";
       directories := default (s_directories safe) [("/", true)];
       workingFiles := default (s_workingFiles safe) [];
       stagedFiles := default (s_stagedFiles safe) [];
       commits := default (s_commits safe) [];
       commitOrder := default (s_commitOrder safe) [];
       branches := default (s_branches safe) [("main", None)];
       currentBranch := default (s_currentBranch safe) "main";
       branchMeta := default (s_branchMeta safe) [];
       nextLane := default (s_nextLane safe) 1;
       mergeState := s_mergeState safe;
       remotes := default (s_remotes safe) [];
       upstreams := default (s_upstreams safe) [];
       stash := default (s_stash safe) [];
       lastEvent := None |} in
  (* ensure required defaults exist even if loaded from older state *)
  let repo1 :=
    if negb (truthy (branch_or_null repo "main"))
    then set_branches (obj_set (branches repo) "main" (branch_or_null repo "main")) repo
    else repo in
  let repo2 :=
    if negb (obj_has (branchMeta repo1) "main")
    then set_branchMeta (obj_set (branchMeta repo1) "main" main_meta) (nextLane repo1) repo1
    else repo1 in
  let repo3 :=
    if negb (is_true_at (directories repo2) "/")
    then set_directories (obj_set (directories repo2) "/" true) repo2
    else repo2 in
  if negb (match js_read (branches repo3) (currentBranch repo3) with
           | own h => truthy h
           | proto => true
           | undef => false
           end)
  then set_currentBranch
         (or_else (nth_truthy 0 (obj_keys (branches repo3))) "main") repo3
  else repo3.

(** ** Example repositories

    The states the lessons of the script set up (their [setup] functions
    assign to [workingFiles] and call the commands), with fixed hashes. *)

(* repo.workingFiles[path] = text *)
Definition write_file (p text : string) (r : Repo) : Repo :=
  set_workingFiles (obj_set (workingFiles r) p text) r.

Definition h1 : string := "1a1a1a1a1a1a".
Definition h2 : string := "2b2b2b2b2b2b".
Definition h3 : string := "3c3c3c3c3c3c".
Definition h4 : string := "4d4d4d4d4d4d".

(* lesson 2: reset, git init *)
Definition lesson2 : Repo := fst (gitInit reset).

(* lesson 3: one commit with a README *)
Definition lesson3 : Repo :=
  let r1 := write_file "/README.md" ("# Branching Demo" ++ nl) lesson2 in
  let r2 := fst (gitAdd ["README.md"] r1) in
  fst (gitCommit ["-m"; "Initial commit"] h1 0 r2).

(* lesson 4: main and feature/theme changed config.txt differently *)
Definition lesson4 : Repo :=
  let r1 := write_file "/config.txt" ("color=blue" ++ nl) lesson2 in
  let r2 := fst (gitAdd ["config.txt"] r1) in
  let r3 := fst (gitCommit ["-m"; "Add config"] h1 0 r2) in
  let r4 := fst (gitCheckout ["-b"; "feature/theme"] r3) in
  let r5 := write_file "/config.txt" ("color=green" ++ nl) r4 in
  let r6 := fst (gitAdd ["config.txt"] r5) in
  let r7 := fst (gitCommit ["-m"; "Theme: green"] h2 1 r6) in
  let r8 := fst (gitCheckout ["main"] r7) in
  let r9 := write_file "/config.txt" ("color=red" ++ nl) r8 in
  let r10 := fst (gitAdd ["config.txt"] r9) in
  fst (gitCommit ["-m"; "Theme: red"] h3 2 r10).

Definition env0 : Env :=
  {| env_hash := h4; env_now := 3; env_fmtDate := fun _ => "" |}.

Definition empty_store : RemoteStore := {| byUrl := [] |}.

(** ** Vocabulary of the statements and further example repositories *)

Definition lesson3_root : Commit :=
  {| hash := h1; message := "Initial commit"; parents := []; timestamp := 0;
     files := [("/README.md", "# Branching Demo" ++ nl)]; lane := 0;
     branch := "main" |}.

Definition stashed_notes : StashEntry :=
  {| stash_message := "WIP on main: " ++ shortHash (Some h1) ++ " (simulated)";
     stash_workingFiles := [("/README.md", "# Branching Demo" ++ nl); ("/NOTES.md", "WIP")];
     stash_stagedFiles := []; createdAt := 5 |}.

(* lesson 3 after writing NOTES.md and git stash *)
Definition lesson3_stashed : Repo :=
  fst (gitStash [] 5 (write_file "/NOTES.md" "WIP" lesson3)).

(* the overlay of an index on a snapshot, path by path *)
Definition overlay (snap : obj string) (index : obj (option string)) (p : string)
    : option string :=
  match obj_get index p with
  | Some (Some content) => Some content
  | Some None => None
  | None => obj_get snap p
  end.

(* the parents a new commit gets: HEAD if any, then the merged head if any *)
Definition commit_parents (r : Repo) : list string :=
  (opt_list (head r)
     ++ match mergeState r with
        | Some ms => opt_list (Some (theirHash ms))
        | None => []
        end)%list.

Definition not_a_repository : Result :=
  {| ok := false; exitCode := 1; stdout := [];
     stderr := ["fatal: not a git repository (simulated)"] |}.

(* the subcommands that start with ensureInitialized *)
Definition guarded_subcommands : list string :=
  ["status"; "add"; "commit"; "log"; "branch"; "checkout"; "merge"; "remote";
   "push"; "pull"; "stash"; "reset"; "revert"].

Definition seed_url : string := "https://example.com/acme/widgets.git".

(* lesson 2 after creating a.txt *)
Definition lesson2_with_file : Repo := write_file "/a.txt" "A" lesson2.

(* git init, git checkout -b feat: the current branch is unborn *)
Definition unborn_feat : Repo := fst (gitCheckout ["-b"; "feat"] lesson2).



Definition paths_of (l : list StatusEntry) : list string := map path l.

(* the test of getStatus that sends a path to the untracked list *)
Definition counts_untracked (r : Repo) (p : string) : bool :=
  (negb (mem p (set_of (merge_conflicts r)))
   && (negb (obj_has (getHeadSnapshot r) p) && obj_has (workingFiles r) p))%bool.

(* lesson 3, README rewritten, staged, and rewritten again *)
Definition lesson3_restaged : Repo :=
  let r1 := write_file "/README.md" "two" lesson3 in
  let r2 := fst (gitAdd ["README.md"] r1) in
  write_file "/README.md" "three" r2.

(* what the three-way loop leaves at a path, from its three versions *)
Definition merge_result (b o t : option string) (tb : string) : option string :=
  if opt_eqb o t then o
  else if opt_eqb o b then t
  else if opt_eqb t b then o
  else Some (conflict_buffer o t tb).

Definition is_conflict (b o t : option string) : bool :=
  (negb (opt_eqb o t) && negb (opt_eqb o b) && negb (opt_eqb t b))%bool.

Definition text_of (o : option string) : string := or_else o "".

(* h' is h or one of its ancestors in the commit graph *)
Inductive reachable (r : Repo) : string -> string -> Prop :=
| reachable_refl (h : string) : reachable r h h
| reachable_parent (h p h' : string) (c : Commit) :
    obj_get (commits r) h = Some c ->
    In p (parents c) ->
    reachable r p h' ->
    reachable r h h'.

(* every commit is listed in commitOrder: commit, pull and clone add to or
   copy both together *)
Definition order_lists_commits (cs : obj Commit) (order : list string) : Prop :=
  forall h, obj_has cs h = true -> In h order.

(* lesson 3 after git remote add origin <url>, and the store it leaves *)
Definition lesson3_with_remote : Repo :=
  fst (fst (gitRemote ["add"; "origin"; seed_url] (Some empty_store) lesson3)).

Definition store_with_origin : RemoteStore :=
  {| byUrl := [(seed_url, createEmptyRemote seed_url)] |}.

Definition pushed_remote : RemoteRepo :=
  {| remote_url := seed_url;
     remote_commits := [(h1, lesson3_root)];
     remote_commitOrder := [h1];
     remote_branches := [("main", Some h1)] |}.

(* the parents that are still to be pushed: those of the commits not seen *)
Fixpoint unseen_parents (cs : obj Commit) (seenb : string -> bool) : nat :=
  match cs with
  | [] => 0
  | (k, c) :: t =>
      if seenb k then unseen_parents t seenb
      else List.length (parents c) + unseen_parents t seenb
  end.

Fixpoint unseen_commits (cs : obj Commit) (seen : list string) : nat :=
  match cs with
  | [] => 0
  | (k, _) :: t => if mem k seen then unseen_commits t seen else S (unseen_commits t seen)
  end.

(* hashes are never empty, so no parent is the empty string *)
Definition no_empty_parent (r : Repo) : Prop :=
  forall h c, obj_get (commits r) h = Some c -> ~ In "" (parents c).

Definition repo_ok (r : Repo) : Prop :=
  order_lists_commits (commits r) (commitOrder r).

Definition store_ok (store : RemoteStore) : Prop :=
  forall u rr, obj_get (byUrl store) u = Some rr ->
               order_lists_commits (remote_commits rr) (remote_commitOrder rr).

Definition ctx_ok (ctx : option RemoteStore) : Prop :=
  match ctx with Some store => store_ok store | None => True end.

Definition returns (o : Outcome) : Prop :=
  match o with Returned _ => True | Threw _ => False end.

Definition same_graph (r r' : Repo) : Prop :=
  commits r' = commits r /\ commitOrder r' = commitOrder r.

(* two branches that changed different files: F on feat, G on main *)
Definition diverged_clean : Repo :=
  let r1 := write_file "/F" "1" lesson2 in
  let r2 := fst (gitAdd ["F"] r1) in
  let r3 := fst (gitCommit ["-m"; "base"] h1 0 r2) in
  let r4 := fst (gitCheckout ["-b"; "feat"] r3) in
  let r5 := write_file "/F" "2" r4 in
  let r6 := fst (gitAdd ["F"] r5) in
  let r7 := fst (gitCommit ["-m"; "F is 2"] h2 1 r6) in
  let r8 := fst (gitCheckout ["main"] r7) in
  let r9 := write_file "/G" "3" r8 in
  let r10 := fst (gitAdd ["G"] r9) in
  fst (gitCommit ["-m"; "add G"] h3 2 r10).

(* r' keeps every commit of r, the one stored under the fresh hash apart,
   and lists the commits of r first, in their order *)
Definition history_kept (fresh : string) (r r' : Repo) : Prop :=
  (forall h c, h <> fresh -> obj_get (commits r) h = Some c ->
               obj_get (commits r') h = Some c) /\
  (exists l, commitOrder r' = (commitOrder r ++ l)%list).

(* the invariants of the two loops of findCommonAncestor: the parents of a
   visited commit are visited or wait in the queue, and a visited commit
   that has a distance has set [best] *)
Definition dist_closed (r : Repo) (st : obj nat * list (string * nat)) : Prop :=
  forall x c p, obj_has (fst st) x = true -> obj_get (commits r) x = Some c ->
                In p (parents c) ->
                obj_has (fst st) p = true \/ exists d, In (p, d) (snd st).

Definition dist_covers (st : obj nat * list (string * nat)) (x : string) : Prop :=
  obj_has (fst st) x = true \/ ((exists d, In (x, d) (snd st)) /\ x <> "").

Definition best_inv (r : Repo) (dist : obj nat) (st : BestAcc) : Prop :=
  (bestD st <> None -> best st <> None) /\
  (forall x, In x (seen2 st) -> obj_has dist x = true -> best st <> None) /\
  (forall x c p, In x (seen2 st) -> obj_get (commits r) x = Some c ->
                 In p (parents c) ->
                 In p (seen2 st) \/ exists d, In (p, d) (queue2 st)).

Definition best_covers (st : BestAcc) (x : string) : Prop :=
  In x (seen2 st) \/ ((exists d, In (x, d) (queue2 st)) /\ x <> "").

(* the repository after the fetch loop of gitPull *)
Definition pull_fetch (r : Repo) (rr : RemoteRepo) : Repo :=
  let '(cs, order) :=
    fold_left (pull_step (remote_commits rr)) (remote_commitOrder rr)
      (commits r, commitOrder r) in
  set_commitOrder order (set_commits cs r).

(* the remote of lesson 3 after a push, behind the origin of lesson3_with_remote *)
Definition store_pushed : RemoteStore := {| byUrl := [(seed_url, pushed_remote)] |}.



(** * Properties *)

(** ** Lookups in objects *)

Section ObjFacts.
Context {V : Type}.
Implicit Types (o : obj V) (k : string) (v : V).

Lemma obj_get_set_eq o k v : obj_get (obj_set o k v) k = Some v.
Proof.
  induction o as [|[k' v'] t IH]; simpl.
  - now rewrite String.eqb_refl.
  - destruct (String.eqb k' k) eqn:E; simpl; rewrite E; auto.
Qed.

Lemma obj_get_set_neq o k k' v :
  k <> k' -> obj_get (obj_set o k v) k' = obj_get o k'.
Proof.
  intros Hne. induction o as [|[k0 v0] t IH]; simpl.
  - apply String.eqb_neq in Hne. now rewrite Hne.
  - destruct (String.eqb k0 k) eqn:E; simpl.
    + apply String.eqb_eq in E. subst k0.
      apply String.eqb_neq in Hne. now rewrite Hne.
    + now rewrite IH.
Qed.

Lemma obj_get_delete_eq o k : obj_get (obj_delete o k) k = None.
Proof.
  induction o as [|[k' v'] t IH]; simpl; auto.
  destruct (String.eqb k' k) eqn:E; simpl; auto. now rewrite E.
Qed.

Lemma obj_get_delete_neq o k k' :
  k <> k' -> obj_get (obj_delete o k) k' = obj_get o k'.
Proof.
  intros Hne. induction o as [|[k0 v0] t IH]; simpl; auto.
  destruct (String.eqb k0 k) eqn:E; simpl.
  - apply String.eqb_eq in E. subst k0.
    apply String.eqb_neq in Hne. now rewrite Hne.
  - now rewrite IH.
Qed.

Lemma obj_set_same o k v : obj_get o k = Some v -> obj_set o k v = o.
Proof.
  induction o as [|[k' v'] t IH]; simpl; [discriminate|].
  destruct (String.eqb k' k) eqn:E; intros H.
  - now inversion H.
  - now rewrite IH.
Qed.

Lemma obj_has_In o k : obj_has o k = true <-> In k (obj_keys o).
Proof.
  unfold obj_has. induction o as [|[k' v'] t IH]; simpl.
  - split; [discriminate | tauto].
  - destruct (String.eqb k' k) eqn:E.
    + apply String.eqb_eq in E. tauto.
    + apply String.eqb_neq in E. rewrite IH. split; [tauto|].
      intros [H|H]; [contradiction | exact H].
Qed.

Lemma obj_has_set o k k' v :
  obj_has (obj_set o k v) k' = (String.eqb k k' || obj_has o k')%bool.
Proof.
  unfold obj_has. destruct (String.eqb k k') eqn:E.
  - apply String.eqb_eq in E. subst. now rewrite obj_get_set_eq.
  - apply String.eqb_neq in E. now rewrite obj_get_set_neq.
Qed.

Lemma obj_keys_set_incl o k v k' :
  In k' (obj_keys (obj_set o k v)) <-> k' = k \/ In k' (obj_keys o).
Proof.
  rewrite <- !obj_has_In, obj_has_set.
  rewrite Bool.orb_true_iff, String.eqb_eq. intuition.
Qed.

Lemma obj_keys_delete o k k' :
  In k' (obj_keys (obj_delete o k)) <-> k' <> k /\ In k' (obj_keys o).
Proof.
  rewrite <- !obj_has_In. unfold obj_has.
  destruct (String.string_dec k k') as [->|Hne].
  - rewrite obj_get_delete_eq. split; [discriminate | tauto].
  - rewrite obj_get_delete_neq by assumption. intuition.
Qed.

Lemma NoDup_obj_set o k v : NoDup (obj_keys o) -> NoDup (obj_keys (obj_set o k v)).
Proof.
  induction o as [|[k' v'] t IH]; simpl; intros H.
  - constructor; [tauto | constructor].
  - inversion H as [|? ? Hn Hd]; subst.
    destruct (String.eqb k' k) eqn:E; simpl.
    + constructor; assumption.
    + constructor; [|auto].
      fold (obj_keys (obj_set t k v)). rewrite obj_keys_set_incl.
      apply String.eqb_neq in E. intros [->|Hin]; [now apply E | now apply Hn].
Qed.

Lemma NoDup_obj_delete o k : NoDup (obj_keys o) -> NoDup (obj_keys (obj_delete o k)).
Proof.
  induction o as [|[k' v'] t IH]; simpl; intros H; [constructor|].
  inversion H as [|? ? Hn Hd]; subst.
  destruct (String.eqb k' k) eqn:E; simpl; auto.
  constructor; [|auto].
  fold (obj_keys (obj_delete t k)). rewrite obj_keys_delete. tauto.
Qed.
End ObjFacts.

Lemma truthy_Some (s : string) : s <> "" -> truthy (Some s) = true.
Proof.
  intros H. unfold truthy, nonempty. apply String.eqb_neq in H. now rewrite H.
Qed.

Lemma opt_list_Some (s : string) : s <> "" -> opt_list (Some s) = [s].
Proof. intros H. unfold opt_list. now rewrite truthy_Some. Qed.

Lemma opt_eqb_eq (a b : option string) : opt_eqb a b = true <-> a = b.
Proof.
  destruct a, b; simpl; try (split; congruence).
  rewrite String.eqb_eq. split; congruence.
Qed.

Lemma head_set_head (h : option string) (r : Repo) : head (set_head h r) = h.
Proof. unfold head, set_head. simpl. now rewrite obj_get_set_eq. Qed.

Lemma ensureInitialized_ok (r : Repo) :
  initialized r = true -> ok (ensureInitialized r) = true.
Proof. intros H. unfold ensureInitialized. now rewrite H. Qed.

(** ** reset --hard *)

(** C10. On a repository whose HEAD commit has no parents,
    [git reset --hard HEAD~1] succeeds with exit code 0: the current branch
    head becomes null (the branch is unborn again), the working tree is the
    empty snapshot, the index and the merge state are cleared, and the root
    commit stays in [commits] and [commitOrder]. *)
Theorem gitReset_hard_before_root (r : Repo) (h : string) (c : Commit) :
  initialized r = true ->
  head r = Some h ->
  obj_get (commits r) h = Some c ->
  parents c = [] ->
  let r' := fst (gitReset ["--hard"; "HEAD~1"] r) in
  let res := snd (gitReset ["--hard"; "HEAD~1"] r) in
  ok res = true /\ exitCode res = 0 /\
  obj_get (branches r') (currentBranch r') = Some None /\
  head r' = None /\
  workingFiles r' = [] /\
  stagedFiles r' = [] /\
  mergeState r' = None /\
  commits r' = commits r /\
  commitOrder r' = commitOrder r /\
  obj_get (commits r') h = Some c.
Proof.
  intros Hinit Hhead Hc Hp.
  unfold gitReset. rewrite (ensureInitialized_ok r Hinit).
  cbn [negb]. cbv beta iota.
  change (match ["--hard"; "HEAD~1"] with a0 :: _ => String.eqb a0 "--hard" | [] => false end)
    with true.
  cbn [negb].
  change (or_else (nth_truthy 1 ["--hard"; "HEAD~1"]) "HEAD") with "HEAD~1".
  change (String.eqb "HEAD~1" "HEAD") with false.
  change (String.eqb "HEAD~1" "HEAD~1") with true.
  cbv iota. rewrite Hhead. cbn [js_key]. rewrite Hc, Hp.
  cbn [first_or_null fst snd].
  repeat split; try reflexivity.
  - cbn. now rewrite obj_get_set_eq.
  - cbn. unfold head. cbn. now rewrite obj_get_set_eq.
  - cbn. unfold getHeadSnapshot, head. cbn. now rewrite obj_get_set_eq.
  - cbn. exact Hc.
Qed.

Lemma gitReset_hard_before_root_witness :
  (initialized lesson3 = true /\ head lesson3 = Some h1 /\
   obj_get (commits lesson3) h1 = Some lesson3_root /\ parents lesson3_root = []) /\
  let r' := fst (gitReset ["--hard"; "HEAD~1"] lesson3) in
  head r' = None /\ workingFiles r' = [] /\ commitOrder r' = commitOrder lesson3.
Proof.
  assert (H1 : initialized lesson3 = true) by (vm_compute; reflexivity).
  assert (H2 : head lesson3 = Some h1) by (vm_compute; reflexivity).
  assert (H3 : obj_get (commits lesson3) h1 = Some lesson3_root)
    by (vm_compute; reflexivity).
  assert (H4 : parents lesson3_root = []) by reflexivity.
  pose proof (gitReset_hard_before_root lesson3 h1 lesson3_root H1 H2 H3 H4) as H.
  cbv zeta in H.
  destruct H as (_ & _ & _ & Ha & Hb & _ & _ & _ & Hc & _).
  split; [repeat split; assumption|].
  cbv zeta. split; [exact Ha | split; [exact Hb | exact Hc]].
Defined.

(** ** stash pop *)

(** C9. In an initialized repository [git stash pop] fails, with exit code 1
    and the state unchanged, exactly when the stash is empty; otherwise,
    whatever the working tree and the index hold, it replaces them with
    those of the newest stash entry, removes that entry, and sets the merge
    state to null. *)
Theorem gitStash_pop_spec (r : Repo) (args : list string) (now : Z) :
  initialized r = true ->
  hd_error args = Some "pop" ->
  let r' := fst (gitStash args now r) in
  let res := snd (gitStash args now r) in
  (ok res = false <-> stash r = []) /\
  (exitCode res = 1 <-> stash r = []) /\
  (stash r = [] -> r' = r) /\
  (forall entry rest, stash r = entry :: rest ->
     ok res = true /\ exitCode res = 0 /\
     workingFiles r' = stash_workingFiles entry /\
     stagedFiles r' = stash_stagedFiles entry /\
     stash r' = rest /\
     mergeState r' = None /\
     commits r' = commits r /\ branches r' = branches r /\
     currentBranch r' = currentBranch r).
Proof.
  intros Hinit Hpop.
  destruct args as [|a0 args']; [discriminate|].
  simpl in Hpop. injection Hpop as ->.
  unfold gitStash. rewrite (ensureInitialized_ok r Hinit).
  cbn [negb]. rewrite String.eqb_refl.
  destruct (stash r) as [|e rest] eqn:Hs; cbn.
  - repeat split; auto; try discriminate.
  - repeat split; try discriminate; intros; try congruence.
    all: match goal with H : _ :: _ = _ :: _ |- _ => injection H as <- <- end.
    all: reflexivity.
Qed.

Lemma gitStash_pop_spec_witness :
  (initialized lesson3_stashed = true /\ hd_error ["pop"] = Some "pop") /\
  let r' := fst (gitStash ["pop"] 6 lesson3_stashed) in
  stash lesson3_stashed = [stashed_notes] /\
  workingFiles r' = stash_workingFiles stashed_notes /\ stash r' = [].
Proof.
  assert (H1 : initialized lesson3_stashed = true) by (vm_compute; reflexivity).
  assert (H2 : hd_error ["pop"] = Some "pop") by reflexivity.
  assert (H3 : stash lesson3_stashed = [stashed_notes]) by (vm_compute; reflexivity).
  pose proof (gitStash_pop_spec lesson3_stashed ["pop"] 6 H1 H2) as H.
  cbv zeta in H. destruct H as (_ & _ & _ & H).
  destruct (H stashed_notes [] H3) as (_ & _ & Ha & _ & Hb & _).
  split; [split; assumption|].
  cbv zeta. split; [exact H3 | split; [exact Ha | exact Hb]].
Defined.

(** ** commit *)



Lemma obj_get_notin {V : Type} (o : obj V) (k : string) :
  ~ In k (obj_keys o) -> obj_get o k = None.
Proof.
  intros H. destruct (obj_get o k) eqn:E; auto.
  exfalso. apply H. apply obj_has_In. unfold obj_has. now rewrite E.
Qed.

Lemma apply_staged_get (index : obj (option string)) :
  NoDup (obj_keys index) ->
  forall (snap : obj string) (p : string),
    obj_get (apply_staged snap index) p = overlay snap index p.
Proof.
  unfold apply_staged, overlay.
  induction index as [|[k v] t IH]; intros Hnd snap p; cbn; auto.
  inversion Hnd as [|? ? Hn Hd]; subst.
  rewrite (IH Hd).
  destruct (String.eqb k p) eqn:E.
  - apply String.eqb_eq in E. subst p.
    rewrite (obj_get_notin t k Hn).
    destruct v; [apply obj_get_set_eq | apply obj_get_delete_eq].
  - apply String.eqb_neq in E.
    destruct (obj_get t p) as [[c|]|]; auto.
    destruct v; [now apply obj_get_set_neq | now apply obj_get_delete_neq].
Qed.

Lemma ensureBranchMeta_fields (b : string) (r : Repo) :
  let r1 := ensureBranchMeta b r in
  initialized r1 = initialized r /\ workingFiles r1 = workingFiles r /\
  stagedFiles r1 = stagedFiles r /\ commits r1 = commits r /\
  commitOrder r1 = commitOrder r /\ branches r1 = branches r /\
  currentBranch r1 = currentBranch r /\ mergeState r1 = mergeState r /\
  stash r1 = stash r /\ remotes r1 = remotes r /\ upstreams r1 = upstreams r.
Proof.
  unfold ensureBranchMeta. destruct (js_defined (branchMeta r) b); cbn; repeat split.
Qed.



(** ** Commands on a repository that is not initialized *)

Lemma ensureInitialized_fails (r : Repo) :
  initialized r = false -> ensureInitialized r = not_a_repository.
Proof. intros H. unfold ensureInitialized. now rewrite H. Qed.

Ltac uninitialized H :=
  rewrite (ensureInitialized_fails _ H); reflexivity.

Section Uninitialized.
Variable r : Repo.
Hypothesis Huninit : initialized r = false.

Lemma gitStatus_uninitialized : gitStatus r = (r, not_a_repository).
Proof. unfold gitStatus. uninitialized Huninit. Qed.

Lemma gitAdd_uninitialized args : gitAdd args r = (r, not_a_repository).
Proof. unfold gitAdd. uninitialized Huninit. Qed.

Lemma gitCommit_uninitialized args h now :
  gitCommit args h now r = (r, not_a_repository).
Proof. unfold gitCommit. uninitialized Huninit. Qed.

Lemma gitLog_uninitialized args fmt : gitLog args fmt r = (r, not_a_repository).
Proof. unfold gitLog. uninitialized Huninit. Qed.

Lemma gitBranch_uninitialized args : gitBranch args r = (r, not_a_repository).
Proof. unfold gitBranch. uninitialized Huninit. Qed.

Lemma gitCheckout_uninitialized args : gitCheckout args r = (r, not_a_repository).
Proof. unfold gitCheckout. uninitialized Huninit. Qed.

Lemma gitMerge_uninitialized args h now :
  gitMerge args h now r = (r, not_a_repository).
Proof. unfold gitMerge. uninitialized Huninit. Qed.

Lemma gitRemote_uninitialized args ctx :
  gitRemote args ctx r = (r, ctx, Returned not_a_repository).
Proof. unfold gitRemote. uninitialized Huninit. Qed.

Lemma gitPush_uninitialized args ctx :
  gitPush args ctx r = (r, ctx, Returned not_a_repository).
Proof. unfold gitPush. uninitialized Huninit. Qed.

Lemma gitPull_uninitialized args ctx h now :
  gitPull args ctx h now r = (r, Returned not_a_repository).
Proof. unfold gitPull. uninitialized Huninit. Qed.

Lemma gitStash_uninitialized args now : gitStash args now r = (r, not_a_repository).
Proof. unfold gitStash. uninitialized Huninit. Qed.

Lemma gitReset_uninitialized args : gitReset args r = (r, not_a_repository).
Proof. unfold gitReset. uninitialized Huninit. Qed.

Lemma gitRevert_uninitialized args h now :
  gitRevert args h now r = (r, not_a_repository).
Proof. unfold gitRevert. uninitialized Huninit. Qed.
End Uninitialized.

Lemma gitInit_initializes (r : Repo) :
  initialized (fst (gitInit r)) = true /\ ok (snd (gitInit r)) = true.
Proof.
  unfold gitInit. cbv zeta. split; [|reflexivity].
  cbn [fst]. repeat match goal with
                    | |- context [if ?b then _ else _] => destruct b
                    end; reflexivity.
Qed.

(** C2 (amended). On a repository with [initialized = false], every git
    subcommand other than [init] and [clone] (status, add, commit, log,
    branch, checkout, merge, remote, push, pull, stash, reset, revert), with
    any arguments, fails with exit code 1 and the error "fatal: not a git
    repository (simulated)", and leaves the repository and the remote store
    unchanged. *)
Theorem runGit_uninitialized (line : string) (ctx : option RemoteStore) (env : Env)
    (r : Repo) (sub : string) :
  initialized r = false ->
  nth_error (splitArgs line) 1 = Some sub ->
  In sub guarded_subcommands ->
  runGit line ctx env r = (r, ctx, Returned not_a_repository) /\
  ok not_a_repository = false /\ exitCode not_a_repository = 1 /\
  stderr not_a_repository = ["fatal: not a git repository (simulated)"].
Proof.
  intros Hinit Hsub Hin. split; [|repeat split].
  unfold runGit, nth_truthy. rewrite Hsub.
  unfold guarded_subcommands in Hin. cbn [In] in Hin.
  repeat (destruct Hin as [<- | Hin];
          [cbn [nonempty String.eqb Ascii.eqb Bool.eqb negb]; unfold returned;
           first [ rewrite gitStatus_uninitialized by assumption
                 | rewrite gitAdd_uninitialized by assumption
                 | rewrite gitCommit_uninitialized by assumption
                 | rewrite gitLog_uninitialized by assumption
                 | rewrite gitBranch_uninitialized by assumption
                 | rewrite gitCheckout_uninitialized by assumption
                 | rewrite gitMerge_uninitialized by assumption
                 | rewrite gitRemote_uninitialized by assumption
                 | rewrite gitPush_uninitialized by assumption
                 | rewrite gitPull_uninitialized by assumption
                 | rewrite gitStash_uninitialized by assumption
                 | rewrite gitReset_uninitialized by assumption
                 | rewrite gitRevert_uninitialized by assumption ];
           reflexivity |]).
  contradiction.
Qed.

Lemma runGit_uninitialized_witness :
  (initialized reset = false /\
   nth_error (splitArgs "git commit -m first") 1 = Some "commit" /\
   In "commit" guarded_subcommands) /\
  runGit "git commit -m first" (Some empty_store) env0 reset
  = (reset, Some empty_store, Returned not_a_repository).
Proof.
  assert (H1 : initialized reset = false) by reflexivity.
  assert (H2 : nth_error (splitArgs "git commit -m first") 1 = Some "commit")
    by (vm_compute; reflexivity).
  assert (H3 : In "commit" guarded_subcommands) by (cbn; tauto).
  split; [repeat split; assumption|].
  exact (proj1 (runGit_uninitialized "git commit -m first" (Some empty_store) env0
                  reset "commit" H1 H2 H3)).
Defined.

(** C2, as stated, fails for [git clone]: it does not call
    [ensureInitialized], and on a new repository it succeeds with exit code
    0 and sets [initialized]. *)
Lemma gitClone_on_uninitialized :
  initialized reset = false /\
  exists r' store',
    runGit ("git clone " ++ seed_url) (Some empty_store) env0 reset
    = (r', Some store',
       Returned (success ["Cloning into 'widgets.git'… (simulated)"; "done."])) /\
    initialized r' = true /\ r' <> reset.
Proof.
  split; [reflexivity|].
  eexists. eexists. split; [vm_compute; reflexivity|].
  split; [reflexivity | discriminate].
Qed.

(** ** A failing add *)

(** C3. The command [git add a.txt missing.txt], where only [a.txt] exists,
    fails with exit code 1 and yet leaves [a.txt] staged: the failure is not
    atomic. *)
Theorem gitAdd_failure_stages_matching_paths :
  let r := lesson2_with_file in
  let out := runGit "git add a.txt missing.txt" (Some empty_store) env0 r in
  stagedFiles r = [] /\
  snd out = Returned (failure [] ["fatal: pathspec 'missing.txt' did not match any files"]) /\
  stagedFiles (fst (fst out)) = [("/a.txt", Some "A")] /\
  fst (fst out) <> r.
Proof.
  cbv zeta. split; [reflexivity|]. split; [vm_compute; reflexivity|].
  split; [vm_compute; reflexivity|].
  intros H. apply (f_equal stagedFiles) in H. vm_compute in H. discriminate.
Qed.

(** The sibling commands test everything before they assign: when they fail,
    the repository is the one they were given. *)

Ltac split_cases :=
  repeat match goal with
         | |- context [match ?x with _ => _ end] => destruct x eqn:?
         end;
  cbn; intros; try discriminate; try reflexivity.

Lemma gitCommit_failure_atomic args h now r :
  ok (snd (gitCommit args h now r)) = false -> fst (gitCommit args h now r) = r.
Proof. unfold gitCommit. cbv zeta. split_cases. Qed.

Lemma gitBranch_failure_atomic args r :
  ok (snd (gitBranch args r)) = false -> fst (gitBranch args r) = r.
Proof. unfold gitBranch. cbv zeta. split_cases. Qed.

Lemma gitCheckout_failure_atomic args r :
  ok (snd (gitCheckout args r)) = false -> fst (gitCheckout args r) = r.
Proof. unfold gitCheckout. cbv zeta. split_cases. Qed.

Lemma gitStash_failure_atomic args now r :
  ok (snd (gitStash args now r)) = false -> fst (gitStash args now r) = r.
Proof. unfold gitStash. cbv zeta. split_cases. Qed.

Lemma gitReset_failure_atomic args r :
  ok (snd (gitReset args r)) = false -> fst (gitReset args r) = r.
Proof. unfold gitReset. cbv zeta. split_cases. Qed.

Lemma gitLog_atomic args fmt r : fst (gitLog args fmt r) = r.
Proof. unfold gitLog. cbv zeta. split_cases. Qed.

Lemma gitStatus_atomic r : fst (gitStatus r) = r.
Proof. unfold gitStatus. cbv zeta. split_cases. Qed.

(** ** Serialize and deserialize *)

(** C4. On the repository reached by [git init] and [git checkout -b feat]
    the current branch is [feat] with a null head, and deserializing its
    serialization gives a repository whose current branch is [main]. *)
Theorem deserialize_serialize_unborn_branch :
  fst (fst (runGit "git checkout -b feat" None env0
              (fst (fst (runGit "git init" None env0 reset))))) = unborn_feat /\
  currentBranch unborn_feat = "feat" /\
  head unborn_feat = None /\
  branches unborn_feat = [("main", None); ("feat", None)] /\
  currentBranch (deserialize (Some (serialize unborn_feat))) = "main" /\
  branches (deserialize (Some (serialize unborn_feat))) = branches unborn_feat.
Proof. repeat split; vm_compute; reflexivity. Qed.

(** X5. Where the current branch has a commit the round trip gives back every
    serialized field ([lastEvent] is not serialized). *)
Lemma deserialize_serialize_born (r : Repo) :
  obj_has (branches r) "main" = true ->
  obj_has (branchMeta r) "main" = true ->
  is_true_at (directories r) "/" = true ->
  truthy (head r) = true ->
  deserialize (Some (serialize r)) = set_lastEvent None r.
Proof.
  intros Hm Hbm Hd Hh. unfold deserialize, serialize, deepCopy, default.
  cbn [s_initialized s_cwd s_directories s_workingFiles s_stagedFiles s_commits
       s_commitOrder s_branches s_currentBranch s_branchMeta s_nextLane
       s_mergeState s_remotes s_upstreams s_stash].
  cbv zeta.
  set (repo := {| initialized := initialized r; cwd := cwd r;
                  directories := directories r; workingFiles := workingFiles r;
                  stagedFiles := stagedFiles r; commits := commits r;
                  commitOrder := commitOrder r; branches := branches r;
                  currentBranch := currentBranch r; branchMeta := branchMeta r;
                  nextLane := nextLane r; mergeState := mergeState r;
                  remotes := remotes r; upstreams := upstreams r; stash := stash r;
                  lastEvent := None |}).
  assert (E1 : (if negb (truthy (branch_or_null repo "main"))
                then set_branches (obj_set (branches repo) "main"
                                     (branch_or_null repo "main")) repo
                else repo) = repo).
  { destruct (negb (truthy (branch_or_null repo "main"))); [|reflexivity].
    unfold branch_or_null. cbn [branches repo].
    unfold obj_has in Hm. destruct (obj_get (branches r) "main") as [v|] eqn:E;
      [|discriminate].
    rewrite (obj_set_same _ _ _ E). reflexivity. }
  rewrite E1.
  assert (E2 : obj_has (branchMeta repo) "main" = true) by exact Hbm.
  rewrite E2. cbn [negb].
  assert (E3 : is_true_at (directories repo) "/" = true) by exact Hd.
  rewrite E3. cbn [negb].
  assert (E4 : match js_read (branches repo) (currentBranch repo) with
               | own h => truthy h
               | proto => true
               | undef => false
               end = true).
  { unfold js_read. cbn [branches currentBranch repo].
    unfold head in Hh.
    destruct (obj_get (branches r) (currentBranch r)); [exact Hh | discriminate]. }
  rewrite E4. reflexivity.
Qed.

(** ** merge: up to date, fast-forward *)

Lemma isAncestor_truthy (r : Repo) (a d : option string) :
  isAncestor r a d = true -> truthy a = true /\ truthy d = true.
Proof.
  unfold isAncestor. destruct a as [a|], d as [d|]; try discriminate.
  cbn [truthy]. destruct (nonempty a), (nonempty d); cbn; try discriminate; auto.
Qed.






(** ** status *)

Lemma mem_In (x : string) (l : list string) : mem x l = true <-> In x l.
Proof.
  unfold mem. rewrite existsb_exists. split.
  - intros (y & Hy & E). apply String.eqb_eq in E. now subst.
  - intros H. exists x. split; [assumption | apply String.eqb_refl].
Qed.

Lemma set_of_acc_In (x : string) (l acc : list string) :
  In x (fold_left (fun a y => if mem y a then a else (a ++ [y])%list) l acc)
  <-> In x acc \/ In x l.
Proof.
  revert acc. induction l as [|y l IH]; intros acc; cbn.
  - tauto.
  - rewrite IH. destruct (mem y acc) eqn:E.
    + apply mem_In in E. split; [tauto|]. intros [H|[->|H]]; auto.
    + rewrite in_app_iff. cbn. tauto.
Qed.

Lemma set_of_In (x : string) (l : list string) : In x (set_of l) <-> In x l.
Proof. unfold set_of. rewrite set_of_acc_In. cbn. tauto. Qed.

Lemma sort_insert_In (x y : string) (l : list string) :
  In x (sort_insert y l) <-> x = y \/ In x l.
Proof.
  induction l as [|z l IH]; cbn.
  - intuition.
  - destruct (String.leb y z); cbn; [intuition|]. rewrite IH. intuition.
Qed.

Lemma sort_In (x : string) (l : list string) : In x (sort l) <-> In x l.
Proof.
  unfold sort. induction l as [|y l IH]; cbn; [tauto|].
  rewrite sort_insert_In, IH. intuition.
Qed.

Lemma listAllPaths_In (r : Repo) (p : string) :
  In p (listAllPaths r)
  <-> In p (obj_keys (workingFiles r)) \/ In p (obj_keys (getHeadSnapshot r))
      \/ In p (obj_keys (stagedFiles r)).
Proof.
  unfold listAllPaths. rewrite sort_In, set_of_In, !in_app_iff. tauto.
Qed.

Lemma status_step_untracked (r : Repo) (a : StatusAcc) (p : string) :
  acc_untracked (status_step r a p)
  = if counts_untracked r p
    then (acc_untracked a ++ [{| path := p; code := "A" |}])%list
    else acc_untracked a.
Proof.
  unfold status_step, counts_untracked.
  destruct (mem p (set_of (merge_conflicts r))); cbn [negb andb]; [reflexivity|].
  destruct (negb (obj_has (getHeadSnapshot r) p) && obj_has (workingFiles r) p)%bool.
  - repeat match goal with
           | |- context [if ?b then _ else _] => destruct b
           end; reflexivity.
  - repeat match goal with
           | |- context [if ?b then _ else _] => destruct b
           end; reflexivity.
Qed.

Lemma status_step_unstaged (r : Repo) (a : StatusAcc) (p : string) :
  acc_unstaged (status_step r a p) = acc_unstaged a
  \/ (counts_untracked r p = false /\
      exists c, acc_unstaged (status_step r a p)
                = (acc_unstaged a ++ [{| path := p; code := c |}])%list).
Proof.
  unfold status_step, counts_untracked.
  destruct (mem p (set_of (merge_conflicts r))); cbn [negb andb]; [now left|].
  destruct (negb (obj_has (getHeadSnapshot r) p) && obj_has (workingFiles r) p)%bool.
  - left.
    repeat match goal with
           | |- context [if ?b then _ else _] => destruct b
           end; reflexivity.
  - repeat match goal with
           | |- context [if ?b then _ else _] => destruct b
           end;
      first [ now left | right; split; [reflexivity | eexists; reflexivity] ].
Qed.

Lemma fold_status_untracked (r : Repo) (p : string) (l : list string) (a : StatusAcc) :
  In p (paths_of (acc_untracked (fold_left (status_step r) l a)))
  <-> In p (paths_of (acc_untracked a)) \/ (In p l /\ counts_untracked r p = true).
Proof.
  revert a. induction l as [|q l IH]; intros a; cbn [fold_left In].
  - tauto.
  - rewrite IH, status_step_untracked.
    destruct (counts_untracked r q) eqn:E.
    + unfold paths_of. rewrite map_app, in_app_iff. cbn.
      split.
      * intros [[H|[<-|[]]]|[H1 H2]]; auto.
      * intros [H|[[<-|H1] H2]]; auto.
    + split.
      * intros [H|[H1 H2]]; auto.
      * intros [H|[[<-|H1] H2]]; auto. congruence.
Qed.

Lemma fold_status_unstaged (r : Repo) (p : string) (l : list string) (a : StatusAcc) :
  In p (paths_of (acc_unstaged (fold_left (status_step r) l a))) ->
  In p (paths_of (acc_unstaged a)) \/ (In p l /\ counts_untracked r p = false).
Proof.
  revert a. induction l as [|q l IH]; intros a; cbn [fold_left In].
  - tauto.
  - intros H. apply IH in H. destruct H as [H|[H1 H2]]; [|auto].
    destruct (status_step_unstaged r a q) as [E | (Hc & c & E)]; rewrite E in H.
    + auto.
    + unfold paths_of in H. rewrite map_app, in_app_iff in H. cbn in H.
      destruct H as [H|[<-|[]]]; auto.
Qed.

(** C1 (amended). For every repository state and every path: the unstaged
    and the untracked sets of git status are disjoint; an untracked path is
    present in the working tree, absent from the HEAD snapshot and not in the
    conflict list of the merge in progress; and every path present in the
    working tree, absent from both the HEAD snapshot and the index, and not
    in the conflict list, is untracked.  (A path can be both staged and
    unstaged.) *)
Theorem getStatus_sets (r : Repo) (p : string) :
  let s := getStatus r in
  ~ (In p (paths_of (unstaged s)) /\ In p (paths_of (untracked s))) /\
  (In p (paths_of (untracked s)) ->
     obj_has (workingFiles r) p = true /\
     obj_has (getHeadSnapshot r) p = false /\
     ~ In p (merge_conflicts r)) /\
  (obj_has (workingFiles r) p = true ->
   obj_has (getHeadSnapshot r) p = false ->
   obj_has (stagedFiles r) p = false ->
   ~ In p (merge_conflicts r) ->
   In p (paths_of (untracked s))).
Proof.
  cbv zeta. unfold getStatus. cbn [unstaged untracked].
  repeat split.
  - intros [Hu Ht].
    apply fold_status_unstaged in Hu. apply fold_status_untracked in Ht.
    cbn in Hu, Ht. destruct Hu as [[]|[_ Hu]], Ht as [[]|[_ Ht]]. congruence.
  - apply fold_status_untracked in H. cbn in H. destruct H as [[]|[_ H]].
    unfold counts_untracked in H.
    apply Bool.andb_true_iff in H. destruct H as [_ H].
    apply Bool.andb_true_iff in H. tauto.
  - apply fold_status_untracked in H. cbn in H. destruct H as [[]|[_ H]].
    unfold counts_untracked in H.
    apply Bool.andb_true_iff in H. destruct H as [_ H].
    apply Bool.andb_true_iff in H. destruct H as [H _].
    now apply Bool.negb_true_iff in H.
  - intros Hin. apply fold_status_untracked in H. cbn in H. destruct H as [[]|[_ H]].
    unfold counts_untracked in H.
    apply Bool.andb_true_iff in H. destruct H as [H _].
    apply Bool.negb_true_iff in H.
    apply set_of_In, mem_In in Hin. congruence.
  - intros Hw Hh _ Hc. apply fold_status_untracked. right. split.
    + apply listAllPaths_In. left. now apply obj_has_In.
    + unfold counts_untracked. rewrite Hw, Hh. cbn.
      rewrite Bool.andb_true_r. apply Bool.negb_true_iff.
      destruct (mem p (set_of (merge_conflicts r))) eqn:E; [|reflexivity].
      exfalso. apply Hc. now apply set_of_In, mem_In.
Qed.

(** C1, as stated, fails: the three sets are not pairwise disjoint.  A file
    staged with one content and changed again in the working tree is both in
    the staged and in the unstaged set. *)
Lemma getStatus_staged_and_unstaged :
  let s := getStatus lesson3_restaged in
  staged s = [{| path := "/README.md"; code := "M" |}] /\
  unstaged s = [{| path := "/README.md"; code := "M" |}] /\
  ~ (forall p, In p (paths_of (staged s)) -> ~ In p (paths_of (unstaged s))).
Proof.
  cbv zeta. split; [vm_compute; reflexivity|]. split; [vm_compute; reflexivity|].
  intros H. apply (H "/README.md"); vm_compute; auto.
Qed.

(** A new file that is staged is still listed as untracked, although it is
    in the index. *)
Example getStatus_staged_new_file :
  let r := fst (gitAdd ["a.txt"] lesson2_with_file) in
  obj_has (stagedFiles r) "/a.txt" = true /\
  paths_of (staged (getStatus r)) = ["/a.txt"] /\
  paths_of (untracked (getStatus r)) = ["/a.txt"].
Proof. cbv zeta. repeat split; vm_compute; reflexivity. Qed.

(** ** merge: three-way *)

Lemma obj_get_put_eq (m : obj string) (p : string) (v : option string) :
  obj_get (put m p v) p = v.
Proof. destruct v; cbn; [apply obj_get_set_eq | apply obj_get_delete_eq]. Qed.

Lemma obj_get_put_neq (m : obj string) (p q : string) (v : option string) :
  p <> q -> obj_get (put m p v) q = obj_get m q.
Proof.
  intros H. destruct v; cbn; [now apply obj_get_set_neq | now apply obj_get_delete_neq].
Qed.

Lemma NoDup_put (m : obj string) (p : string) (v : option string) :
  NoDup (obj_keys m) -> NoDup (obj_keys (put m p v)).
Proof. destruct v; cbn; [apply NoDup_obj_set | apply NoDup_obj_delete]. Qed.

Section ThreeWay.
Variables base oursSnap theirsSnap : obj string.
Variable tb : string.

Let step := merge_step base oursSnap theirsSnap tb.
Let result (q : string) : option string :=
  merge_result (obj_get base q) (obj_get oursSnap q) (obj_get theirsSnap q) tb.
Let conflict (q : string) : bool :=
  is_conflict (obj_get base q) (obj_get oursSnap q) (obj_get theirsSnap q).

Lemma merge_step_fst (m : obj string) (cs : list string) (p : string) :
  exists v, fst (step (m, cs) p) = put m p v /\ v = result p.
Proof.
  unfold step, merge_step, result, merge_result.
  destruct (opt_eqb (obj_get oursSnap p) (obj_get theirsSnap p));
    [eexists; split; reflexivity|].
  destruct (opt_eqb (obj_get oursSnap p) (obj_get base p));
    [eexists; split; reflexivity|].
  destruct (opt_eqb (obj_get theirsSnap p) (obj_get base p));
    [eexists; split; reflexivity|].
  exists (Some (conflict_buffer (obj_get oursSnap p) (obj_get theirsSnap p) tb)).
  split; reflexivity.
Qed.

Lemma merge_step_snd (m : obj string) (cs : list string) (p : string) :
  snd (step (m, cs) p) = if conflict p then (cs ++ [p])%list else cs.
Proof.
  unfold step, merge_step, conflict, is_conflict.
  destruct (opt_eqb (obj_get oursSnap p) (obj_get theirsSnap p)); [reflexivity|].
  destruct (opt_eqb (obj_get oursSnap p) (obj_get base p)); [reflexivity|].
  destruct (opt_eqb (obj_get theirsSnap p) (obj_get base p)); reflexivity.
Qed.

Lemma fold_merge_get (ps : list string) (acc : obj string * list string) (q : string) :
  obj_get (fst (fold_left step ps acc)) q
  = if mem q ps then result q else obj_get (fst acc) q.
Proof.
  revert acc. induction ps as [|p ps IH]; intros [m cs]; [reflexivity|].
  cbn [fold_left]. rewrite IH. cbn [mem existsb].
  fold (mem q ps). destruct (mem q ps); [now rewrite Bool.orb_true_r|].
  rewrite Bool.orb_false_r.
  destruct (merge_step_fst m cs p) as (v & E & Hv).
  destruct (step (m, cs) p) as [m' cs']. cbn [fst] in *. subst m'.
  destruct (String.eqb q p) eqn:Eq.
  - apply String.eqb_eq in Eq. subst q. now rewrite obj_get_put_eq.
  - apply String.eqb_neq in Eq. apply obj_get_put_neq. congruence.
Qed.

Lemma fold_merge_conflicts (ps : list string) (acc : obj string * list string)
    (q : string) :
  In q (snd (fold_left step ps acc))
  <-> In q (snd acc) \/ (In q ps /\ conflict q = true).
Proof.
  revert acc. induction ps as [|p ps IH]; intros [m cs]; cbn [fold_left In].
  - tauto.
  - rewrite IH. pose proof (merge_step_snd m cs p) as E.
    destruct (step (m, cs) p) as [m' cs']. cbn [snd] in *. subst cs'.
    destruct (conflict p) eqn:Ec.
    + rewrite in_app_iff. cbn. split.
      * intros [[H|[<-|[]]]|[H1 H2]]; auto.
      * intros [H|[[<-|H1] H2]]; auto.
    + split.
      * intros [H|[H1 H2]]; auto.
      * intros [H|[[<-|H1] H2]]; auto. congruence.
Qed.

Lemma fold_merge_NoDup (ps : list string) (acc : obj string * list string) :
  NoDup (obj_keys (fst acc)) -> NoDup (obj_keys (fst (fold_left step ps acc))).
Proof.
  revert acc. induction ps as [|p ps IH]; intros [m cs] H; [exact H|].
  cbn [fold_left]. apply IH.
  destruct (merge_step_fst m cs p) as (v & E & _). rewrite E.
  now apply NoDup_put.
Qed.

Lemma three_way_get (q : string) :
  obj_get (fst (three_way base oursSnap theirsSnap tb)) q = result q.
Proof.
  unfold three_way. fold step. rewrite fold_merge_get.
  destruct (mem q (merge_paths base oursSnap theirsSnap)) eqn:E; [reflexivity|].
  assert (Hn : ~ In q (merge_paths base oursSnap theirsSnap)).
  { intros H. apply mem_In in H. congruence. }
  unfold merge_paths in Hn. rewrite set_of_In, !in_app_iff in Hn.
  cbn [fst]. unfold deepCopy, result, merge_result.
  rewrite (obj_get_notin oursSnap q) by tauto.
  rewrite (obj_get_notin theirsSnap q) by tauto.
  reflexivity.
Qed.

Lemma three_way_conflicts (q : string) :
  In q (snd (three_way base oursSnap theirsSnap tb)) <-> conflict q = true.
Proof.
  unfold three_way. fold step. rewrite fold_merge_conflicts. cbn [snd In].
  split; [tauto|]. intros H. right. split; [|exact H].
  unfold merge_paths. rewrite set_of_In, !in_app_iff.
  unfold conflict, is_conflict in H.
  destruct (obj_get oursSnap q) eqn:Eo.
  - right. left. apply obj_has_In. unfold obj_has. now rewrite Eo.
  - destruct (obj_get theirsSnap q) eqn:Et.
    + right. right. apply obj_has_In. unfold obj_has. now rewrite Et.
    + cbn in H. discriminate.
Qed.

Lemma three_way_NoDup :
  NoDup (obj_keys oursSnap) ->
  NoDup (obj_keys (fst (three_way base oursSnap theirsSnap tb))).
Proof. intros H. unfold three_way. fold step. now apply fold_merge_NoDup. Qed.
End ThreeWay.

Lemma fold_stage_get (work : obj string) :
  NoDup (obj_keys work) ->
  forall (st : obj (option string)) (q : string),
    obj_get (fold_left (fun s pc => obj_set s (fst pc) (Some (snd pc))) work st) q
    = match obj_get work q with
      | Some v => Some (Some v)
      | None => obj_get st q
      end.
Proof.
  induction work as [|[k v] t IH]; intros Hnd st q; [reflexivity|].
  inversion Hnd as [|? ? Hn Hd]; subst.
  cbn [fold_left fst snd obj_get]. rewrite (IH Hd).
  destruct (String.eqb k q) eqn:E.
  - apply String.eqb_eq in E. subst q.
    rewrite (obj_get_notin t k Hn). apply obj_get_set_eq.
  - apply String.eqb_neq in E.
    destruct (obj_get t q); [reflexivity | now apply obj_get_set_neq].
Qed.

Lemma fold_stage_deletions_get (work : obj string) (ks : list string)
    (st : obj (option string)) (q : string) :
  obj_get (fold_left (fun s p => if negb (obj_has work p) then obj_set s p None else s)
             ks st) q
  = if (mem q ks && negb (obj_has work q))%bool then Some None else obj_get st q.
Proof.
  revert st. induction ks as [|k ks IH]; intros st; [reflexivity|].
  cbn [fold_left]. rewrite IH. cbn [mem existsb]. fold (mem q ks).
  destruct (mem q ks && negb (obj_has work q))%bool eqn:E.
  - apply Bool.andb_true_iff in E. destruct E as [E1 E2].
    now rewrite E1, E2, Bool.orb_true_r.
  - destruct (String.eqb q k) eqn:Eq.
    + apply String.eqb_eq in Eq. subst k. cbn [orb andb].
      destruct (negb (obj_has work q)); [apply obj_get_set_eq | reflexivity].
    + cbn [orb]. rewrite E. apply String.eqb_neq in Eq.
      destruct (negb (obj_has work k)); [|reflexivity].
      apply obj_get_set_neq. congruence.
Qed.

Lemma NoDup_fold_obj_set {A V : Type} (f : obj V -> A -> obj V) (l : list A) :
  (forall s a, NoDup (obj_keys s) -> NoDup (obj_keys (f s a))) ->
  forall st, NoDup (obj_keys st) -> NoDup (obj_keys (fold_left f l st)).
Proof.
  intros Hf. induction l as [|a l IH]; intros st H; [exact H|].
  cbn. apply IH. now apply Hf.
Qed.

Lemma stage_all_NoDup (work old : obj string) :
  NoDup (obj_keys (stage_all work old [])).
Proof.
  unfold stage_all. apply NoDup_fold_obj_set.
  - intros s a H. destruct (negb (obj_has work a)); [now apply NoDup_obj_set | exact H].
  - apply NoDup_fold_obj_set; [|constructor].
    intros s a H. now apply NoDup_obj_set.
Qed.

(* committing what stage_all staged leaves the working tree as it was *)
Lemma overlay_stage_all (work old : obj string) (q : string) :
  NoDup (obj_keys work) ->
  overlay work (stage_all work old []) q = obj_get work q.
Proof.
  intros Hnd. unfold overlay, stage_all.
  rewrite fold_stage_deletions_get, (fold_stage_get work Hnd).
  unfold obj_has. destruct (obj_get work q) eqn:E; cbn [negb].
  - now rewrite Bool.andb_false_r.
  - rewrite Bool.andb_true_r. destruct (mem q (obj_keys old)); reflexivity.
Qed.

Lemma gitCommit_workingFiles (args : list string) (newHash : string) (now : Z)
    (r : Repo) :
  fst (gitCommit args newHash now r) = r
  \/ workingFiles (fst (gitCommit args newHash now r))
     = apply_staged (workingFiles r) (stagedFiles r).
Proof.
  unfold gitCommit. cbv zeta.
  destruct (negb (ok (ensureInitialized r))); [now left|].
  destruct (negb _); [now left|].
  destruct (negb (is_nil (merge_conflicts r))); [now left|].
  right. cbn.
  destruct (ensureBranchMeta_fields (currentBranch r) r) as (_ & Hw & Hs & _).
  cbv zeta in Hw, Hs. now rewrite Hw, Hs.
Qed.

Lemma merge_result_cases (b o t : option string) (tb : string) :
  (o <> t -> o <> b -> t <> b ->
     merge_result b o t tb
     = Some ("<<<<<<< HEAD" ++ nl ++ text_of o ++ nl ++ "=======" ++ nl ++ text_of t
               ++ nl ++ ">>>>>>> " ++ tb ++ nl)
     /\ is_conflict b o t = true) /\
  (o = t -> merge_result b o t tb = o) /\
  (o <> t -> o = b -> merge_result b o t tb = t) /\
  (o <> t -> o <> b -> t = b -> merge_result b o t tb = o).
Proof.
  unfold merge_result, is_conflict.
  destruct (opt_eqb o t) eqn:E1, (opt_eqb o b) eqn:E2, (opt_eqb t b) eqn:E3;
    try apply opt_eqb_eq in E1; try apply opt_eqb_eq in E2;
    try apply opt_eqb_eq in E3;
    repeat split; intros; try congruence; try reflexivity.
  all: try (exfalso;
            match goal with
            | E : opt_eqb ?x ?y = false, H : ?x = ?y |- _ =>
                apply opt_eqb_eq in H; congruence
            end).
Qed.

(** C6 (amended). In every three-way merge (clean tree, both heads present
    and neither an ancestor of the other), for every path with versions
    [b] in the base, [o] in ours and [t] in theirs: if [o] and [t] differ
    from each other and from [b], the merge returns exit code 1, the path is
    in [mergeState.conflicts], and the working-tree file is
    "<<<<<<< HEAD\n" + ours text + "\n=======\n" + theirs text +
    "\n>>>>>>> " + branch name + "\n" (with a final newline); otherwise the
    working tree takes the side equal on both, theirs when ours equals the
    base, and ours when theirs equals the base. *)
Theorem gitMerge_three_way (r : Repo) (args : list string) (tb newHash : string)
    (now : Z) (p : string) :
  initialized r = true ->
  isDirty (getStatus r) = false ->
  first_or_null args = Some tb ->
  obj_has (branches r) tb = true ->
  let ours := head r in
  let theirs := branch_or_null r tb in
  truthy ours = true ->
  truthy theirs = true ->
  isAncestor r ours theirs = false ->
  isAncestor r theirs ours = false ->
  NoDup (obj_keys (getSnapshot r ours)) ->
  let b := obj_get (getSnapshot r (findCommonAncestor r ours theirs)) p in
  let o := obj_get (getSnapshot r ours) p in
  let t := obj_get (getSnapshot r theirs) p in
  let r' := fst (gitMerge args newHash now r) in
  let res := snd (gitMerge args newHash now r) in
  (o <> t -> o <> b -> t <> b ->
     ok res = false /\ exitCode res = 1 /\
     In p (merge_conflicts r') /\
     obj_get (workingFiles r') p
     = Some ("<<<<<<< HEAD" ++ nl ++ text_of o ++ nl ++ "=======" ++ nl ++ text_of t
               ++ nl ++ ">>>>>>> " ++ tb ++ nl)) /\
  (o = t -> obj_get (workingFiles r') p = o) /\
  (o <> t -> o = b -> obj_get (workingFiles r') p = t) /\
  (o <> t -> o <> b -> t = b -> obj_get (workingFiles r') p = o).
Proof.
  intros Hinit Hclean Hargs Hbr ours theirs Ho Ht Hot Hto Hnd b o t.
  cbv zeta. unfold gitMerge.
  rewrite (ensureInitialized_ok r Hinit), Hclean, Hargs, Hbr.
  cbn [negb]. cbv zeta. fold ours theirs.
  rewrite Ht, Ho, Hot, Hto. cbn [negb].
  set (baseSnap := getSnapshot r (findCommonAncestor r ours theirs)).
  set (oursSnap := getSnapshot r ours).
  set (theirsSnap := getSnapshot r theirs).
  assert (Hget : obj_get (fst (three_way baseSnap oursSnap theirsSnap tb)) p
                 = merge_result b o t tb) by apply three_way_get.
  assert (Hcs : In p (snd (three_way baseSnap oursSnap theirsSnap tb))
                <-> is_conflict b o t = true) by apply three_way_conflicts.
  pose proof (three_way_NoDup baseSnap oursSnap theirsSnap tb Hnd) as Hmnd.
  destruct (merge_result_cases b o t tb) as (R1 & R2 & R3 & R4).
  destruct (three_way baseSnap oursSnap theirsSnap tb) as [merged cs].
  cbn [fst snd] in Hget, Hcs, Hmnd.
  destruct cs as [|c0 cs']; cbn [is_nil negb].
  - (* no conflict: the merge commit is made at once *)
    match goal with
    | |- context [gitCommit ?a ?h ?n ?x] =>
        pose proof (gitCommit_workingFiles a h n x) as E;
        destruct (gitCommit a h n x) as [r5 res5]
    end.
    cbn [fst snd] in E.
    assert (Hw : obj_get (workingFiles r5) p = merge_result b o t tb).
    { destruct E as [E|E].
      - subst r5. exact Hget.
      - rewrite E.
        cbn [workingFiles stagedFiles set_stagedFiles set_mergeState set_workingFiles].
        rewrite apply_staged_get by apply stage_all_NoDup.
        rewrite overlay_stage_all by exact Hmnd. exact Hget. }
    cbn [fst snd workingFiles set_lastEvent].
    split; [|split; [|split]].
    + intros H1 H2 H3. destruct (R1 H1 H2 H3) as [_ Hc].
      apply Hcs in Hc. contradiction.
    + intros H1. now rewrite Hw, (R2 H1).
    + intros H1 H2. now rewrite Hw, (R3 H1 H2).
    + intros H1 H2 H3. now rewrite Hw, (R4 H1 H2 H3).
  - (* conflicts: the state is left pending *)
    cbn [fst snd ok exitCode workingFiles set_lastEvent set_mergeState
         set_stagedFiles set_workingFiles].
    split; [|split; [|split]].
    + intros H1 H2 H3. destruct (R1 H1 H2 H3) as [Hr Hc].
      apply Hcs in Hc. repeat split; [exact Hc | now rewrite Hget].
    + intros H1. now rewrite Hget, (R2 H1).
    + intros H1 H2. now rewrite Hget, (R3 H1 H2).
    + intros H1 H2 H3. now rewrite Hget, (R4 H1 H2 H3).
Qed.

Lemma gitMerge_three_way_witness :
  let r := lesson4 in
  let tb := "feature/theme" in
  let p := "/config.txt" in
  let b := obj_get (getSnapshot r (findCommonAncestor r (head r) (branch_or_null r tb))) p in
  let o := obj_get (getSnapshot r (head r)) p in
  let t := obj_get (getSnapshot r (branch_or_null r tb)) p in
  (initialized r = true /\ isDirty (getStatus r) = false /\
   first_or_null [tb] = Some tb /\ obj_has (branches r) tb = true /\
   truthy (head r) = true /\ truthy (branch_or_null r tb) = true /\
   isAncestor r (head r) (branch_or_null r tb) = false /\
   isAncestor r (branch_or_null r tb) (head r) = false /\
   NoDup (obj_keys (getSnapshot r (head r))) /\
   o <> t /\ o <> b /\ t <> b) /\
  exitCode (snd (gitMerge [tb] h4 3 r)) = 1 /\
  In p (merge_conflicts (fst (gitMerge [tb] h4 3 r))).
Proof.
  cbv zeta.
  assert (H1 : initialized lesson4 = true) by (vm_compute; reflexivity).
  assert (H2 : isDirty (getStatus lesson4) = false) by (vm_compute; reflexivity).
  assert (H3 : first_or_null ["feature/theme"] = Some "feature/theme")
    by (vm_compute; reflexivity).
  assert (H4 : obj_has (branches lesson4) "feature/theme" = true)
    by (vm_compute; reflexivity).
  assert (H5 : truthy (head lesson4) = true) by (vm_compute; reflexivity).
  assert (H6 : truthy (branch_or_null lesson4 "feature/theme") = true)
    by (vm_compute; reflexivity).
  assert (H7 : isAncestor lesson4 (head lesson4)
                 (branch_or_null lesson4 "feature/theme") = false)
    by (vm_compute; reflexivity).
  assert (H8 : isAncestor lesson4 (branch_or_null lesson4 "feature/theme")
                 (head lesson4) = false)
    by (vm_compute; reflexivity).
  assert (H9 : NoDup (obj_keys (getSnapshot lesson4 (head lesson4)))).
  { vm_compute. constructor; [intros [] | constructor]. }
  assert (Hot : obj_get (getSnapshot lesson4 (head lesson4)) "/config.txt"
                <> obj_get (getSnapshot lesson4 (branch_or_null lesson4 "feature/theme"))
                     "/config.txt")
    by (vm_compute; discriminate).
  assert (Hob : obj_get (getSnapshot lesson4 (head lesson4)) "/config.txt"
                <> obj_get (getSnapshot lesson4
                              (findCommonAncestor lesson4 (head lesson4)
                                 (branch_or_null lesson4 "feature/theme")))
                     "/config.txt")
    by (vm_compute; discriminate).
  assert (Htb : obj_get (getSnapshot lesson4 (branch_or_null lesson4 "feature/theme"))
                  "/config.txt"
                <> obj_get (getSnapshot lesson4
                              (findCommonAncestor lesson4 (head lesson4)
                                 (branch_or_null lesson4 "feature/theme")))
                     "/config.txt")
    by (vm_compute; discriminate).
  pose proof (gitMerge_three_way lesson4 ["feature/theme"] "feature/theme" h4 3
                "/config.txt" H1 H2 H3 H4 H5 H6 H7 H8 H9) as H.
  cbv zeta in H. destruct H as (H & _).
  destruct (H Hot Hob Htb) as (_ & Ha & Hb & _).
  split; [repeat split; assumption|].
  split; [exact Ha | exact Hb].
Defined.

(** C6, as stated, fails on the form of the buffer: the script ends it with
    a newline after the branch name.  In lesson 4, merging feature/theme into
    main conflicts on config.txt (blue in the base, red in ours, green in
    theirs), and the working-tree file is not the buffer that stops at the
    branch name. *)
Lemma gitMerge_conflict_buffer_has_final_newline :
  let r := lesson4 in
  let r' := fst (gitMerge ["feature/theme"] h4 3 r) in
  let claimed := "<<<<<<< HEAD" ++ nl ++ "color=red" ++ nl ++ nl ++ "=======" ++ nl
                   ++ "color=green" ++ nl ++ nl ++ ">>>>>>> " ++ "feature/theme" in
  obj_get (getSnapshot r (head r)) "/config.txt" = Some ("color=red" ++ nl) /\
  obj_get (getSnapshot r (branch_or_null r "feature/theme")) "/config.txt"
  = Some ("color=green" ++ nl) /\
  obj_get (getSnapshot r (findCommonAncestor r (head r)
                            (branch_or_null r "feature/theme"))) "/config.txt"
  = Some ("color=blue" ++ nl) /\
  merge_conflicts r' = ["/config.txt"] /\
  obj_get (workingFiles r') "/config.txt" = Some (claimed ++ nl) /\
  obj_get (workingFiles r') "/config.txt" <> Some claimed.
Proof.
  cbv zeta. repeat split; try (vm_compute; reflexivity).
  vm_compute. discriminate.
Qed.

(** ** push *)

Lemma ensureRepo_key (store store1 : RemoteStore) (u key : string) :
  ensureRepo store u = Some (store1, key) -> key = trim u.
Proof.
  unfold ensureRepo. destruct (negb (nonempty (trim u))); [discriminate|].
  destruct (js_defined (byUrl store) (trim u)); intros H; now inversion H.
Qed.

Lemma push_commits_mono (local : obj Commit) (order : list string) :
  forall (rc rc' : obj Commit) (h : string),
    push_commits local order rc = (rc', false) ->
    obj_has rc h = true -> obj_has rc' h = true.
Proof.
  induction order as [|h0 order IH]; intros rc rc' h H Hh; cbn in H.
  - injection H as <-. exact Hh.
  - destruct (negb (obj_has rc h0)); [|now apply (IH rc)].
    destruct (obj_get local h0) as [c|]; [|discriminate].
    apply (IH _ _ _ H). rewrite obj_has_set, Hh. apply Bool.orb_true_r.
Qed.

Lemma push_commits_all (local : obj Commit) (order : list string) :
  forall (rc rc' : obj Commit) (h : string),
    push_commits local order rc = (rc', false) ->
    In h order -> obj_has rc' h = true.
Proof.
  induction order as [|h0 order IH]; intros rc rc' h H Hin; [contradiction|].
  cbn in H. destruct Hin as [<-|Hin].
  - destruct (obj_has rc h0) eqn:E; cbn [negb] in H.
    + now apply (push_commits_mono local order rc).
    + destruct (obj_get local h0) as [c|]; [|discriminate].
      apply (push_commits_mono local order _ _ _ H).
      rewrite obj_has_set, String.eqb_refl. reflexivity.
  - destruct (negb (obj_has rc h0)); [|now apply (IH rc)].
    destruct (obj_get local h0) as [c|]; [|discriminate].
    now apply (IH _ _ _ H).
Qed.

Lemma push_cleaned_flags (f l : list string) :
  Forall (fun a => a = "-u" \/ a = "--set-upstream") f ->
  push_cleaned (f ++ l) = push_cleaned l.
Proof.
  induction 1 as [|a f Ha _ IH]; [reflexivity|].
  unfold push_cleaned in *. cbn [app filter].
  assert (E : is_upstream_flag a = true) by (destruct Ha; subst; reflexivity).
  rewrite E. exact IH.
Qed.

Lemma push_cleaned_word (x : string) (l : list string) :
  x <> "-u" -> x <> "--set-upstream" ->
  push_cleaned (x :: l) = x :: push_cleaned l.
Proof.
  intros H1 H2. unfold push_cleaned. cbn [filter]. unfold is_upstream_flag.
  apply String.eqb_neq in H1, H2. rewrite H1, H2. reflexivity.
Qed.

Lemma nth_truthy_here (x : string) (l : list string) :
  x <> "" -> nth_truthy 0 (x :: l) = Some x.
Proof.
  intros H. unfold nth_truthy, nonempty. cbn [nth_error].
  apply String.eqb_neq in H. now rewrite H.
Qed.

(* what a successful push leaves, in the names the code computes *)
Lemma gitPush_success (r r' : Repo) (args : list string) (store store' : RemoteStore)
    (res : Result) :
  order_lists_commits (commits r) (commitOrder r) ->
  gitPush args (Some store) r = (r', Some store', Returned res) ->
  ok res = true ->
  exists (rm : Remote) (rr : RemoteRepo) (localHead : string),
    obj_get (remotes r') (push_remoteName args r) = Some rm /\
    getRepo store' (url rm) = own rr /\
    obj_get (branches r') (push_branchName args r) = Some (Some localHead) /\
    obj_get (remote_branches rr) (push_branchName args r) = Some (Some localHead) /\
    (forall h c, reachable r' localHead h ->
                 obj_get (commits r') h = Some c ->
                 obj_has (remote_commits rr) h = true).
Proof.
  intros Hinv Hpush Hok.
  unfold gitPush in Hpush. cbv zeta in Hpush.
  destruct (negb (ok (ensureInitialized r))) eqn:Ei.
  { inversion Hpush; subst. rewrite Hok in Ei. discriminate. }
  unfold js_read in Hpush.
  destruct (obj_get (remotes r) (push_remoteName args r)) as [rm|] eqn:Erm.
  2:{ destruct (inherited (push_remoteName args r));
        [discriminate | inversion Hpush; subst; discriminate]. }
  destruct (ensureRepo store (url rm)) as [[store1 key]|] eqn:Eens;
    [|discriminate].
  apply ensureRepo_key in Eens.
  destruct (truthy (branch_or_null r (push_branchName args r))) eqn:Et;
    cbn [negb] in Hpush; [|inversion Hpush; subst; discriminate].
  destruct (obj_get (byUrl store1) key) as [remoteRepo|] eqn:Erepo; [|discriminate].
  destruct (push_commits (commits r) (commitOrder r) _) as [rc threw] eqn:Epc.
  destruct threw; [discriminate|].
  unfold branch_or_null in Et, Hpush.
  destruct (obj_get (branches r) (push_branchName args r)) as [[lh|]|] eqn:Eb;
    try discriminate.
  assert (Hr : branches r' = branches r /\ commits r' = commits r
               /\ remotes r' = remotes r).
  { inversion Hpush; subst.
    destruct (existsb is_upstream_flag args); repeat split. }
  destruct Hr as (Hbr & Hcm & Hrm).
  exists rm.
  eexists. exists lh.
  split; [now rewrite Hrm|].
  split.
  { inversion Hpush; subst. unfold getRepo, js_read. cbn [byUrl].
    now rewrite obj_get_set_eq. }
  split; [now rewrite Hbr|].
  split; [cbn [remote_branches]; apply obj_get_set_eq|].
  intros h c _ Hc. cbn [remote_commits].
  apply (push_commits_all _ _ _ _ h Epc). apply Hinv.
  unfold obj_has. rewrite <- Hcm, Hc. reflexivity.
Qed.

(** C8. After a successful [git push] of branch B to remote R, the remote
    repository stored at R's URL has [branches[B]] equal to the local
    [branches[B]], and every local commit reachable from that head is in the
    remote's [commits] map.  R and B are read off the arguments: with the
    flags [-u] and [--set-upstream] set aside, R is the first word and B the
    second; a missing B is the current branch, and a missing R is the
    upstream remote of the current branch, or [origin]. *)
Theorem gitPush_spec (r r' : Repo) (args f1 f2 rest : list string) (R B : string)
    (store store' : RemoteStore) (res : Result) :
  order_lists_commits (commits r) (commitOrder r) ->
  Forall (fun a => a = "-u" \/ a = "--set-upstream") f1 ->
  Forall (fun a => a = "-u" \/ a = "--set-upstream") f2 ->
  (* git push R B *)
  (args = (f1 ++ R :: f2 ++ B :: rest)%list /\
   R <> "" /\ R <> "-u" /\ R <> "--set-upstream" /\
   B <> "" /\ B <> "-u" /\ B <> "--set-upstream") \/
  (* git push R *)
  (args = (f1 ++ R :: f2)%list /\
   R <> "" /\ R <> "-u" /\ R <> "--set-upstream" /\
   B = currentBranch r) \/
  (* git push *)
  (args = f1 /\
   R = match obj_get (upstreams r) (currentBranch r) with
       | Some up => if String.eqb (up_remote up) "" then "origin" else up_remote up
       | None => "origin"
       end /\
   B = currentBranch r) ->
  gitPush args (Some store) r = (r', Some store', Returned res) ->
  ok res = true ->
  exists (rm : Remote) (rr : RemoteRepo) (localHead : string),
    obj_get (remotes r') R = Some rm /\
    getRepo store' (url rm) = own rr /\
    obj_get (branches r') B = Some (Some localHead) /\
    obj_get (remote_branches rr) B = Some (Some localHead) /\
    (forall h c, reachable r' localHead h ->
                 obj_get (commits r') h = Some c ->
                 obj_has (remote_commits rr) h = true).
Proof.
  intros Hinv Hf1 Hf2 Hargs Hpush Hok.
  assert (Hnames : push_remoteName args r = R /\ push_branchName args r = B).
  { unfold push_remoteName, push_branchName.
    destruct Hargs as [(-> & HR & HRu & HRs & HB & HBu & HBs)
                      |[(-> & HR & HRu & HRs & ->)|(-> & -> & ->)]].
    - rewrite (push_cleaned_flags f1 (R :: f2 ++ B :: rest) Hf1),
        (push_cleaned_word R (f2 ++ B :: rest) HRu HRs),
        (push_cleaned_flags f2 (B :: rest) Hf2), (push_cleaned_word B rest HBu HBs).
      rewrite (nth_truthy_here R) by exact HR.
      change (nth_truthy 1 (R :: B :: push_cleaned rest))
        with (nth_truthy 0 (B :: push_cleaned rest)).
      rewrite (nth_truthy_here B) by exact HB. split; reflexivity.
    - rewrite (push_cleaned_flags f1 (R :: f2) Hf1), (push_cleaned_word R f2 HRu HRs).
      rewrite <- (app_nil_r f2), (push_cleaned_flags f2 [] Hf2).
      rewrite (nth_truthy_here R) by exact HR. split; reflexivity.
    - rewrite <- (app_nil_r f1), (push_cleaned_flags f1 [] Hf1).
      split; [|reflexivity].
      cbn. unfold upstream_remote, nonempty.
      destruct (obj_get (upstreams r) (currentBranch r)) as [up|]; [|reflexivity].
      now destruct (String.eqb (up_remote up) ""). }
  destruct Hnames as (HR & HB).
  destruct (gitPush_success r r' args store store' res Hinv Hpush Hok)
    as (rm & rr & lh & H).
  rewrite HR, HB in H. now exists rm, rr, lh.
Qed.

Lemma gitPush_spec_witness :
  let r := lesson3_with_remote in
  let args := ["-u"; "origin"; "main"] in
  let out := gitPush args (Some store_with_origin) r in
  (order_lists_commits (commits r) (commitOrder r) /\
   out = (fst (fst out), Some {| byUrl := [(seed_url, pushed_remote)] |},
          Returned (success ["To " ++ seed_url;
                             "   —..1a1a1a1  main -> main";
                             "Branch 'main' set up to track 'origin/main'. (simulated)"])))
  /\
  exists (rm : Remote) (rr : RemoteRepo) (localHead : string),
    obj_get (remotes (fst (fst out))) "origin" = Some rm /\
    getRepo {| byUrl := [(seed_url, pushed_remote)] |} (url rm) = own rr /\
    obj_get (branches (fst (fst out))) "main" = Some (Some localHead) /\
    obj_get (remote_branches rr) "main" = Some (Some localHead) /\
    (forall h c, reachable (fst (fst out)) localHead h ->
                 obj_get (commits (fst (fst out))) h = Some c ->
                 obj_has (remote_commits rr) h = true).
Proof.
  cbv zeta.
  assert (H1 : order_lists_commits (commits lesson3_with_remote)
                 (commitOrder lesson3_with_remote)).
  { assert (Ec : commits lesson3_with_remote = [(h1, lesson3_root)])
      by (vm_compute; reflexivity).
    assert (Eo : commitOrder lesson3_with_remote = [h1]) by (vm_compute; reflexivity).
    unfold order_lists_commits. rewrite Ec, Eo. intros h H.
    unfold obj_has in H. cbn [obj_get] in H.
    destruct (String.eqb h1 h) eqn:E; [|discriminate].
    apply String.eqb_eq in E. now left. }
  assert (H2 : gitPush ["-u"; "origin"; "main"] (Some store_with_origin)
                 lesson3_with_remote
               = (fst (fst (gitPush ["-u"; "origin"; "main"] (Some store_with_origin)
                              lesson3_with_remote)),
                  Some {| byUrl := [(seed_url, pushed_remote)] |},
                  Returned (success ["To " ++ seed_url;
                             "   —..1a1a1a1  main -> main";
                             "Branch 'main' set up to track 'origin/main'. (simulated)"])))
    by (vm_compute; reflexivity).
  assert (H3 : Forall (fun a : string => a = "-u" \/ a = "--set-upstream") ["-u"])
    by (constructor; [now left | constructor]).
  assert (H4 : Forall (fun a : string => a = "-u" \/ a = "--set-upstream") [])
    by constructor.
  assert (H5 : ["-u"; "origin"; "main"] = (["-u"] ++ "origin" :: [] ++ "main" :: [])%list
               /\ "origin" <> "" /\ "origin" <> "-u" /\ "origin" <> "--set-upstream"
               /\ "main" <> "" /\ "main" <> "-u" /\ "main" <> "--set-upstream")
    by (repeat split; discriminate).
  split; [split; assumption|].
  exact (gitPush_spec lesson3_with_remote _ ["-u"; "origin"; "main"] ["-u"] [] []
           "origin" "main" store_with_origin _ _ H1 H3 H4 (or_introl H5) H2 eq_refl).
Defined.

(** ** The loops over the commit graph finish within their fuel *)

Lemma iter_terminates {S R : Type} (body : S -> S + R) (m : S -> nat) :
  (forall s s', body s = inl s' -> m s' < m s) ->
  forall fuel s, m s < fuel -> exists res, iter body fuel s = Some res.
Proof.
  intros Hdec. induction fuel as [|f IH]; intros s Hm; [lia|].
  cbn. destruct (body s) as [s'|res] eqn:E.
  - apply IH. specialize (Hdec s s' E). lia.
  - now exists res.
Qed.

Lemma unseen_parents_none (cs : obj Commit) :
  unseen_parents cs (fun _ => false) = total_parents cs.
Proof.
  induction cs as [|[k c] t IH]; [reflexivity|].
  cbn [unseen_parents]. rewrite IH. reflexivity.
Qed.

Lemma unseen_parents_mono (cs : obj Commit) (s1 s2 : string -> bool) :
  (forall k, s1 k = true -> s2 k = true) ->
  unseen_parents cs s2 <= unseen_parents cs s1.
Proof.
  intros H. induction cs as [|[k c] t IH]; cbn; [lia|].
  destruct (s1 k) eqn:E1.
  - rewrite (H k E1). exact IH.
  - destruct (s2 k); lia.
Qed.

Lemma unseen_parents_visit (cs : obj Commit) (s1 s2 : string -> bool)
    (cur : string) (c : Commit) :
  (forall k, s1 k = true -> s2 k = true) ->
  s1 cur = false -> s2 cur = true ->
  obj_get cs cur = Some c ->
  unseen_parents cs s2 + List.length (parents c) <= unseen_parents cs s1.
Proof.
  intros Hm H1 H2. induction cs as [|[k c0] t IH]; cbn; [discriminate|].
  destruct (String.eqb k cur) eqn:E.
  - apply String.eqb_eq in E. subst k. intros Hc. injection Hc as ->.
    rewrite H1, H2. pose proof (unseen_parents_mono t s1 s2 Hm). lia.
  - intros Hc. specialize (IH Hc).
    destruct (s1 k) eqn:E1.
    + rewrite (Hm k E1). exact IH.
    + destruct (s2 k); lia.
Qed.

Lemma mem_cons (x y : string) (l : list string) :
  mem x (y :: l) = (String.eqb x y || mem x l)%bool.
Proof. reflexivity. Qed.

Lemma isAncestor_terminates (r : Repo) (a d : string) :
  exists b, iter (isAncestor_body r a) (graph_fuel r) ([], [d]) = Some b.
Proof.
  apply (iter_terminates _
           (fun st => List.length (snd st)
                      + unseen_parents (commits r) (fun k => mem k (fst st)))).
  - intros [seen stack] s'. unfold isAncestor_body.
    destruct stack as [|cur rest]; [discriminate|].
    destruct (negb (nonempty cur) || mem cur seen)%bool eqn:E.
    + intros H. injection H as <-. cbn. lia.
    + apply Bool.orb_false_iff in E. destruct E as [_ E].
      destruct (String.eqb cur a); [discriminate|].
      assert (Hmono : forall k, mem k seen = true -> mem k (cur :: seen) = true).
      { intros k Hk. rewrite mem_cons, Hk. apply Bool.orb_true_r. }
      assert (Hcur : mem cur (cur :: seen) = true).
      { rewrite mem_cons, String.eqb_refl. reflexivity. }
      destruct (obj_get (commits r) cur) as [c|] eqn:Ec; intros H; injection H as <-.
      * cbn [fst snd]. rewrite length_app, length_rev.
        pose proof (unseen_parents_visit (commits r) (fun k => mem k seen)
                      (fun k => mem k (cur :: seen)) cur c Hmono E Hcur Ec).
        cbn [List.length]. lia.
      * cbn [fst snd List.length].
        pose proof (unseen_parents_mono (commits r) (fun k => mem k seen)
                      (fun k => mem k (cur :: seen)) Hmono).
        lia.
  - cbn [fst snd List.length mem existsb]. rewrite unseen_parents_none.
    unfold graph_fuel. lia.
Qed.

Lemma dist_terminates (r : Repo) (a : string) :
  exists m, iter (dist_body r) (graph_fuel r) ([], [(a, 0)]) = Some m.
Proof.
  apply (iter_terminates _
           (fun st => List.length (snd st)
                      + unseen_parents (commits r) (obj_has (fst st)))).
  - intros [dist queue] s'. unfold dist_body.
    destruct queue as [|[h d] rest]; [discriminate|].
    destruct (negb (nonempty h) || obj_has dist h)%bool eqn:E.
    + intros H. injection H as <-. cbn. lia.
    + apply Bool.orb_false_iff in E. destruct E as [_ E].
      assert (Hmono : forall k, obj_has dist k = true
                                -> obj_has (obj_set dist h d) k = true).
      { intros k Hk. rewrite obj_has_set, Hk. apply Bool.orb_true_r. }
      assert (Hcur : obj_has (obj_set dist h d) h = true).
      { rewrite obj_has_set, String.eqb_refl. reflexivity. }
      destruct (obj_get (commits r) h) as [c|] eqn:Ec; intros H; injection H as <-.
      * cbn [fst snd]. rewrite length_app, length_map.
        pose proof (unseen_parents_visit (commits r) (obj_has dist)
                      (obj_has (obj_set dist h d)) h c Hmono E Hcur Ec).
        cbn [List.length]. lia.
      * cbn [fst snd List.length].
        pose proof (unseen_parents_mono (commits r) (obj_has dist)
                      (obj_has (obj_set dist h d)) Hmono).
        lia.
  - cbn [fst snd List.length].
    change (obj_has (@nil (string * nat))) with (fun _ : string => false).
    rewrite unseen_parents_none. unfold graph_fuel. lia.
Qed.

Lemma best_terminates (r : Repo) (dist : obj nat) (b : string) :
  exists res,
    iter (best_body r dist) (graph_fuel r)
      {| best := None; bestD := None; seen2 := []; queue2 := [(b, 0)] |} = Some res.
Proof.
  apply (iter_terminates _
           (fun st => List.length (queue2 st)
                      + unseen_parents (commits r) (fun k => mem k (seen2 st)))).
  - intros [bst bd seen queue] s'. unfold best_body. cbn [queue2 seen2 best bestD].
    destruct queue as [|[h d] rest]; [discriminate|].
    destruct (negb (nonempty h) || mem h seen)%bool eqn:E.
    + intros H. injection H as <-. cbn [queue2 seen2 List.length]. lia.
    + apply Bool.orb_false_iff in E. destruct E as [_ E].
      assert (Hmono : forall k, mem k seen = true -> mem k (h :: seen) = true).
      { intros k Hk. rewrite mem_cons, Hk. apply Bool.orb_true_r. }
      assert (Hcur : mem h (h :: seen) = true).
      { rewrite mem_cons, String.eqb_refl. reflexivity. }
      destruct (match obj_get dist h with
                | Some dh => if lt_bestD (dh + d) bd then (Some h, Some (dh + d))
                             else (bst, bd)
                | None => (bst, bd)
                end) as [b' bd'].
      destruct (obj_get (commits r) h) as [c|] eqn:Ec; intros H; injection H as <-.
      * cbn [queue2 seen2]. rewrite length_app, length_map.
        pose proof (unseen_parents_visit (commits r) (fun k => mem k seen)
                      (fun k => mem k (h :: seen)) h c Hmono E Hcur Ec).
        cbn [List.length]. lia.
      * cbn [queue2 seen2 List.length].
        pose proof (unseen_parents_mono (commits r) (fun k => mem k seen)
                      (fun k => mem k (h :: seen)) Hmono).
        lia.
  - cbn [queue2 seen2 List.length mem existsb]. rewrite unseen_parents_none.
    unfold graph_fuel. lia.
Qed.

Lemma unseen_commits_le (cs : obj Commit) (seen : list string) :
  unseen_commits cs seen <= List.length cs.
Proof.
  induction cs as [|[k c] t IH]; cbn [unseen_commits List.length]; [lia|].
  destruct (mem k seen); lia.
Qed.

Lemma unseen_commits_mono (cs : obj Commit) (seen : list string) (cur : string) :
  unseen_commits cs (cur :: seen) <= unseen_commits cs seen.
Proof.
  induction cs as [|[k c] t IH]; cbn [unseen_commits]; [lia|].
  rewrite mem_cons. destruct (String.eqb k cur), (mem k seen); cbn [orb]; lia.
Qed.

Lemma unseen_commits_visit (cs : obj Commit) (seen : list string) (cur : string)
    (c : Commit) :
  mem cur seen = false -> obj_get cs cur = Some c ->
  S (unseen_commits cs (cur :: seen)) <= unseen_commits cs seen.
Proof.
  intros Hs. induction cs as [|[k c0] t IH]; cbn [unseen_commits obj_get];
    [discriminate|].
  rewrite mem_cons. destruct (String.eqb k cur) eqn:E.
  - apply String.eqb_eq in E. subst k. intros _. rewrite Hs. cbn [orb].
    pose proof (unseen_commits_mono t seen cur). lia.
  - intros Hc. specialize (IH Hc). cbn [orb]. destruct (mem k seen); lia.
Qed.

Lemma gitLog_terminates (r : Repo) (oneline : bool) (fmtDate : Z -> string) :
  exists out,
    iter (gitLog_body r oneline fmtDate) (2 + List.length (commits r))
      {| log_cur := head r; log_seen := []; log_out := [] |} = Some out.
Proof.
  apply (iter_terminates _
           (fun st => (match log_cur st with Some _ => 1 | None => 0 end)
                      + unseen_commits (commits r) (log_seen st))).
  - intros [cur seen out] s'. unfold gitLog_body. cbn [log_cur log_seen log_out].
    destruct cur as [cur|]; [|discriminate].
    destruct (negb (nonempty cur) || mem cur seen)%bool eqn:E; [discriminate|].
    apply Bool.orb_false_iff in E. destruct E as [_ E].
    destruct (obj_get (commits r) cur) as [c|] eqn:Ec; [|discriminate].
    intros H. injection H as <-. cbn [log_cur log_seen].
    pose proof (unseen_commits_visit (commits r) seen cur c E Ec).
    destruct (first_or_null (parents c)); lia.
  - cbn [log_cur log_seen].
    pose proof (unseen_commits_le (commits r) []).
    destruct (head r); lia.
Qed.

(** ** isAncestor decides reachability in the commit graph *)

Lemma reachable_snoc (r : Repo) (d x p : string) (c : Commit) :
  reachable r d x -> obj_get (commits r) x = Some c -> In p (parents c) ->
  reachable r d p.
Proof.
  intros H. induction H as [h | h q h' c0 Hc0 Hq _ IH]; intros Hc Hp.
  - eapply reachable_parent; eauto. constructor.
  - eapply reachable_parent; eauto.
Qed.

Lemma mem_false_In (x : string) (l : list string) : mem x l = false -> ~ In x l.
Proof. intros H Hin. apply mem_In in Hin. congruence. Qed.

Lemma nonempty_true (s : string) : nonempty s = true <-> s <> "".
Proof.
  unfold nonempty. rewrite Bool.negb_true_iff. apply String.eqb_neq.
Qed.

Section Dfs.
Variable r : Repo.
Variable a : string.

Lemma dfs_sound (d : string) :
  forall fuel seen stack,
    (forall x, In x stack -> reachable r d x) ->
    iter (isAncestor_body r a) fuel (seen, stack) = Some true ->
    reachable r d a.
Proof.
  induction fuel as [|f IH]; intros seen stack Hst; cbn [iter]; [discriminate|].
  unfold isAncestor_body at 1.
  destruct stack as [|cur rest]; [discriminate|].
  destruct (negb (nonempty cur) || mem cur seen)%bool.
  - apply IH. intros x Hx. apply Hst. now right.
  - destruct (String.eqb cur a) eqn:E.
    + intros _. apply String.eqb_eq in E. subst cur. apply Hst. now left.
    + destruct (obj_get (commits r) cur) as [c|] eqn:Ec.
      * apply IH. intros x Hx. apply in_app_or in Hx. destruct Hx as [Hx|Hx].
        -- apply (reachable_snoc r d cur x c); auto.
           ++ apply Hst. now left.
           ++ now apply in_rev.
        -- apply Hst. now right.
      * apply IH. intros x Hx. apply Hst. now right.
Qed.

Lemma closed_reachable (seen : list string) :
  (forall x c p, In x seen -> obj_get (commits r) x = Some c -> In p (parents c) ->
                 In p seen) ->
  forall x y, reachable r x y -> In x seen -> In y seen.
Proof.
  intros Hcl x y H. induction H as [h | h q h' c Hc Hq _ IH]; intros Hin; auto.
  apply IH. eapply Hcl; eauto.
Qed.

Hypothesis Hwf : no_empty_parent r.

Lemma dfs_complete :
  forall fuel seen stack,
    ~ In a seen ->
    (forall x c p, In x seen -> obj_get (commits r) x = Some c -> In p (parents c) ->
                   In p seen \/ In p stack) ->
    iter (isAncestor_body r a) fuel (seen, stack) = Some false ->
    forall x, In x seen \/ (In x stack /\ x <> "") ->
    forall y, reachable r x y -> y <> a.
Proof.
  induction fuel as [|f IH]; intros seen stack Ha Hcl; cbn [iter]; [discriminate|].
  unfold isAncestor_body at 1.
  destruct stack as [|cur rest].
  - intros _ x [Hx|[[] _]] y Hreach Hy. subst y. apply Ha.
    apply (closed_reachable seen) with (x := x); auto.
    intros x0 c p H1 H2 H3. destruct (Hcl x0 c p H1 H2 H3) as [H|[]]. exact H.
  - destruct (negb (nonempty cur) || mem cur seen)%bool eqn:E.
    + intros Hit x Hx. apply (IH seen rest Ha); auto.
      * intros x0 c p H1 H2 H3.
        destruct (Hcl x0 c p H1 H2 H3) as [H|[<-|H]]; auto.
        apply Bool.orb_true_iff in E. destruct E as [E|E].
        -- apply Bool.negb_true_iff in E. unfold nonempty in E.
           apply Bool.negb_false_iff, String.eqb_eq in E. subst cur.
           exfalso. exact (Hwf x0 c H2 H3).
        -- left. now apply mem_In.
      * destruct Hx as [Hx|[[<-|Hx] Hne]]; auto.
        apply Bool.orb_true_iff in E. destruct E as [E|E].
        -- apply Bool.negb_true_iff in E. apply nonempty_true in Hne. congruence.
        -- left. now apply mem_In.
    + apply Bool.orb_false_iff in E. destruct E as [_ E].
      apply mem_false_In in E.
      destruct (String.eqb cur a) eqn:Ea; [discriminate|].
      apply String.eqb_neq in Ea.
      assert (Ha' : ~ In a (cur :: seen)) by (intros [H|H]; auto).
      destruct (obj_get (commits r) cur) as [c|] eqn:Ec.
      * intros Hit x Hx. apply (IH (cur :: seen) (rev (parents c) ++ rest)%list Ha'); auto.
        -- intros x0 c0 p [<-|H1] H2 H3.
           ++ right. apply in_or_app. left. apply in_rev.
              rewrite rev_involutive. congruence.
           ++ destruct (Hcl x0 c0 p H1 H2 H3) as [H|[<-|H]].
              ** left. now right.
              ** left. now left.
              ** right. apply in_or_app. now right.
        -- destruct Hx as [Hx|[[<-|Hx] Hne]].
           ++ left. now right.
           ++ left. now left.
           ++ right. split; [apply in_or_app; now right | exact Hne].
      * intros Hit x Hx. apply (IH (cur :: seen) rest Ha'); auto.
        -- intros x0 c0 p [<-|H1] H2 H3; [congruence|].
           destruct (Hcl x0 c0 p H1 H2 H3) as [H|[<-|H]].
           ++ left. now right.
           ++ left. now left.
           ++ now right.
        -- destruct Hx as [Hx|[[<-|Hx] Hne]].
           ++ left. now right.
           ++ left. now left.
           ++ right. now split.
Qed.
End Dfs.

(** [isAncestor(a, d)] holds exactly when [a] is [d] or can be reached from
    [d] through parents. *)
Theorem isAncestor_spec (r : Repo) (a d : string) :
  no_empty_parent r -> a <> "" -> d <> "" ->
  (isAncestor r (Some a) (Some d) = true <-> reachable r d a).
Proof.
  intros Hwf Ha Hd. unfold isAncestor.
  apply nonempty_true in Ha. apply nonempty_true in Hd. rewrite Ha, Hd.
  cbn [negb orb].
  destruct (String.eqb a d) eqn:E.
  - apply String.eqb_eq in E. subst d. split; [constructor | reflexivity].
  - destruct (isAncestor_terminates r a d) as [b Hb]. rewrite Hb.
    destruct b.
    + split; [|reflexivity]. intros _.
      apply (dfs_sound r a d _ _ _) with (2 := Hb).
      intros x [<-|[]]. constructor.
    + split; [discriminate|]. intros Hreach. exfalso.
      apply (dfs_complete r a Hwf _ _ _) with (3 := Hb) (x := d) (y := a); auto.
      right. split; [now left|]. now apply nonempty_true.
Qed.

(** ** Every commit stays listed in commitOrder

    The hypothesis of the push theorem is an invariant of the commands: it
    holds of a new repository and of an empty remote store, and each git
    command that returns keeps it, for the repository and for every
    repository of the remote store.  (When push is left by an exception,
    the commits copied so far are in the remote's [commits] and not yet in
    its [commitOrder]; the statements below say nothing of the store then.) *)

Lemma same_graph_ok (r r' : Repo) : same_graph r r' -> repo_ok r -> repo_ok r'.
Proof. intros [Hc Ho] H. unfold repo_ok. now rewrite Hc, Ho. Qed.

Ltac same_graph_cases :=
  unfold same_graph; cbv zeta; unfold ensureBranchMeta, set_conflicts, fast_forward;
  repeat match goal with
         | |- context [match ?x with _ => _ end] => destruct x
         end;
  cbn; auto.

Lemma gitInit_same_graph r : same_graph r (fst (gitInit r)).
Proof. unfold gitInit. same_graph_cases. Qed.

Lemma gitAdd_same_graph args r : same_graph r (fst (gitAdd args r)).
Proof. unfold gitAdd. same_graph_cases. Qed.

Lemma gitBranch_same_graph args r : same_graph r (fst (gitBranch args r)).
Proof. unfold gitBranch. same_graph_cases. Qed.

Lemma gitCheckout_same_graph args r : same_graph r (fst (gitCheckout args r)).
Proof. unfold gitCheckout. same_graph_cases. Qed.

Lemma gitStash_same_graph args now r : same_graph r (fst (gitStash args now r)).
Proof. unfold gitStash. same_graph_cases. Qed.

Lemma gitReset_same_graph args r : same_graph r (fst (gitReset args r)).
Proof. unfold gitReset. same_graph_cases. Qed.

Lemma order_lists_commits_add (cs : obj Commit) (order : list string) (h : string)
    (c : Commit) :
  order_lists_commits cs order ->
  order_lists_commits (obj_set cs h c) (order ++ [h])%list.
Proof.
  intros H k Hk. rewrite obj_has_set in Hk. apply in_or_app.
  destruct (String.eqb h k) eqn:E.
  - apply String.eqb_eq in E. right. now left.
  - left. now apply H.
Qed.

Lemma gitCommit_ok args h now r : repo_ok r -> repo_ok (fst (gitCommit args h now r)).
Proof.
  intros H. unfold gitCommit. cbv zeta.
  destruct (negb (ok (ensureInitialized r))); [exact H|].
  destruct (negb _); [exact H|].
  destruct (negb (is_nil (merge_conflicts r))); [exact H|].
  unfold repo_ok. cbn.
  destruct (ensureBranchMeta_fields (currentBranch r) r) as (_ & _ & _ & Hc & Ho & _).
  cbv zeta in Hc, Ho. rewrite Hc, Ho. now apply order_lists_commits_add.
Qed.

Lemma gitMerge_ok args h now r : repo_ok r -> repo_ok (fst (gitMerge args h now r)).
Proof.
  intros H. unfold gitMerge. cbv zeta.
  destruct (negb (ok (ensureInitialized r))); [exact H|].
  destruct (isDirty (getStatus r)); [exact H|].
  destruct (first_or_null args) as [tb|]; [|exact H].
  destruct (negb (obj_has (branches r) tb)); [exact H|].
  destruct (negb (truthy (branch_or_null r tb))); [exact H|].
  destruct (negb (truthy (head r))); [exact H|].
  destruct (isAncestor r (head r) (branch_or_null r tb)); [exact H|].
  destruct (isAncestor r (branch_or_null r tb) (head r)); [exact H|].
  destruct (three_way _ _ _ _) as [merged cs].
  destruct (negb (is_nil cs)); [exact H|].
  match goal with
  | |- context [gitCommit ?a ?hh ?n ?x] =>
      pose proof (gitCommit_ok a hh n x H) as Hc;
      destruct (gitCommit a hh n x) as [r5 res5]
  end.
  exact Hc.
Qed.

Lemma gitRevert_ok args h now r : repo_ok r -> repo_ok (fst (gitRevert args h now r)).
Proof.
  intros H. unfold gitRevert. cbv zeta.
  destruct (negb (ok (ensureInitialized r))); [exact H|].
  destruct (nth_truthy 0 args) as [hashArg|]; [|exact H].
  destruct (match resolveHashPrefix r hashArg with
            | Some f => _
            | None => _
            end) as [f|]; [|exact H].
  destruct (match js_read (commits r) f with
            | own c => Some c
            | proto => Some prototype_commit
            | undef => None
            end) as [c|]; [|exact H].
  match goal with
  | |- context [gitCommit ?a ?hh ?n ?x] =>
      pose proof (gitCommit_ok a hh n x H) as Hc;
      destruct (gitCommit a hh n x) as [r5 res5]
  end.
  cbn [fst] in Hc. destruct (ok res5); exact Hc.
Qed.

Lemma pull_step_ok (rcommits : obj Commit) (order : list string) :
  forall acc,
    order_lists_commits (fst acc) (snd acc) ->
    order_lists_commits (fst (fold_left (pull_step rcommits) order acc))
                        (snd (fold_left (pull_step rcommits) order acc)).
Proof.
  induction order as [|h order IH]; intros [cs o] H; [exact H|].
  cbn [fold_left]. apply IH. unfold pull_step.
  destruct (obj_get rcommits h) as [c|]; [|exact H].
  destruct (negb (obj_has cs h)); [|exact H].
  cbn [fst snd] in *. now apply order_lists_commits_add.
Qed.

Lemma gitPull_ok args ctx h now r :
  repo_ok r -> repo_ok (fst (gitPull args ctx h now r)).
Proof.
  intros H. unfold gitPull. cbv zeta.
  destruct (negb (ok (ensureInitialized r))); [exact H|].
  destruct ctx as [store|]; [|exact H].
  destruct (isDirty (getStatus r)); [exact H|].
  destruct (js_read (remotes r) _) as [rm| |]; [| |exact H];
    (destruct (getRepo store _) as [remoteRepo| |]; [|exact H|exact H]).
  all: destruct (negb (truthy _)); [exact H|].
  all: pose proof (pull_step_ok (remote_commits remoteRepo)
                     (remote_commitOrder remoteRepo) (commits r, commitOrder r) H)
         as Hp.
  all: destruct (fold_left _ _ _) as [cs order]; cbn [fst snd] in Hp.
  all: destruct (negb (truthy _) || isAncestor _ _ _)%bool; [exact Hp|].
  all: destruct (isAncestor _ _ _); [exact Hp|].
  all: match goal with
       | |- context [gitMerge ?a ?hh ?n ?x] =>
           pose proof (gitMerge_ok a hh n x Hp) as Hm;
           destruct (gitMerge a hh n x) as [r3 res3]
       end.
  all: exact Hm.
Qed.

Lemma ensureRepo_ok (store store1 : RemoteStore) (u key : string) :
  store_ok store -> ensureRepo store u = Some (store1, key) -> store_ok store1.
Proof.
  intros H. unfold ensureRepo.
  destruct (negb (nonempty (trim u))); [discriminate|].
  destruct (js_defined (byUrl store) (trim u)); intros E; injection E as <- <-; auto.
  intros k rr. cbn [byUrl].
  destruct (String.string_dec (trim u) k) as [<-|Hne].
  - rewrite obj_get_set_eq. intros E. injection E as <-. intros h Hh. discriminate.
  - rewrite obj_get_set_neq by assumption. apply H.
Qed.

Lemma gitRemote_ok args ctx r :
  repo_ok r -> ctx_ok ctx ->
  repo_ok (fst (fst (gitRemote args ctx r))) /\ ctx_ok (snd (fst (gitRemote args ctx r))).
Proof.
  intros H Hc. unfold gitRemote. cbv zeta.
  destruct (negb (ok (ensureInitialized r))); [now split|].
  destruct ctx as [store|]; [|now split].
  destruct (nth_truthy 0 args) as [sub|]; [|now split].
  destruct (String.eqb sub "-v"); [now split|].
  destruct (String.eqb sub "add"); [|now split].
  destruct (nth_truthy 1 args) as [name|]; [|now split].
  destruct (nth_truthy 2 args) as [u|]; [|now split].
  destruct (js_defined (remotes r) name); [now split|].
  destruct (ensureRepo store u) as [[store' key]|] eqn:E; [|now split].
  split; [exact H|]. cbn. eapply ensureRepo_ok; eauto.
Qed.

Lemma store_ok_set (store : RemoteStore) (key : string) (rr : RemoteRepo) :
  store_ok store ->
  order_lists_commits (remote_commits rr) (remote_commitOrder rr) ->
  store_ok {| byUrl := obj_set (byUrl store) key rr |}.
Proof.
  intros H Hrr k rr'. cbn [byUrl].
  destruct (String.string_dec key k) as [<-|Hne].
  - rewrite obj_get_set_eq. intros E. now injection E as <-.
  - rewrite obj_get_set_neq by assumption. apply H.
Qed.

Lemma push_commits_keys (local : obj Commit) (order : list string) :
  forall (rc rc' : obj Commit) (threw : bool) (h : string),
    push_commits local order rc = (rc', threw) ->
    obj_has rc' h = true -> obj_has rc h = true \/ In h order.
Proof.
  induction order as [|h0 order IH]; intros rc rc' threw h H Hh; cbn in H.
  - injection H as <- _. now left.
  - destruct (negb (obj_has rc h0)).
    + destruct (obj_get local h0) as [c|].
      * destruct (IH _ _ _ _ H Hh) as [H1|H1]; [|right; now right].
        rewrite obj_has_set in H1. apply Bool.orb_true_iff in H1.
        destruct H1 as [H1|H1]; [|now left].
        apply String.eqb_eq in H1. right. now left.
      * injection H as <- _. now left.
    + destruct (IH _ _ _ _ H Hh) as [H1|H1]; [now left | right; now right].
Qed.

Lemma push_order_In (localOrder remoteOrder : list string) (h : string) :
  In h remoteOrder \/ In h localOrder -> In h (push_order localOrder remoteOrder).
Proof.
  unfold push_order. intros [H|H]; apply in_or_app; [now left|].
  destruct (mem h (set_of remoteOrder)) eqn:E.
  - left. now apply set_of_In, mem_In.
  - right. apply filter_In. split; [exact H | now rewrite E].
Qed.

Lemma gitPush_ok args ctx r :
  repo_ok r -> ctx_ok ctx ->
  repo_ok (fst (fst (gitPush args ctx r))) /\
  (returns (snd (gitPush args ctx r)) -> ctx_ok (snd (fst (gitPush args ctx r)))).
Proof.
  intros H Hc. unfold gitPush. cbv zeta.
  destruct (negb (ok (ensureInitialized r))); [now split|].
  destruct ctx as [store|]; [|now split].
  destruct (js_read (remotes r) _) as [rm| |]; [|now split|now split].
  destruct (ensureRepo store (url rm)) as [[store1 key]|] eqn:E; [|now split].
  pose proof (ensureRepo_ok _ _ _ _ Hc E) as H1.
  destruct (negb (truthy _)); [now split|].
  destruct (obj_get (byUrl store1) key) as [remoteRepo|] eqn:Ek;
    [|split; [exact H | intros []]].
  assert (Hrr : order_lists_commits (remote_commits remoteRepo)
                  (remote_commitOrder remoteRepo)).
  { eapply H1; eauto. }
  destruct (push_commits (commits r) (commitOrder r) (remote_commits remoteRepo))
    as [rc threw] eqn:Ep.
  destruct threw.
  - split; [exact H | intros []].
  - split.
    + destruct (existsb is_upstream_flag args); exact H.
    + intros _. cbn [fst snd]. apply store_ok_set; [exact H1|].
      cbn [remote_commits remote_commitOrder]. intros h Hh.
      apply push_order_In.
      destruct (push_commits_keys _ _ _ _ _ h Ep Hh) as [Hk|Hk]; auto.
Qed.

Lemma gitClone_ok args ctx r :
  repo_ok r -> ctx_ok ctx ->
  repo_ok (fst (fst (gitClone args ctx r))) /\ ctx_ok (snd (fst (gitClone args ctx r))).
Proof.
  intros H Hc. unfold gitClone. cbv zeta.
  destruct ctx as [store|]; [|now split].
  destruct (nth_truthy 0 args) as [u|]; [|now split].
  destruct (ensureRepo store u) as [[store1 key]|] eqn:E; [|now split].
  pose proof (ensureRepo_ok _ _ _ _ Hc E) as H1.
  destruct (obj_get (byUrl store1) key) eqn:Ek.
  - split; [|exact H1]. unfold repo_ok. cbn. unfold deepCopy. eapply H1; eauto.
  - split; [|exact H1]. intros h Hh. discriminate.
Qed.

Lemma repo_ok_reset : repo_ok reset.
Proof. intros h Hh. discriminate. Qed.

Lemma store_ok_empty : store_ok empty_store.
Proof. intros u rr Hu. discriminate. Qed.

(** X4. Every git command keeps the invariant of the repository, and, when it
    returns, that of the remote store. *)
Theorem runGit_ok (line : string) (ctx : option RemoteStore) (env : Env) (r : Repo) :
  repo_ok r -> ctx_ok ctx ->
  repo_ok (fst (fst (runGit line ctx env r))) /\
  (returns (snd (runGit line ctx env r)) -> ctx_ok (snd (fst (runGit line ctx env r)))).
Proof.
  intros H Hc. unfold runGit. cbv zeta.
  destruct (nth_truthy 1 (splitArgs line)) as [sub|]; [|now split].
  unfold returned.
  repeat match goal with
         | |- context [if String.eqb sub ?s then _ else _] =>
             destruct (String.eqb sub s)
         end;
    cbn [fst snd]; try (split; [|intros _; exact Hc]).
  - apply (same_graph_ok r); [apply gitInit_same_graph | exact H].
  - now rewrite gitStatus_atomic.
  - apply (same_graph_ok r); [apply gitAdd_same_graph | exact H].
  - now apply gitCommit_ok.
  - now rewrite gitLog_atomic.
  - apply (same_graph_ok r); [apply gitBranch_same_graph | exact H].
  - apply (same_graph_ok r); [apply gitCheckout_same_graph | exact H].
  - now apply gitMerge_ok.
  - destruct (gitRemote_ok (skipn 2 (splitArgs line)) ctx r H Hc). now split.
  - now apply gitPush_ok.
  - now apply gitPull_ok.
  - destruct (gitClone_ok (skipn 2 (splitArgs line)) ctx r H Hc). now split.
  - apply (same_graph_ok r); [apply gitStash_same_graph | exact H].
  - apply (same_graph_ok r); [apply gitReset_same_graph | exact H].
  - now apply gitRevert_ok.
  - exact H.
Qed.

(** * Further properties of the git subset *)

(** ** isAncestor *)

Lemma reachable_trans (r : Repo) (x y z : string) :
  reachable r x y -> reachable r y z -> reachable r x z.
Proof.
  intros H. induction H as [h | h p h' c Hc Hp _ IH]; intros Hz; auto.
  eapply reachable_parent; eauto.
Qed.

Lemma obj_get_In {V : Type} (o : obj V) (k : string) (v : V) :
  obj_get o k = Some v -> In (k, v) o.
Proof.
  induction o as [|[k' v'] t IH]; cbn; [discriminate|].
  destruct (String.eqb k' k) eqn:E.
  - apply String.eqb_eq in E. intros H. injection H as <-. subst. now left.
  - intros H. right. now apply IH.
Qed.

(** X1. [isAncestor(a, d)] is true exactly when both hashes are non-empty
    strings and [a] is [d] or is reached from [d] through parent links of
    commits that exist; a null hash, an empty one, or a chain broken by a
    missing commit gives false. *)
Theorem isAncestor_decides_reachability (r : Repo) (a d : option string) :
  no_empty_parent r ->
  (isAncestor r a d = true
   <-> exists ha hd, a = Some ha /\ d = Some hd /\ ha <> "" /\ hd <> ""
                     /\ reachable r hd ha).
Proof.
  intros Hwf. split.
  - intros H. destruct (isAncestor_truthy r a d H) as [Ha Hd].
    destruct a as [ha|]; [|discriminate]. destruct d as [hd|]; [|discriminate].
    cbn in Ha, Hd. apply nonempty_true in Ha. apply nonempty_true in Hd.
    exists ha, hd. repeat split; auto. now apply isAncestor_spec.
  - intros (ha & hd & -> & -> & Ha & Hd & Hr). now apply isAncestor_spec.
Qed.

Lemma no_empty_parent_lesson4 : no_empty_parent lesson4.
Proof.
  intros h c Hc. apply obj_get_In in Hc.
  assert (E : commits lesson4
              = [(h1, {| hash := h1; message := "Add config"; parents := [];
                         timestamp := 0; files := [("/config.txt", "color=blue" ++ nl)];
                         lane := 0; branch := "main" |});
                 (h2, {| hash := h2; message := "Theme: green"; parents := [h1];
                         timestamp := 1; files := [("/config.txt", "color=green" ++ nl)];
                         lane := 1; branch := "feature/theme" |});
                 (h3, {| hash := h3; message := "Theme: red"; parents := [h1];
                         timestamp := 2; files := [("/config.txt", "color=red" ++ nl)];
                         lane := 0; branch := "main" |})])
    by (vm_compute; reflexivity).
  rewrite E in Hc. cbn [In] in Hc.
  destruct Hc as [Hc|[Hc|[Hc|[]]]]; injection Hc as <- <-; cbn;
    intuition discriminate.
Qed.

Lemma isAncestor_decides_reachability_witness :
  no_empty_parent lesson4 /\
  (isAncestor lesson4 (Some h1) (Some h3) = true
   <-> exists ha hd, Some h1 = Some ha /\ Some h3 = Some hd /\ ha <> "" /\ hd <> ""
                     /\ reachable lesson4 hd ha).
Proof.
  split; [exact no_empty_parent_lesson4|].
  exact (isAncestor_decides_reachability lesson4 (Some h1) (Some h3)
           no_empty_parent_lesson4).
Defined.

(** X2. [isAncestor] is reflexive on non-empty hashes, also for a hash that has
    no commit, and transitive. *)
Theorem isAncestor_preorder (r : Repo) (a b c : string) :
  no_empty_parent r ->
  (a <> "" -> isAncestor r (Some a) (Some a) = true) /\
  (isAncestor r (Some a) (Some b) = true ->
   isAncestor r (Some b) (Some c) = true ->
   isAncestor r (Some a) (Some c) = true).
Proof.
  intros Hwf. split.
  - intros Ha. unfold isAncestor. apply nonempty_true in Ha.
    now rewrite Ha, String.eqb_refl.
  - intros Hab Hbc.
    destruct (isAncestor_truthy _ _ _ Hab) as [Ha Hb].
    destruct (isAncestor_truthy _ _ _ Hbc) as [_ Hc].
    cbn in Ha, Hb, Hc.
    apply nonempty_true in Ha. apply nonempty_true in Hb. apply nonempty_true in Hc.
    apply isAncestor_spec in Hab; auto. apply isAncestor_spec in Hbc; auto.
    apply isAncestor_spec; auto. eapply reachable_trans; eauto.
Qed.

Lemma isAncestor_preorder_witness :
  no_empty_parent lesson4 /\
  isAncestor lesson4 (Some h1) (Some h1) = true /\
  (isAncestor lesson4 (Some h1) (Some h1) = true ->
   isAncestor lesson4 (Some h1) (Some h3) = true ->
   isAncestor lesson4 (Some h1) (Some h3) = true).
Proof.
  destruct (isAncestor_preorder lesson4 h1 h1 h3 no_empty_parent_lesson4) as [H1 H2].
  split; [exact no_empty_parent_lesson4|].
  split; [apply H1; discriminate | exact H2].
Defined.

(** X3. The walks over the commit graph ([isAncestor], the two loops of
    [findCommonAncestor], [git log]) end on every graph, cyclic or with
    missing commits: each visits a commit at most once. *)
Theorem graph_walks_terminate (r : Repo) (a d : string) (dist : obj nat)
    (oneline : bool) (fmtDate : Z -> string) :
  (exists b, iter (isAncestor_body r a) (graph_fuel r) ([], [d]) = Some b) /\
  (exists m, iter (dist_body r) (graph_fuel r) ([], [(a, 0)]) = Some m) /\
  (exists res, iter (best_body r dist) (graph_fuel r)
                 {| best := None; bestD := None; seen2 := []; queue2 := [(d, 0)] |}
               = Some res) /\
  (exists out, iter (gitLog_body r oneline fmtDate) (2 + List.length (commits r))
                 {| log_cur := head r; log_seen := []; log_out := [] |} = Some out).
Proof.
  split; [apply isAncestor_terminates|].
  split; [apply dist_terminates|].
  split; [apply best_terminates | apply gitLog_terminates].
Qed.

(** ** Invariant, round trip and failures *)

Lemma repo_ok_lesson3_with_remote : repo_ok lesson3_with_remote.
Proof.
  assert (Ec : commits lesson3_with_remote = [(h1, lesson3_root)])
    by (vm_compute; reflexivity).
  assert (Eo : commitOrder lesson3_with_remote = [h1]) by (vm_compute; reflexivity).
  unfold repo_ok, order_lists_commits. rewrite Ec, Eo. intros h H.
  unfold obj_has in H. cbn [obj_get] in H.
  destruct (String.eqb h1 h) eqn:E; [|discriminate].
  apply String.eqb_eq in E. now left.
Qed.

Lemma store_ok_with_origin : store_ok store_with_origin.
Proof.
  intros u rr Hu. apply obj_get_In in Hu. destruct Hu as [Hu|[]].
  injection Hu as _ <-. intros h Hh. discriminate.
Qed.

Lemma runGit_ok_witness :
  (repo_ok lesson3_with_remote /\ ctx_ok (Some store_with_origin)) /\
  repo_ok (fst (fst (runGit "git push -u origin main" (Some store_with_origin) env0
                       lesson3_with_remote))).
Proof.
  split; [split; [exact repo_ok_lesson3_with_remote | exact store_ok_with_origin]|].
  exact (proj1 (runGit_ok "git push -u origin main" (Some store_with_origin) env0
                  lesson3_with_remote repo_ok_lesson3_with_remote
                  store_ok_with_origin)).
Defined.

Lemma deserialize_serialize_born_witness :
  (obj_has (branches lesson3) "main" = true /\
   obj_has (branchMeta lesson3) "main" = true /\
   is_true_at (directories lesson3) "/" = true /\
   truthy (head lesson3) = true) /\
  deserialize (Some (serialize lesson3)) = set_lastEvent None lesson3.
Proof.
  assert (H1 : obj_has (branches lesson3) "main" = true) by (vm_compute; reflexivity).
  assert (H2 : obj_has (branchMeta lesson3) "main" = true) by (vm_compute; reflexivity).
  assert (H3 : is_true_at (directories lesson3) "/" = true) by (vm_compute; reflexivity).
  assert (H4 : truthy (head lesson3) = true) by (vm_compute; reflexivity).
  split; [repeat split; assumption|].
  exact (deserialize_serialize_born lesson3 H1 H2 H3 H4).
Defined.

Lemma gitRemote_failure_atomic args ctx r res :
  snd (gitRemote args ctx r) = Returned res -> ok res = false ->
  fst (gitRemote args ctx r) = (r, ctx).
Proof.
  unfold gitRemote. cbv zeta.
  repeat match goal with
         | |- context [match ?x with _ => _ end] => destruct x eqn:?
         end;
    cbn; intros H Hok; try reflexivity; try discriminate.
  injection H as <-. discriminate.
Qed.

(** X6. A failing [status], [commit], [log], [branch], [checkout], [stash],
    [reset] or [remote] command leaves the repository and the remote store
    exactly as they were: these commands test everything before they
    assign. *)
Theorem validating_commands_fail_atomically (line : string) (ctx : option RemoteStore)
    (env : Env) (r : Repo) (sub : string) (res : Result) :
  nth_error (splitArgs line) 1 = Some sub ->
  In sub ["status"; "commit"; "log"; "branch"; "checkout"; "stash"; "reset"; "remote"] ->
  snd (runGit line ctx env r) = Returned res ->
  ok res = false ->
  fst (runGit line ctx env r) = (r, ctx).
Proof.
  intros Hsub Hin. unfold runGit, nth_truthy. rewrite Hsub.
  cbn [In] in Hin.
  repeat (destruct Hin as [<- | Hin];
          [cbn [nonempty String.eqb Ascii.eqb Bool.eqb negb]; unfold returned;
           cbn [fst snd]; intros H Hok;
           first [ injection H as H; rewrite <- H in Hok |  idtac ] |]);
    try contradiction.
  - now rewrite gitStatus_atomic.
  - now rewrite gitCommit_failure_atomic.
  - now rewrite gitLog_atomic.
  - now rewrite gitBranch_failure_atomic.
  - now rewrite gitCheckout_failure_atomic.
  - now rewrite gitStash_failure_atomic.
  - now rewrite gitReset_failure_atomic.
  - now apply (gitRemote_failure_atomic _ _ _ res).
Qed.

Lemma validating_commands_fail_atomically_witness :
  (nth_error (splitArgs "git checkout nosuch") 1 = Some "checkout" /\
   snd (runGit "git checkout nosuch" None env0 lesson3)
   = Returned (failure [] ["error: pathspec 'nosuch' did not match any branch"])) /\
  fst (runGit "git checkout nosuch" None env0 lesson3) = (lesson3, None).
Proof.
  assert (H1 : nth_error (splitArgs "git checkout nosuch") 1 = Some "checkout")
    by (vm_compute; reflexivity).
  assert (H2 : snd (runGit "git checkout nosuch" None env0 lesson3)
               = Returned (failure [] ["error: pathspec 'nosuch' did not match any branch"]))
    by (vm_compute; reflexivity).
  split; [split; assumption|].
  apply (validating_commands_fail_atomically "git checkout nosuch" None env0 lesson3
           "checkout"
           (failure [] ["error: pathspec 'nosuch' did not match any branch"]) H1);
    [cbn; tauto | exact H2 | reflexivity].
Defined.

(** ** A working tree equal to HEAD is clean *)

Lemma opt_eqb_refl (a : option string) : opt_eqb a a = true.
Proof. now apply opt_eqb_eq. Qed.

Lemma status_step_synced (r : Repo) (a : StatusAcc) (p : string) :
  workingFiles r = getHeadSnapshot r -> stagedFiles r = [] -> merge_conflicts r = [] ->
  status_step r a p = a.
Proof.
  intros Hw Hs Hc. unfold status_step. rewrite Hs, Hc, Hw.
  cbn [set_of fold_left mem existsb obj_has obj_get].
  fold (obj_has (getHeadSnapshot r) p).
  rewrite opt_eqb_refl.
  destruct (obj_has (getHeadSnapshot r) p); reflexivity.
Qed.

Lemma synced_clean (r : Repo) :
  workingFiles r = getHeadSnapshot r -> stagedFiles r = [] -> merge_conflicts r = [] ->
  isDirty (getStatus r) = false.
Proof.
  intros Hw Hs Hc. unfold getStatus. cbn [isDirty].
  assert (E : forall l a, fold_left (status_step r) l a = a).
  { induction l as [|p l IH]; intros a; [reflexivity|].
    cbn [fold_left]. rewrite (status_step_synced r a p Hw Hs Hc). apply IH. }
  rewrite E, Hs, Hc. reflexivity.
Qed.


Lemma getSnapshot_commits (r r' : Repo) (h : option string) :
  commits r' = commits r -> getSnapshot r' h = getSnapshot r h.
Proof. intros E. unfold getSnapshot. now rewrite E. Qed.

(** ** checkout *)

(** X7. A successful [git checkout B] makes B the current branch, replaces the
    working tree with the snapshot of B's head (empty for an unborn branch),
    clears the index and the merge state, moves no branch and keeps every
    commit; the status is clean afterwards. *)
Theorem gitCheckout_switch_spec (r : Repo) (name : string) (rest : list string) :
  initialized r = true ->
  isDirty (getStatus r) = false ->
  name <> "-b" ->
  obj_has (branches r) name = true ->
  let r' := fst (gitCheckout (name :: rest) r) in
  snd (gitCheckout (name :: rest) r) = success ["Switched to branch '" ++ name ++ "'"] /\
  currentBranch r' = name /\
  workingFiles r' = getSnapshot r (branch_or_null r name) /\
  stagedFiles r' = [] /\
  mergeState r' = None /\
  branches r' = branches r /\
  commits r' = commits r /\
  commitOrder r' = commitOrder r /\
  isDirty (getStatus r') = false.
Proof.
  intros Hinit Hclean Hb Hbr. cbv zeta. unfold gitCheckout.
  rewrite (ensureInitialized_ok r Hinit), Hclean. cbn [negb].
  apply String.eqb_neq in Hb. unfold js_defined. rewrite Hb, Hbr.
  cbn [orb negb fst snd].
  destruct (ensureBranchMeta_fields name (set_currentBranch name r))
    as (_ & _ & _ & Hcm & Hco & Hbs & Hcb & _).
  cbv zeta in Hcm, Hco, Hbs, Hcb. cbn in Hcm, Hco, Hbs, Hcb.
  assert (Hsnap : getHeadSnapshot (ensureBranchMeta name (set_currentBranch name r))
                  = getSnapshot r (branch_or_null r name)).
  { unfold getHeadSnapshot, head, branch_or_null. rewrite Hbs, Hcb.
    now apply getSnapshot_commits. }
  split; [reflexivity|]. split; [exact Hcb|].
  split; [exact Hsnap|]. split; [reflexivity|]. split; [reflexivity|].
  split; [exact Hbs|]. split; [exact Hcm|]. split; [exact Hco|].
  apply synced_clean; reflexivity.
Qed.

Lemma gitCheckout_switch_spec_witness :
  (initialized lesson4 = true /\ isDirty (getStatus lesson4) = false /\
   "feature/theme" <> "-b" /\ obj_has (branches lesson4) "feature/theme" = true) /\
  let r' := fst (gitCheckout ["feature/theme"] lesson4) in
  currentBranch r' = "feature/theme" /\
  workingFiles r' = getSnapshot lesson4 (branch_or_null lesson4 "feature/theme").
Proof.
  assert (H1 : initialized lesson4 = true) by (vm_compute; reflexivity).
  assert (H2 : isDirty (getStatus lesson4) = false) by (vm_compute; reflexivity).
  assert (H3 : "feature/theme" <> "-b") by discriminate.
  assert (H4 : obj_has (branches lesson4) "feature/theme" = true)
    by (vm_compute; reflexivity).
  pose proof (gitCheckout_switch_spec lesson4 "feature/theme" [] H1 H2 H3 H4) as H.
  cbv zeta in H. destruct H as (_ & Ha & Hb & _).
  split; [repeat split; assumption|]. split; [exact Ha | exact Hb].
Defined.

(** ** Creating a branch *)



(** ** reset --hard, in general *)

Lemma filter_singleton_unique {A : Type} (f : A -> bool) (l : list A) (m : A) :
  filter f l = [m] -> In m l /\ f m = true /\ forall k, In k l -> f k = true -> k = m.
Proof.
  intros E.
  assert (Hm : In m (filter f l)) by (rewrite E; now left).
  apply filter_In in Hm. destruct Hm as [Hin Hf]. repeat split; auto.
  intros k Hk Hfk.
  assert (Hk' : In k (filter f l)) by (apply filter_In; auto).
  rewrite E in Hk'. destruct Hk' as [<-|[]]. reflexivity.
Qed.

(** X9. A hash prefix resolves only to a commit that exists, whose hash starts
    with the prefix (letter case apart), and that is the only such commit:
    an empty or ambiguous prefix resolves to nothing. *)
Theorem resolveHashPrefix_unique (r : Repo) (prefix full : string) :
  resolveHashPrefix r prefix = Some full ->
  prefix <> "" /\
  obj_has (commits r) full = true /\
  startsWith (toLowerCase full) (toLowerCase prefix) = true /\
  (forall h, obj_has (commits r) h = true ->
             startsWith (toLowerCase h) (toLowerCase prefix) = true -> h = full).
Proof.
  unfold resolveHashPrefix.
  destruct (nonempty (toLowerCase prefix)) eqn:En; cbn [negb]; [|discriminate].
  destruct (filter _ (obj_keys (commits r))) as [|m [|m' l]] eqn:Ef; try discriminate.
  intros H. injection H as <-.
  destruct (filter_singleton_unique _ _ _ Ef) as (Hin & Hf & Hu).
  split.
  - intros ->. discriminate.
  - split; [now apply obj_has_In|]. split; [exact Hf|].
    intros h Hh Hs. apply Hu; [now apply obj_has_In | exact Hs].
Qed.

Lemma resolveHashPrefix_unique_witness :
  resolveHashPrefix lesson4 "2B" = Some h2 /\
  "2B" <> "" /\ obj_has (commits lesson4) h2 = true.
Proof.
  assert (H : resolveHashPrefix lesson4 "2B" = Some h2) by (vm_compute; reflexivity).
  destruct (resolveHashPrefix_unique lesson4 "2B" h2 H) as (Ha & Hb & _).
  split; [exact H | split; [exact Ha | exact Hb]].
Defined.



(** ** stash and pop *)

(** X11. On a dirty initialized repository, [git stash] leaves a clean tree equal
    to the HEAD snapshot with an empty index, and [git stash pop] right after
    it brings back exactly the working tree, the index and the stash stack of
    before; the merge state does not come back (both set it to null), and
    neither command moves a branch or touches a commit. *)
Theorem gitStash_round_trip (r : Repo) (args : list string) (now now' : Z) :
  initialized r = true ->
  isDirty (getStatus r) = true ->
  hd_error args <> Some "pop" ->
  let r1 := fst (gitStash args now r) in
  let r2 := fst (gitStash ["pop"] now' r1) in
  ok (snd (gitStash args now r)) = true /\
  workingFiles r1 = getHeadSnapshot r /\
  stagedFiles r1 = [] /\
  isDirty (getStatus r1) = false /\
  ok (snd (gitStash ["pop"] now' r1)) = true /\
  workingFiles r2 = workingFiles r /\
  stagedFiles r2 = stagedFiles r /\
  stash r2 = stash r /\
  mergeState r2 = None /\
  branches r2 = branches r /\ currentBranch r2 = currentBranch r /\
  commits r2 = commits r.
Proof.
  intros Hinit Hdirty Hargs. cbv zeta.
  assert (E : fst (gitStash args now r)
              = set_lastEvent (Some git_stash)
                  (set_mergeState None
                     (set_stagedFiles []
                        (set_workingFiles (getHeadSnapshot r)
                           (set_stash
                              ({| stash_message :=
                                    "WIP on " ++ currentBranch r ++ ": "
                                      ++ shortHash (head r) ++ " (simulated)";
                                  stash_workingFiles := workingFiles r;
                                  stash_stagedFiles := stagedFiles r;
                                  createdAt := now |} :: stash r) r))))
              /\ ok (snd (gitStash args now r)) = true).
  { unfold gitStash. rewrite (ensureInitialized_ok r Hinit), Hdirty. cbn [negb].
    destruct args as [|a0 args']; [split; reflexivity|].
    destruct (String.eqb a0 "pop") eqn:Ea.
    - apply String.eqb_eq in Ea. subst a0. now contradiction Hargs.
    - split; reflexivity. }
  destruct E as [E Eok]. rewrite E.
  split; [exact Eok|]. split; [reflexivity|]. split; [reflexivity|].
  split; [apply synced_clean; reflexivity|].
  unfold gitStash, ensureInitialized.
  cbn [initialized set_lastEvent set_mergeState set_stagedFiles set_workingFiles
       set_stash stash negb ok hd_error].
  rewrite Hinit. cbn [negb ok]. rewrite String.eqb_refl.
  cbn [fst snd ok]. repeat split.
Qed.

Lemma gitStash_round_trip_witness :
  let r := write_file "/NOTES.md" "WIP" lesson3 in
  (initialized r = true /\ isDirty (getStatus r) = true /\
   hd_error (@nil string) <> Some "pop") /\
  workingFiles (fst (gitStash ["pop"] 6 (fst (gitStash [] 5 r)))) = workingFiles r.
Proof.
  cbv zeta.
  assert (H1 : initialized (write_file "/NOTES.md" "WIP" lesson3) = true)
    by (vm_compute; reflexivity).
  assert (H2 : isDirty (getStatus (write_file "/NOTES.md" "WIP" lesson3)) = true)
    by (vm_compute; reflexivity).
  assert (H3 : hd_error (@nil string) <> Some "pop") by discriminate.
  pose proof (gitStash_round_trip (write_file "/NOTES.md" "WIP" lesson3) [] 5 6
                H1 H2 H3) as H.
  cbv zeta in H. destruct H as (_ & _ & _ & _ & _ & Ha & _).
  split; [repeat split; assumption | exact Ha].
Defined.

(** ** commit and the working tree *)

(* what a successful commit leaves *)
Lemma gitCommit_success (args : list string) (newHash : string) (now : Z) (r : Repo) :
  ok (snd (gitCommit args newHash now r)) = true ->
  let r' := fst (gitCommit args newHash now r) in
  exists c,
    commits r' = obj_set (commits r) newHash c /\
    hash c = newHash /\
    files c = apply_staged (getHeadSnapshot r) (stagedFiles r) /\
    parents c = commit_parents r /\
    commitOrder r' = (commitOrder r ++ [newHash])%list /\
    branches r' = obj_set (branches r) (currentBranch r) (Some newHash) /\
    currentBranch r' = currentBranch r /\
    workingFiles r' = apply_staged (workingFiles r) (stagedFiles r) /\
    stagedFiles r' = [] /\
    mergeState r' = None /\
    stash r' = stash r /\
    initialized r' = initialized r.
Proof.
  cbv zeta. unfold gitCommit. cbv zeta.
  destruct (ok (ensureInitialized r)) eqn:Ei; cbn [negb];
    [|cbn [snd]; rewrite Ei; discriminate].
  destruct (negb _); [discriminate|].
  destruct (negb (is_nil (merge_conflicts r))); [discriminate|].
  intros _. cbn [fst].
  destruct (ensureBranchMeta_fields (currentBranch r) r)
    as (Hi & Hw & Hst & Hcm & Hco & Hbr & Hcb & _ & Hsh & _).
  cbv zeta in Hi, Hw, Hst, Hcm, Hco, Hbr, Hcb, Hsh.
  eexists. cbn. rewrite Hcm, Hco, Hbr, Hcb, Hw, Hst, Hsh, Hi.
  repeat split.
Qed.

Lemma getHeadSnapshot_at (r : Repo) (h : string) (c : Commit) :
  head r = Some h -> h <> "" -> obj_get (commits r) h = Some c ->
  getHeadSnapshot r = files c.
Proof.
  intros Hh Hn Hc. unfold getHeadSnapshot, getSnapshot.
  rewrite Hh, (truthy_Some h Hn), Hc. reflexivity.
Qed.

Lemma head_of_branches (r : Repo) (bs : obj (option string)) (h : option string) :
  branches r = obj_set bs (currentBranch r) h -> head r = h.
Proof. intros E. unfold head. rewrite E. now rewrite obj_get_set_eq. Qed.



(** ** Conflict-free three-way merges *)

Lemma is_conflict_sym (b o t : option string) : is_conflict b o t = is_conflict b t o.
Proof.
  unfold is_conflict.
  assert (E : opt_eqb o t = opt_eqb t o).
  { destruct (opt_eqb o t) eqn:E1, (opt_eqb t o) eqn:E2; auto.
    - apply opt_eqb_eq in E1. subst. now rewrite opt_eqb_refl in E2.
    - apply opt_eqb_eq in E2. subst. now rewrite opt_eqb_refl in E1. }
  rewrite E. destruct (opt_eqb t o), (opt_eqb o b), (opt_eqb t b); reflexivity.
Qed.

Lemma merge_result_sym (b o t : option string) (tb tb' : string) :
  is_conflict b o t = false -> merge_result b o t tb = merge_result b t o tb'.
Proof.
  unfold is_conflict, merge_result.
  destruct (opt_eqb o t) eqn:E1.
  - apply opt_eqb_eq in E1. subst. now rewrite opt_eqb_refl.
  - assert (E1' : opt_eqb t o = false).
    { destruct (opt_eqb t o) eqn:E; auto. apply opt_eqb_eq in E. subst.
      now rewrite opt_eqb_refl in E1. }
    rewrite E1'.
    destruct (opt_eqb o b) eqn:E2, (opt_eqb t b) eqn:E3; cbn; try discriminate; auto.
    apply opt_eqb_eq in E2. apply opt_eqb_eq in E3. subst.
    now rewrite opt_eqb_refl in E1.
Qed.

(** X13. The three-way merge does not depend on which side is "ours": swapping
    the two sides gives the same conflicting paths, and the same content at
    every path that does not conflict.  (The conflict buffers differ: they
    name the sides.) *)
Theorem three_way_symmetric (base ours theirs : obj string) (tb tb' q : string) :
  (In q (snd (three_way base ours theirs tb))
   <-> In q (snd (three_way base theirs ours tb'))) /\
  (~ In q (snd (three_way base ours theirs tb)) ->
   obj_get (fst (three_way base ours theirs tb)) q
   = obj_get (fst (three_way base theirs ours tb')) q).
Proof.
  split.
  - rewrite !three_way_conflicts. now rewrite is_conflict_sym.
  - intros H. rewrite !three_way_get. apply merge_result_sym.
    destruct (is_conflict (obj_get base q) (obj_get ours q) (obj_get theirs q)) eqn:E;
      [|reflexivity].
    exfalso. apply H. now apply three_way_conflicts.
Qed.

Lemma overlay_stage_all_old (work old : obj string) (q : string) :
  NoDup (obj_keys work) ->
  overlay old (stage_all work old []) q = obj_get work q.
Proof.
  intros Hnd. unfold overlay, stage_all.
  rewrite fold_stage_deletions_get, (fold_stage_get work Hnd).
  unfold obj_has. destruct (obj_get work q) eqn:E; cbn [negb].
  - now rewrite Bool.andb_false_r.
  - rewrite Bool.andb_true_r. destruct (mem q (obj_keys old)) eqn:Em; [reflexivity|].
    cbn [obj_get]. apply obj_get_notin. now apply mem_false_In.
Qed.

Lemma stage_all_nonempty (work old : obj string) :
  NoDup (obj_keys work) -> old <> [] -> stage_all work old [] <> [].
Proof.
  intros Hnd Ho E. destruct old as [|[k v] t]; [congruence|].
  assert (H : obj_get (stage_all work ((k, v) :: t) []) k = None)
    by (rewrite E; reflexivity).
  unfold stage_all in H.
  rewrite fold_stage_deletions_get, (fold_stage_get work Hnd) in H.
  cbn [obj_keys map fst] in H. rewrite mem_cons, String.eqb_refl in H.
  unfold obj_has in H. destruct (obj_get work k); cbn in H; discriminate.
Qed.

Lemma stage_all_nonempty_work (work old : obj string) :
  NoDup (obj_keys work) -> work <> [] -> stage_all work old [] <> [].
Proof.
  intros Hnd Hw E. destruct work as [|[k v] t]; [congruence|].
  assert (H : obj_get (stage_all ((k, v) :: t) old []) k = None)
    by (rewrite E; reflexivity).
  unfold stage_all in H.
  rewrite fold_stage_deletions_get, (fold_stage_get _ Hnd) in H.
  cbn [obj_get] in H. rewrite String.eqb_refl in H.
  destruct (mem k (obj_keys old) && negb (obj_has ((k, v) :: t) k))%bool;
    discriminate.
Qed.

Lemma gitCommit_succeeds (args : list string) (newHash : string) (now : Z) (r : Repo) :
  initialized r = true -> stagedFiles r <> [] -> merge_conflicts r = [] ->
  ok (snd (gitCommit args newHash now r)) = true.
Proof.
  intros Hi Hs Hc. unfold gitCommit.
  rewrite (ensureInitialized_ok r Hi). cbn [negb]. cbv zeta.
  assert (Hk : is_nil (obj_keys (stagedFiles r)) = false).
  { destruct (stagedFiles r); [congruence | reflexivity]. }
  rewrite Hk, Bool.orb_true_r, Hc. reflexivity.
Qed.

(** X14. A three-way merge without conflicts, where the snapshot of HEAD or the
    merged content holds at least one file, makes the merge commit at once:
    the new HEAD has the two heads as parents (ours first), its snapshot and
    the working tree hold the merged content at every path, and the index and
    the merge state are empty again. *)
Theorem gitMerge_clean_merge_commits (r : Repo) (args : list string)
    (tb newHash ho ht : string) (now : Z) :
  initialized r = true ->
  isDirty (getStatus r) = false ->
  first_or_null args = Some tb ->
  obj_has (branches r) tb = true ->
  head r = Some ho -> ho <> "" ->
  branch_or_null r tb = Some ht -> ht <> "" ->
  isAncestor r (Some ho) (Some ht) = false ->
  isAncestor r (Some ht) (Some ho) = false ->
  NoDup (obj_keys (getSnapshot r (Some ho))) ->
  getSnapshot r (Some ho) <> [] \/
  fst (three_way (getSnapshot r (findCommonAncestor r (Some ho) (Some ht)))
         (getSnapshot r (Some ho)) (getSnapshot r (Some ht)) tb) <> [] ->
  newHash <> "" ->
  snd (three_way (getSnapshot r (findCommonAncestor r (Some ho) (Some ht)))
         (getSnapshot r (Some ho)) (getSnapshot r (Some ht)) tb) = [] ->
  let merged := fst (three_way (getSnapshot r (findCommonAncestor r (Some ho) (Some ht)))
                       (getSnapshot r (Some ho)) (getSnapshot r (Some ht)) tb) in
  let r' := fst (gitMerge args newHash now r) in
  ok (snd (gitMerge args newHash now r)) = true /\
  head r' = Some newHash /\
  (exists c, obj_get (commits r') newHash = Some c /\
             parents c = [ho; ht] /\
             forall q, obj_get (files c) q = obj_get merged q) /\
  (forall q, obj_get (workingFiles r') q = obj_get merged q) /\
  stagedFiles r' = [] /\
  mergeState r' = None /\
  lastEvent r' = Some (git_merge tb).
Proof.
  intros Hinit Hclean Hargs Hbr Ho Hon Ht Htn Hot Hto Hnd Hne Hn Hcs merged.
  subst merged. cbv zeta. unfold gitMerge.
  rewrite (ensureInitialized_ok r Hinit), Hclean, Hargs, Hbr.
  cbn [negb]. cbv zeta. rewrite Ho, Ht.
  rewrite (truthy_Some ht Htn), (truthy_Some ho Hon), Hot, Hto. cbn [negb].
  pose proof (three_way_NoDup (getSnapshot r (findCommonAncestor r (Some ho) (Some ht)))
                (getSnapshot r (Some ho)) (getSnapshot r (Some ht)) tb Hnd) as Hmnd.
  destruct (three_way _ _ _ tb) as [mg cs]. cbn [fst snd] in *. subst cs.
  cbn [is_nil negb].
  match goal with
  | |- context [gitCommit ?a ?h ?n ?x] => set (r4 := x); set (cargs := a)
  end.
  assert (Hst4 : stagedFiles r4 = stage_all mg (getSnapshot r (Some ho)) [])
    by reflexivity.
  assert (Hw4 : workingFiles r4 = mg) by reflexivity.
  assert (Hh4 : getHeadSnapshot r4 = getSnapshot r (Some ho)).
  { unfold getHeadSnapshot. change (head r4) with (head r). rewrite Ho.
    now apply getSnapshot_commits. }
  assert (Hp4 : commit_parents r4 = [ho; ht]).
  { unfold commit_parents. change (head r4) with (head r). rewrite Ho.
    cbn [mergeState r4 set_stagedFiles set_mergeState theirHash].
    now rewrite (opt_list_Some ho Hon), (opt_list_Some ht Htn). }
  assert (Hok : ok (snd (gitCommit cargs newHash now r4)) = true).
  { apply gitCommit_succeeds.
    - exact Hinit.
    - rewrite Hst4. destruct Hne as [Hne|Hne];
        [now apply stage_all_nonempty | now apply stage_all_nonempty_work].
    - reflexivity. }
  destruct (gitCommit_success cargs newHash now r4 Hok)
    as (c & Hcm & _ & Hf & Hp & _ & Hbs & Hcb & Hw & Hs & Hm & _).
  cbv zeta in Hcm, Hf, Hp, Hbs, Hcb, Hw, Hs, Hm.
  destruct (gitCommit cargs newHash now r4) as [r5 res5]. cbn [fst snd] in *.
  split; [exact Hok|].
  split.
  { change (head r5 = Some newHash).
    apply (head_of_branches r5 (branches r4)). now rewrite Hcb. }
  split.
  { exists c. split; [|split].
    - cbn [commits set_lastEvent]. rewrite Hcm. apply obj_get_set_eq.
    - now rewrite Hp.
    - intros q. rewrite Hf, Hh4, Hst4.
      rewrite apply_staged_get by apply stage_all_NoDup.
      now apply overlay_stage_all_old. }
  split.
  { intros q. cbn [workingFiles set_lastEvent]. rewrite Hw, Hw4, Hst4.
    rewrite apply_staged_get by apply stage_all_NoDup.
    now apply overlay_stage_all. }
  split; [exact Hs|]. split; [exact Hm | reflexivity].
Qed.

Lemma gitMerge_clean_merge_commits_witness :
  let r := diverged_clean in
  (initialized r = true /\ isDirty (getStatus r) = false /\
   first_or_null ["feat"] = Some "feat" /\ obj_has (branches r) "feat" = true /\
   head r = Some h3 /\ h3 <> "" /\ branch_or_null r "feat" = Some h2 /\ h2 <> "" /\
   isAncestor r (Some h3) (Some h2) = false /\
   isAncestor r (Some h2) (Some h3) = false /\
   NoDup (obj_keys (getSnapshot r (Some h3))) /\ getSnapshot r (Some h3) <> [] /\
   h4 <> "" /\
   snd (three_way (getSnapshot r (findCommonAncestor r (Some h3) (Some h2)))
          (getSnapshot r (Some h3)) (getSnapshot r (Some h2)) "feat") = []) /\
  let r' := fst (gitMerge ["feat"] h4 3 r) in
  head r' = Some h4 /\
  obj_get (workingFiles r') "/F" = Some "2" /\
  obj_get (workingFiles r') "/G" = Some "3".
Proof.
  cbv zeta.
  assert (H1 : initialized diverged_clean = true) by (vm_compute; reflexivity).
  assert (H2 : isDirty (getStatus diverged_clean) = false) by (vm_compute; reflexivity).
  assert (H3 : first_or_null ["feat"] = Some "feat") by (vm_compute; reflexivity).
  assert (H4 : obj_has (branches diverged_clean) "feat" = true)
    by (vm_compute; reflexivity).
  assert (H5 : head diverged_clean = Some h3) by (vm_compute; reflexivity).
  assert (H6 : h3 <> "") by discriminate.
  assert (H7 : branch_or_null diverged_clean "feat" = Some h2)
    by (vm_compute; reflexivity).
  assert (H8 : h2 <> "") by discriminate.
  assert (H9 : isAncestor diverged_clean (Some h3) (Some h2) = false)
    by (vm_compute; reflexivity).
  assert (H10 : isAncestor diverged_clean (Some h2) (Some h3) = false)
    by (vm_compute; reflexivity).
  assert (H11 : NoDup (obj_keys (getSnapshot diverged_clean (Some h3)))).
  { vm_compute. repeat constructor; cbn; intuition discriminate. }
  assert (H12 : getSnapshot diverged_clean (Some h3) <> [])
    by (vm_compute; discriminate).
  assert (H13 : h4 <> "") by discriminate.
  assert (H14 : snd (three_way
                       (getSnapshot diverged_clean
                          (findCommonAncestor diverged_clean (Some h3) (Some h2)))
                       (getSnapshot diverged_clean (Some h3))
                       (getSnapshot diverged_clean (Some h2)) "feat") = [])
    by (vm_compute; reflexivity).
  pose proof (gitMerge_clean_merge_commits diverged_clean ["feat"] "feat" h4 h3 h2 3
                H1 H2 H3 H4 H5 H6 H7 H8 H9 H10 H11 (or_introl H12) H13 H14) as H.
  cbv zeta in H. destruct H as (_ & Ha & _ & Hw & _).
  split; [repeat split; assumption|].
  split; [exact Ha|]. split.
  - rewrite Hw. vm_compute. reflexivity.
  - rewrite Hw. vm_compute. reflexivity.
Defined.

(** ** The remote store *)

(** X15. [ensureRepo] throws exactly for a blank URL: one that trims to the
    empty string, with the white space of ECMAScript.  Otherwise it answers
    with the store read at the trimmed URL, after creating an empty
    repository there (no commit, [main] unborn) when the URL is neither a key
    of the store nor the name of a member of Object.prototype.  For such a
    name that is not a key the store is left as it is, and so it is for a
    key.  It never replaces or removes a repository of the store, and calling
    it again changes nothing. *)
Theorem ensureRepo_spec (store : RemoteStore) (u : string) :
  (ensureRepo store u = None <-> trim u = "") /\
  (forall store' key, ensureRepo store u = Some (store', key) ->
     key = trim u /\
     (forall k rr, obj_get (byUrl store) k = Some rr ->
                   obj_get (byUrl store') k = Some rr) /\
     (obj_has (byUrl store) key = false -> inherited key = false ->
      obj_get (byUrl store') key = Some (createEmptyRemote key)) /\
     (obj_has (byUrl store) key = true \/ inherited key = true -> store' = store) /\
     (forall k, k <> key -> obj_get (byUrl store') k = obj_get (byUrl store) k) /\
     ensureRepo store' u = Some (store', key)).
Proof.
  unfold ensureRepo, js_defined. destruct (nonempty (trim u)) eqn:En; cbn [negb].
  - apply nonempty_true in En. split.
    + split; [|contradiction].
      destruct (obj_has (byUrl store) (trim u) || inherited (trim u))%bool;
        discriminate.
    + intros store' key.
      destruct (obj_has (byUrl store) (trim u)) eqn:Eh;
        [|destruct (inherited (trim u)) eqn:Ei]; cbn [orb]; intros H;
        injection H as <- <-.
      * rewrite Eh. cbn [orb]. repeat split; auto. intros H. congruence.
      * rewrite Eh, Ei. cbn [orb]. repeat split; auto. intros _ H. congruence.
      * cbn [byUrl]. rewrite obj_has_set, String.eqb_refl. cbn [orb].
        repeat split.
        -- intros k rr Hk. rewrite obj_get_set_neq; auto.
           intros <-. unfold obj_has in Eh. now rewrite Hk in Eh.
        -- intros _ _. apply obj_get_set_eq.
        -- intros [H|H]; congruence.
        -- intros k Hk. apply obj_get_set_neq. congruence.
  - split; [|discriminate]. split; [|reflexivity]. intros _.
    unfold nonempty in En. apply Bool.negb_false_iff in En.
    now apply String.eqb_eq.
Qed.

(** ** clone *)

(** X16. [git clone u], for a URL that is not blank, replaces whatever the
    repository held.  When the store holds a repository under [u], or [u] is
    not the name of a member of Object.prototype (an empty repository is
    created then), the repository is afterwards initialized on [main], its
    commits, their order and its branches are those of the remote stored
    under [u], [origin] is [u] and is the upstream of [main], the working
    tree is the snapshot of [main], the index, the stash and the merge state
    are empty, and the status is clean.  When [u] names a member of
    Object.prototype and the store holds no repository under it, the command
    throws after the reset: the repository is left initialized and empty,
    with [origin] set to [u], and the store is unchanged. *)
Theorem gitClone_spec (r : Repo) (store : RemoteStore) (u : string) (rest : list string) :
  trim u <> "" ->
  let out := gitClone (u :: rest) (Some store) r in
  let r' := fst (fst out) in
  (obj_has (byUrl store) (trim u) = true \/ inherited (trim u) = false ->
   let rr := match obj_get (byUrl store) (trim u) with
             | Some rr => rr
             | None => createEmptyRemote (trim u)
             end in
   snd out = Returned (success ["Cloning into '" ++ basename u ++ "'… (simulated)";
                                "done."]) /\
   initialized r' = true /\
   remotes r' = [("origin", {| url := u |})] /\
   upstreams r' = [("main", {| up_remote := "origin"; up_branch := "main" |})] /\
   commits r' = remote_commits rr /\
   commitOrder r' = remote_commitOrder rr /\
   branches r' = remote_branches rr /\
   currentBranch r' = "main" /\
   workingFiles r' = getHeadSnapshot r' /\
   stagedFiles r' = [] /\ stash r' = [] /\ mergeState r' = None /\
   isDirty (getStatus r') = false /\
   (exists store', snd (fst out) = Some store' /\ getRepo store' u = own rr)) /\
  (obj_has (byUrl store) (trim u) = false -> inherited (trim u) = true ->
   snd out = Threw "SyntaxError: JSON.parse" /\
   snd (fst out) = Some store /\
   r' = {| initialized := true; cwd := "/"; directories := [("/", true)];
           workingFiles := []; stagedFiles := []; commits := []; commitOrder := [];
           branches := [("main", None)]; currentBranch := "main";
           branchMeta := [("main", main_meta)]; nextLane := 1; mergeState := None;
           remotes := [("origin", {| url := u |})];
           upstreams := [("main", {| up_remote := "origin"; up_branch := "main" |})];
           stash := []; lastEvent := None |}).
Proof.
  intros Hu. cbv zeta. unfold gitClone.
  assert (Hne : nonempty u = true).
  { apply nonempty_true. intros ->. now apply Hu. }
  cbn [nth_truthy nth_error]. rewrite Hne.
  assert (Hnt : nonempty (trim u) = true) by now apply nonempty_true.
  unfold ensureRepo, getRepo, js_read, js_defined. rewrite Hnt. cbn [negb].
  unfold obj_has.
  destruct (obj_get (byUrl store) (trim u)) as [rr|] eqn:Eg; cbn [orb].
  - rewrite Eg. cbn [fst snd]. split; [|discriminate]. intros _.
    split; [reflexivity|]. split; [reflexivity|]. split; [reflexivity|].
    split; [reflexivity|]. split; [reflexivity|]. split; [reflexivity|].
    split; [reflexivity|]. split; [reflexivity|]. split; [reflexivity|].
    split; [reflexivity|]. split; [reflexivity|]. split; [reflexivity|].
    split; [apply synced_clean; reflexivity|].
    exists store. split; [reflexivity | now rewrite Eg].
  - destruct (inherited (trim u)) eqn:Ei.
    + rewrite Eg. cbn [fst snd]. split; [intros [H|H]; discriminate|].
      intros _ _. repeat split.
    + cbn [byUrl]. rewrite obj_get_set_eq. cbn [fst snd].
      split; [|intros _ H; discriminate]. intros _.
      split; [reflexivity|]. split; [reflexivity|]. split; [reflexivity|].
      split; [reflexivity|]. split; [reflexivity|]. split; [reflexivity|].
      split; [reflexivity|]. split; [reflexivity|]. split; [reflexivity|].
      split; [reflexivity|]. split; [reflexivity|]. split; [reflexivity|].
      split; [apply synced_clean; reflexivity|].
      eexists. split; [reflexivity|]. cbn [byUrl]. now rewrite obj_get_set_eq.
Qed.

Lemma gitClone_spec_witness :
  (trim seed_url <> "" /\
   obj_has (byUrl {| byUrl := [(seed_url, pushed_remote)] |}) (trim seed_url) = true) /\
  commits (fst (fst (gitClone [seed_url] (Some {| byUrl := [(seed_url, pushed_remote)] |})
                       lesson4)))
  = remote_commits pushed_remote.
Proof.
  assert (H1 : trim seed_url <> "") by (vm_compute; discriminate).
  assert (H2 : obj_has (byUrl {| byUrl := [(seed_url, pushed_remote)] |})
                 (trim seed_url) = true) by (vm_compute; reflexivity).
  pose proof (gitClone_spec lesson4 {| byUrl := [(seed_url, pushed_remote)] |}
                seed_url [] H1) as H.
  cbv zeta in H. destruct H as (H & _).
  destruct (H (or_introl H2)) as (_ & _ & _ & _ & Ha & _).
  split; [split; assumption|]. rewrite Ha. vm_compute. reflexivity.
Defined.

(** * Properties of the shell commands *)

(** ** Normalized paths *)

Lemma has_char_app (c : ascii) (a b : string) :
  has_char c (a ++ b) = (has_char c a || has_char c b)%bool.
Proof.
  induction a as [|d a IH]; cbn [append has_char]; [reflexivity|].
  now rewrite IH, Bool.orb_assoc.
Qed.

Lemma string_app_assoc (a b c : string) : (a ++ b) ++ c = a ++ b ++ c.
Proof.
  induction a as [|d a IH]; cbn [append]; [reflexivity | now rewrite IH].
Qed.

Lemma prefix_app (a b : string) : String.prefix a (a ++ b) = true.
Proof.
  induction a as [|d a IH]; cbn [append String.prefix].
  - now destruct b.
  - destruct (Ascii.ascii_dec d d) as [_|N]; [exact IH | now destruct N].
Qed.

Lemma split_slash_word (w : string) :
  has_char slash w = false -> split_slash w = [w].
Proof.
  induction w as [|d w IH]; cbn [has_char split_slash]; intros H; [reflexivity|].
  apply Bool.orb_false_elim in H as [H1 H2].
  now rewrite H1, IH.
Qed.

Lemma split_slash_app (w rest : string) :
  has_char slash w = false ->
  split_slash (w ++ String slash rest) = w :: split_slash rest.
Proof.
  induction w as [|d w IH]; cbn [has_char append split_slash]; intros H.
  - now rewrite Ascii.eqb_refl.
  - apply Bool.orb_false_elim in H as [H1 H2].
    now rewrite H1, IH.
Qed.

Lemma split_slash_concat (s : list string) :
  Forall (fun w => has_char slash w = false) s -> s <> [] ->
  split_slash (String.concat "/" s) = s.
Proof.
  induction s as [|w s IH]; intros HF Hne; [contradiction|].
  inversion HF as [|? ? Hw Hs]; subst.
  destruct s as [|w2 s'].
  - cbn [String.concat]. now apply split_slash_word.
  - change (String.concat "/" (w :: w2 :: s'))
      with (w ++ String slash (String.concat "/" (w2 :: s'))).
    rewrite split_slash_app by exact Hw.
    rewrite IH; [reflexivity | exact Hs | discriminate].
Qed.

Lemma split_slash_no_slash (s : string) :
  Forall (fun w => has_char slash w = false) (split_slash s).
Proof.
  induction s as [|d s IH]; cbn [split_slash].
  - now constructor.
  - destruct (Ascii.eqb d slash) eqn:E; [now constructor|].
    destruct (split_slash s) as [|w ws].
    + constructor; [|constructor]. cbn [has_char]. now rewrite E.
    + inversion IH; subst. constructor; [|assumption].
      cbn [has_char]. now rewrite E.
Qed.

Lemma split_slash_has_char (c : ascii) (s : string) :
  has_char c s = false ->
  Forall (fun w => has_char c w = false) (split_slash s).
Proof.
  induction s as [|d s IH]; cbn [split_slash has_char]; intros H.
  - now constructor.
  - apply Bool.orb_false_elim in H as [H1 H2]. specialize (IH H2).
    destruct (Ascii.eqb d slash); [now constructor|].
    destruct (split_slash s) as [|w ws].
    + constructor; [|constructor]. cbn [has_char]. now rewrite H1.
    + inversion IH; subst. constructor; [|assumption].
      cbn [has_char]. now rewrite H1.
Qed.

Lemma backslashes_to_slashes_clean (s : string) :
  has_char backslash (backslashes_to_slashes s) = false.
Proof.
  induction s as [|d s IH]; cbn [backslashes_to_slashes has_char]; [reflexivity|].
  destruct (Ascii.eqb d backslash) eqn:E; rewrite IH.
  - reflexivity.
  - now rewrite E.
Qed.

Lemma backslashes_to_slashes_id (s : string) :
  has_char backslash s = false -> backslashes_to_slashes s = s.
Proof.
  induction s as [|d s IH]; cbn [backslashes_to_slashes has_char]; intros H;
    [reflexivity|].
  apply Bool.orb_false_elim in H as [H1 H2].
  now rewrite H1, IH.
Qed.

Lemma Forall_removelast {A : Type} (P : A -> Prop) (l : list A) :
  Forall P l -> Forall P (removelast l).
Proof.
  induction 1 as [|x l Hx Hl IH]; cbn [removelast]; [constructor|].
  destruct l; [constructor | now constructor].
Qed.

Lemma fold_normalize_components (l acc : list string) :
  Forall (fun w => w <> "" /\ has_char slash w = false
                   /\ has_char backslash w = false) l ->
  Forall component acc ->
  Forall component (fold_left normalize_step l acc).
Proof.
  revert acc. induction l as [|w l IH]; intros acc Hl Hacc; [exact Hacc|].
  inversion Hl as [|? ? (Hne & Hs & Hb) Hl']; subst.
  cbn [fold_left]. apply IH; [exact Hl'|].
  unfold normalize_step.
  destruct (String.eqb w ".") eqn:E1; cbn [orb]; [exact Hacc|].
  destruct (String.eqb w "") eqn:E2; [exact Hacc|].
  destruct (String.eqb w "..") eqn:E3; [now apply Forall_removelast|].
  apply Forall_app. split; [exact Hacc|].
  constructor; [|constructor].
  apply String.eqb_neq in E1, E3. now repeat split.
Qed.

Lemma path_stack_components (p : string) : Forall component (path_stack p).
Proof.
  unfold path_stack. apply fold_normalize_components; [|constructor].
  apply Forall_forall. intros w Hw. apply filter_In in Hw as [Hin Hne].
  apply nonempty_true in Hne.
  pose proof (split_slash_no_slash (backslashes_to_slashes p)) as H1.
  pose proof (split_slash_has_char backslash _ (backslashes_to_slashes_clean p)) as H2.
  rewrite Forall_forall in H1, H2. auto.
Qed.

Lemma concat_components_clean (s : list string) :
  Forall component s -> has_char backslash (String.concat "/" s) = false.
Proof.
  induction 1 as [|w s (_ & _ & _ & _ & Hb) Hs IH]; [reflexivity|].
  destruct s as [|w2 s']; [exact Hb|].
  change (String.concat "/" (w :: w2 :: s'))
    with (w ++ String slash (String.concat "/" (w2 :: s'))).
  rewrite has_char_app, Hb. cbn [has_char orb]. exact IH.
Qed.

Lemma fold_normalize_id (s acc : list string) :
  Forall component s -> fold_left normalize_step s acc = (acc ++ s)%list.
Proof.
  intros H. revert acc.
  induction H as [|w s (Hne & Hd & Hdd & _) Hs IH]; intros acc; cbn [fold_left].
  - now rewrite app_nil_r.
  - rewrite IH. unfold normalize_step.
    apply String.eqb_neq in Hne, Hd, Hdd. rewrite Hne, Hd, Hdd. cbn [orb].
    now rewrite <- app_assoc.
Qed.

Lemma filter_nonempty_components (s : list string) :
  Forall component s -> filter nonempty s = s.
Proof.
  induction 1 as [|w s (Hne & _) Hs IH]; [reflexivity|].
  cbn [filter]. apply nonempty_true in Hne. now rewrite Hne, IH.
Qed.

Lemma parts_of_components (s : list string) :
  Forall component s ->
  filter nonempty (split_slash ("/" ++ String.concat "/" s)) = s.
Proof.
  intros H.
  change ("/" ++ String.concat "/" s) with (String slash (String.concat "/" s)).
  cbn [split_slash]. rewrite Ascii.eqb_refl.
  change (filter nonempty ("" :: split_slash (String.concat "/" s)))
    with (filter nonempty (split_slash (String.concat "/" s))).
  destruct s as [|w s']; [reflexivity|].
  rewrite split_slash_concat.
  - now apply filter_nonempty_components.
  - eapply Forall_impl; [|exact H]. now intros a (_ & _ & _ & Ha & _).
  - discriminate.
Qed.

Lemma path_stack_of_components (s : list string) :
  Forall component s -> path_stack ("/" ++ String.concat "/" s) = s.
Proof.
  intros H. unfold path_stack.
  rewrite backslashes_to_slashes_id.
  - rewrite parts_of_components by exact H. now rewrite fold_normalize_id.
  - change ("/" ++ String.concat "/" s) with (String slash (String.concat "/" s)).
    cbn [has_char]. now rewrite concat_components_clean.
Qed.

Lemma normalizePath_stack (p : string) :
  normalizePath p = "/" ++ String.concat "/" (path_stack p).
Proof. reflexivity. Qed.

Lemma normalizePath_of_components (s : list string) :
  Forall component s ->
  normalizePath ("/" ++ String.concat "/" s) = "/" ++ String.concat "/" s.
Proof.
  intros H. now rewrite normalizePath_stack, path_stack_of_components.
Qed.

Lemma normalizePath_idem (p : string) :
  normalizePath (normalizePath p) = normalizePath p.
Proof.
  rewrite (normalizePath_stack p).
  apply normalizePath_of_components, path_stack_components.
Qed.

Lemma dirname_stack (p : string) :
  dirname p = "/" ++ String.concat "/" (removelast (path_stack p)).
Proof.
  unfold dirname. rewrite (normalizePath_stack p).
  rewrite parts_of_components by apply path_stack_components.
  destruct (String.eqb_spec ("/" ++ String.concat "/" (path_stack p)) "/") as [E|E];
    [|reflexivity].
  destruct (path_stack p) as [|w s] eqn:Es; [reflexivity|].
  exfalso.
  pose proof (path_stack_components p) as Hc. rewrite Es in Hc.
  inversion Hc as [|? ? (Hne & _) _]; subst.
  destruct s as [|w2 s']; cbn in E.
  - injection E as E. contradiction.
  - destruct w; [contradiction | discriminate].
Qed.

Lemma normalizePath_dirname (p : string) : normalizePath (dirname p) = dirname p.
Proof.
  rewrite dirname_stack.
  apply normalizePath_of_components, Forall_removelast, path_stack_components.
Qed.

Lemma normalizePath_joinPath (c rel : string) :
  normalizePath (joinPath c rel) = joinPath c rel.
Proof.
  unfold joinPath. destruct (startsWith rel "/"); apply normalizePath_idem.
Qed.

(** X17. [normalizePath] returns an absolute path in normal form: a slash followed
    by named components (none is empty, [.] or [..], none holds a slash or a
    backslash) joined by slashes.  Normalizing again changes nothing, and the
    results of [joinPath] and [dirname] are in that form; [dirname] and
    [basename] do not depend on whether their argument was normalized. *)
Theorem normalizePath_canonical (p : string) :
  (exists s, Forall component s /\ normalizePath p = "/" ++ String.concat "/" s) /\
  normalizePath (normalizePath p) = normalizePath p /\
  (forall c, normalizePath (joinPath c p) = joinPath c p) /\
  normalizePath (dirname p) = dirname p /\
  dirname (normalizePath p) = dirname p /\
  basename (normalizePath p) = basename p.
Proof.
  split; [exists (path_stack p); split;
          [apply path_stack_components | apply normalizePath_stack]|].
  split; [apply normalizePath_idem|].
  split; [intros c; apply normalizePath_joinPath|].
  split; [apply normalizePath_dirname|].
  split.
  - unfold dirname. now rewrite normalizePath_idem.
  - unfold basename. now rewrite normalizePath_idem.
Qed.

(** ** What a shell command can change *)

Lemma directories_kept (ds : obj bool) (k d : string) :
  obj_get ds d = Some true -> obj_get (obj_set ds k true) d = Some true.
Proof.
  intros H. destruct (String.eqb_spec k d) as [->|N].
  - apply obj_get_set_eq.
  - now rewrite obj_get_set_neq.
Qed.

(** X18. A shell command never touches what git tracks: the index, the commits and
    their order, the branches, the merge state, the remotes, the upstreams
    and the stash stay as they were.  A command that fails changes nothing at
    all; no command removes a directory; and at most one file of the working
    tree is created, rewritten or removed. *)
Theorem runShell_keeps_git_state (line : string) (r : Repo) :
  let r' := fst (runShell line r) in
  (initialized r' = initialized r /\ stagedFiles r' = stagedFiles r /\
   commits r' = commits r /\ commitOrder r' = commitOrder r /\
   branches r' = branches r /\ currentBranch r' = currentBranch r /\
   branchMeta r' = branchMeta r /\ mergeState r' = mergeState r /\
   remotes r' = remotes r /\ upstreams r' = upstreams r /\ stash r' = stash r) /\
  (ok (snd (runShell line r)) = false -> r' = r) /\
  (forall d, obj_get (directories r) d = Some true ->
             obj_get (directories r') d = Some true) /\
  (exists p, forall q, q <> p ->
     obj_get (workingFiles r') q = obj_get (workingFiles r) q).
Proof.
  cbv zeta. unfold runShell.
  assert (Hsame : forall res,
    (initialized (fst (r, res)) = initialized r /\
     stagedFiles (fst (r, res)) = stagedFiles r /\
     commits (fst (r, res)) = commits r /\
     commitOrder (fst (r, res)) = commitOrder r /\
     branches (fst (r, res)) = branches r /\
     currentBranch (fst (r, res)) = currentBranch r /\
     branchMeta (fst (r, res)) = branchMeta r /\
     mergeState (fst (r, res)) = mergeState r /\
     remotes (fst (r, res)) = remotes r /\
     upstreams (fst (r, res)) = upstreams r /\ stash (fst (r, res)) = stash r) /\
    (ok (snd (r, res)) = false -> fst (r, res) = r) /\
    (forall d, obj_get (directories r) d = Some true ->
               obj_get (directories (fst (r, res))) d = Some true) /\
    (exists p, forall q, q <> p ->
       obj_get (workingFiles (fst (r, res))) q = obj_get (workingFiles r) q)).
  { intros res. cbn [fst snd].
    split; [repeat split|]. split; [reflexivity|]. split; [auto|].
    exists "". reflexivity. }
  destruct (parseEchoRedirection line) as [[text f]|].
  { cbn [fst snd]. split; [repeat split|].
    split; [discriminate|]. split.
    - intros d Hd. now apply directories_kept.
    - exists (joinPath (cwd r) f). intros q Hq.
      now apply obj_get_set_neq. }
  destruct (nth_truthy 0 (splitArgs line)) as [cmd|]; [|apply Hsame].
  destruct (String.eqb cmd "pwd"); [apply Hsame|].
  destruct (String.eqb cmd "ls"); [apply Hsame|].
  destruct (String.eqb cmd "cd").
  { destruct (isDirectory r _); cbn [negb]; [|apply Hsame].
    cbn [fst snd]. split; [repeat split|].
    split; [discriminate|]. split; [auto|]. exists "". reflexivity. }
  destruct (String.eqb cmd "mkdir").
  { destruct (nth_truthy 1 (splitArgs line)) as [name|]; [|apply Hsame].
    cbn [fst snd]. split; [repeat split|].
    split; [discriminate|]. split.
    - intros d Hd. now apply directories_kept.
    - exists "". reflexivity. }
  destruct (String.eqb cmd "touch").
  { destruct (nth_truthy 1 (splitArgs line)) as [name|]; [|apply Hsame].
    cbn [workingFiles set_directories].
    destruct (obj_has (workingFiles r) (joinPath (cwd r) name)); cbn [negb fst snd].
    - split; [repeat split|]. split; [discriminate|]. split.
      + intros d Hd. now apply directories_kept.
      + exists "". reflexivity.
    - split; [repeat split|]. split; [discriminate|]. split.
      + intros d Hd. now apply directories_kept.
      + exists (joinPath (cwd r) name). intros q Hq.
        now apply obj_get_set_neq. }
  destruct (String.eqb cmd "rm").
  { destruct (nth_truthy 1 (splitArgs line)) as [name|]; [|apply Hsame].
    destruct (obj_has (workingFiles r) (joinPath (cwd r) name)); cbn [negb];
      [|apply Hsame].
    cbn [fst snd]. split; [repeat split|].
    split; [discriminate|]. split; [auto|].
    exists (joinPath (cwd r) name). intros q Hq.
    now apply obj_get_delete_neq. }
  destruct (String.eqb cmd "cat").
  { destruct (nth_truthy 1 (splitArgs line)) as [name|]; [|apply Hsame].
    destruct (obj_get (workingFiles r) (joinPath (cwd r) name)); apply Hsame. }
  apply Hsame.
Qed.

(** X19. [mkdir name] makes [name] a directory the shell can enter: a following
    [cd name] succeeds and moves the working directory there.  The working
    tree is not touched. *)
Theorem mkdir_then_cd (l1 l2 name : string) (rest1 rest2 : list string) (r : Repo) :
  parseEchoRedirection l1 = None -> splitArgs l1 = "mkdir" :: name :: rest1 ->
  parseEchoRedirection l2 = None -> splitArgs l2 = "cd" :: name :: rest2 ->
  name <> "" ->
  let r1 := fst (runShell l1 r) in
  let r2 := fst (runShell l2 r1) in
  snd (runShell l1 r) = success [] /\
  workingFiles r1 = workingFiles r /\ cwd r1 = cwd r /\
  isDirectory r1 (joinPath (cwd r) name) = true /\
  snd (runShell l2 r1) = success [] /\
  cwd r2 = joinPath (cwd r) name.
Proof.
  intros P1 A1 P2 A2 Hn. cbv zeta.
  apply nonempty_true in Hn.
  assert (E1 : runShell l1 r =
               (set_lastEvent (Some (fs_mkdir (joinPath (cwd r) name)))
                  (set_directories
                     (obj_set (directories r) (joinPath (cwd r) name) true) r),
                success [])).
  { unfold runShell. rewrite P1, A1. unfold nth_truthy. cbn [nth_error].
    rewrite Hn. reflexivity. }
  rewrite E1. cbn [fst snd].
  set (r1 := set_lastEvent _ _).
  assert (Hd : isDirectory r1 (joinPath (cwd r) name) = true).
  { unfold isDirectory. rewrite normalizePath_joinPath.
    subst r1. cbn [directories set_lastEvent set_directories].
    now rewrite obj_get_set_eq. }
  assert (E2 : runShell l2 r1 = (set_cwd (joinPath (cwd r) name) r1, success [])).
  { unfold runShell. rewrite P2, A2. unfold nth_truthy. cbn [nth_error].
    rewrite Hn.
    change (cwd r1) with (cwd r). rewrite Hd. reflexivity. }
  rewrite E2. cbn [fst snd].
  split; [reflexivity|]. split; [reflexivity|]. split; [reflexivity|].
  split; [exact Hd|]. split; reflexivity.
Qed.

Lemma mkdir_then_cd_witness :
  (parseEchoRedirection "mkdir src" = None /\
   splitArgs "mkdir src" = ["mkdir"; "src"] /\
   parseEchoRedirection "cd src" = None /\
   splitArgs "cd src" = ["cd"; "src"] /\ "src" <> "") /\
  cwd (fst (runShell "cd src" (fst (runShell "mkdir src" lesson2)))) = "/src".
Proof.
  assert (H1 : parseEchoRedirection "mkdir src" = None) by (vm_compute; reflexivity).
  assert (H2 : splitArgs "mkdir src" = ["mkdir"; "src"]) by (vm_compute; reflexivity).
  assert (H3 : parseEchoRedirection "cd src" = None) by (vm_compute; reflexivity).
  assert (H4 : splitArgs "cd src" = ["cd"; "src"]) by (vm_compute; reflexivity).
  assert (H5 : "src" <> "") by discriminate.
  pose proof (mkdir_then_cd "mkdir src" "cd src" "src" [] [] lesson2
                H1 H2 H3 H4 H5) as H.
  cbv zeta in H. destruct H as (_ & _ & _ & _ & _ & H).
  split; [repeat split; assumption|].
  rewrite H. vm_compute. reflexivity.
Defined.

(** X20. [touch name] never overwrites: a file that exists keeps its content, a
    missing one is created empty, and the directory it sits in becomes
    known.  A following [cat name] prints that content. *)
Theorem touch_then_cat (l1 l2 name : string) (rest1 rest2 : list string) (r : Repo) :
  parseEchoRedirection l1 = None -> splitArgs l1 = "touch" :: name :: rest1 ->
  parseEchoRedirection l2 = None -> splitArgs l2 = "cat" :: name :: rest2 ->
  name <> "" ->
  let p := joinPath (cwd r) name in
  let r1 := fst (runShell l1 r) in
  let content := default (obj_get (workingFiles r) p) "" in
  snd (runShell l1 r) = success [] /\
  obj_get (workingFiles r1) p = Some content /\
  (forall q, q <> p -> obj_get (workingFiles r1) q = obj_get (workingFiles r) q) /\
  isDirectory r1 (dirname p) = true /\
  runShell l2 r1 = (r1, success [content]).
Proof.
  intros P1 A1 P2 A2 Hn. cbv zeta.
  apply nonempty_true in Hn.
  set (p := joinPath (cwd r) name).
  set (rd := set_directories (obj_set (directories r) (dirname p) true) r).
  assert (E1 : runShell l1 r =
               (set_lastEvent (Some (fs_touch p))
                  (if negb (obj_has (workingFiles rd) p)
                   then set_workingFiles (obj_set (workingFiles rd) p "") rd
                   else rd),
                success [])).
  { unfold runShell. rewrite P1, A1. unfold nth_truthy. cbn [nth_error].
    rewrite Hn. reflexivity. }
  rewrite E1. cbn [fst snd].
  set (r1 := set_lastEvent _ _).
  assert (Hw : obj_get (workingFiles r1) p
               = Some (default (obj_get (workingFiles r) p) "")).
  { subst r1 rd. cbn [workingFiles set_directories set_lastEvent].
    unfold obj_has.
    destruct (obj_get (workingFiles r) p) as [c|] eqn:Eg; cbn [negb default].
    - exact Eg.
    - cbn [workingFiles set_workingFiles]. apply obj_get_set_eq. }
  split; [reflexivity|]. split; [exact Hw|]. split; [|split].
  - intros q Hq. subst r1 rd. cbn [workingFiles set_directories set_lastEvent].
    destruct (obj_has (workingFiles r) p); cbn [negb]; [reflexivity|].
    cbn [workingFiles set_workingFiles]. now apply obj_get_set_neq.
  - unfold isDirectory. rewrite normalizePath_dirname.
    assert (Hd : obj_get (directories r1) (dirname p) = Some true).
    { subst r1 rd. cbn [workingFiles directories set_directories set_lastEvent].
      destruct (obj_has (workingFiles r) p); cbn [negb];
        cbn [directories set_workingFiles]; apply obj_get_set_eq. }
    now rewrite Hd.
  - unfold runShell. rewrite P2, A2. unfold nth_truthy. cbn [nth_error].
    rewrite Hn.
    assert (Hc : cwd r1 = cwd r).
    { subst r1 rd. cbn [cwd set_lastEvent].
      destruct (negb _); reflexivity. }
    rewrite Hc. fold p. rewrite Hw. reflexivity.
Qed.

Lemma touch_then_cat_witness :
  (parseEchoRedirection "touch a.txt" = None /\
   splitArgs "touch a.txt" = ["touch"; "a.txt"] /\
   parseEchoRedirection "cat a.txt" = None /\
   splitArgs "cat a.txt" = ["cat"; "a.txt"] /\ "a.txt" <> "") /\
  stdout (snd (runShell "cat a.txt" (fst (runShell "touch a.txt" lesson2)))) = [""].
Proof.
  assert (H1 : parseEchoRedirection "touch a.txt" = None) by (vm_compute; reflexivity).
  assert (H2 : splitArgs "touch a.txt" = ["touch"; "a.txt"])
    by (vm_compute; reflexivity).
  assert (H3 : parseEchoRedirection "cat a.txt" = None) by (vm_compute; reflexivity).
  assert (H4 : splitArgs "cat a.txt" = ["cat"; "a.txt"]) by (vm_compute; reflexivity).
  assert (H5 : "a.txt" <> "") by discriminate.
  pose proof (touch_then_cat "touch a.txt" "cat a.txt" "a.txt" [] [] lesson2
                H1 H2 H3 H4 H5) as H.
  cbv zeta in H. destruct H as (_ & _ & _ & _ & H).
  split; [repeat split; assumption|].
  rewrite H. vm_compute. reflexivity.
Defined.

(** ** Directories implied by the files, and what [ls] shows *)

Lemma concat_snoc (sep : string) (s : list string) (w : string) :
  s <> [] ->
  String.concat sep (s ++ [w]) = String.concat sep s ++ sep ++ w.
Proof.
  induction s as [|a s IH]; intros Hne; [contradiction|].
  destruct s as [|b s']; [reflexivity|].
  specialize (IH ltac:(discriminate)).
  change (String.concat sep ((a :: b :: s') ++ [w]))
    with (a ++ sep ++ String.concat sep ((b :: s') ++ [w])).
  rewrite IH.
  change (String.concat sep (a :: b :: s'))
    with (a ++ sep ++ String.concat sep (b :: s')).
  now rewrite !string_app_assoc.
Qed.

Lemma concat_components_nonempty (s : list string) :
  Forall component s -> s <> [] -> String.concat "/" s <> "".
Proof.
  intros H Hne. destruct s as [|w s]; [contradiction|].
  inversion H as [|? ? (Hw & _) _]; subst.
  destruct s as [|w2 s']; cbn [String.concat]; [exact Hw|].
  destruct w; [contradiction | discriminate].
Qed.

Lemma parent_prefix (s : list string) :
  Forall component s ->
  let dir := "/" ++ String.concat "/" (removelast s) in
  startsWith ("/" ++ String.concat "/" s)
    (if String.eqb dir "/" then "/" else dir ++ "/") = true.
Proof.
  intros Hc. cbv zeta. unfold startsWith.
  destruct s as [|w s'] using rev_ind; [reflexivity|]. clear IHs'.
  rewrite removelast_last.
  apply Forall_app in Hc as [Hc _].
  destruct s' as [|w1 s''].
  - cbn [String.concat app]. apply (prefix_app "/" w).
  - assert (Hne : String.concat "/" (w1 :: s'') <> "")
      by (apply concat_components_nonempty; [exact Hc | discriminate]).
    destruct (String.eqb_spec ("/" ++ String.concat "/" (w1 :: s'')) "/") as [E|_].
    + exfalso. apply Hne.
      change ("/" ++ String.concat "/" (w1 :: s''))
        with (String slash (String.concat "/" (w1 :: s''))) in E.
      now injection E.
    + rewrite concat_snoc by discriminate.
      rewrite <- !string_app_assoc. apply prefix_app.
Qed.

(** X21. A file of the working tree makes the directory it sits in a directory
    the shell can enter, whether or not that directory was ever created:
    [isDirectory] holds of the parent of every file stored under a
    normalized path. *)
Theorem isDirectory_of_file_parent (r : Repo) (p : string) :
  obj_has (workingFiles r) p = true -> normalizePath p = p ->
  isDirectory r (dirname p) = true.
Proof.
  intros Hf Hp. unfold isDirectory. rewrite normalizePath_dirname.
  assert (He : existsb
                 (fun filePath =>
                    startsWith filePath
                      (if String.eqb (dirname p) "/" then "/" else dirname p ++ "/"))
                 (obj_keys (workingFiles r)) = true).
  { apply existsb_exists. exists p. split; [now apply obj_has_In|].
    rewrite dirname_stack.
    pose proof (parent_prefix (path_stack p) (path_stack_components p)) as H.
    cbv zeta in H. rewrite <- normalizePath_stack, Hp in H. exact H. }
  destruct (obj_get (directories r) (dirname p)) as [[|]|]; [reflexivity| |]; exact He.
Qed.

Lemma isDirectory_of_file_parent_witness :
  let r := write_file "/src/lib/a.txt" "x" lesson2 in
  (obj_has (workingFiles r) "/src/lib/a.txt" = true /\
   normalizePath "/src/lib/a.txt" = "/src/lib/a.txt") /\
  isDirectory r "/src/lib" = true.
Proof.
  cbv zeta.
  assert (H1 : obj_has (workingFiles (write_file "/src/lib/a.txt" "x" lesson2))
                 "/src/lib/a.txt" = true) by (vm_compute; reflexivity).
  assert (H2 : normalizePath "/src/lib/a.txt" = "/src/lib/a.txt")
    by (vm_compute; reflexivity).
  pose proof (isDirectory_of_file_parent _ _ H1 H2) as H.
  split; [split; assumption|].
  assert (E : dirname "/src/lib/a.txt" = "/src/lib") by (vm_compute; reflexivity).
  rewrite E in H. exact H.
Defined.

Lemma set_add_In (x y : string) (l : list string) :
  In x (set_add y l) <-> x = y \/ In x l.
Proof.
  unfold set_add. destruct (mem y l) eqn:E.
  - apply mem_In in E. split; [auto | intros [->|H]; auto].
  - rewrite in_app_iff. cbn [In]. intuition.
Qed.

Lemma listDir_dirs_mono (dir x : string) (l acc : list string) :
  In x acc -> In x (fold_left (listDir_dirs dir) l acc).
Proof.
  revert acc. induction l as [|d l IH]; intros acc H; [exact H|].
  cbn [fold_left]. apply IH. unfold listDir_dirs.
  destruct (_ && _)%bool; [apply set_add_In; now right | exact H].
Qed.

Lemma listDir_dirs_adds (dir d : string) (l acc : list string) :
  In d l -> d <> dir -> dirname d = dir ->
  In (basename d ++ "/") (fold_left (listDir_dirs dir) l acc).
Proof.
  intros Hin Hne Hd. revert acc.
  induction l as [|d' l IH]; intros acc; [contradiction|].
  cbn [fold_left]. destruct Hin as [->|Hin]; [|now apply IH].
  apply listDir_dirs_mono. unfold listDir_dirs.
  apply String.eqb_neq in Hne. apply String.eqb_eq in Hd.
  rewrite Hne, Hd. cbn [negb andb]. apply set_add_In. now left.
Qed.

Lemma listDir_files_step (dir f x : string) (acc : list string * list string) :
  (In x (fst acc) -> In x (fst (listDir_files dir acc f))) /\
  (In x (snd acc) -> In x (snd (listDir_files dir acc f))) /\
  (dirname f = dir -> In (basename f) (snd (listDir_files dir acc f))).
Proof.
  destruct acc as [ds fs]. unfold listDir_files. cbn [fst snd].
  set (fs1 := if String.eqb (dirname f) dir then set_add (basename f) fs else fs).
  assert (Hfs : In x fs -> In x fs1).
  { intros H. subst fs1. destruct (String.eqb (dirname f) dir); [|exact H].
    apply set_add_In. now right. }
  assert (Hadd : dirname f = dir -> In (basename f) fs1).
  { intros H. subst fs1. apply String.eqb_eq in H. rewrite H.
    apply set_add_In. now left. }
  destruct (_ && _)%bool; [destruct (nonempty _)|]; cbn [fst snd];
    (split; [|split]); auto.
  intros H. apply set_add_In. now right.
Qed.

Lemma listDir_files_mono (dir x : string) (l : list string)
    (acc : list string * list string) :
  (In x (fst acc) -> In x (fst (fold_left (listDir_files dir) l acc))) /\
  (In x (snd acc) -> In x (snd (fold_left (listDir_files dir) l acc))).
Proof.
  revert acc. induction l as [|f l IH]; intros acc; [auto|].
  cbn [fold_left]. destruct (IH (listDir_files dir acc f)) as [I1 I2].
  destruct (listDir_files_step dir f x acc) as (S1 & S2 & _). auto.
Qed.

Lemma listDir_files_adds (dir p : string) (l : list string)
    (acc : list string * list string) :
  In p l -> dirname p = dir ->
  In (basename p) (snd (fold_left (listDir_files dir) l acc)).
Proof.
  intros Hin Hd. revert acc.
  induction l as [|f l IH]; intros acc; [contradiction|].
  cbn [fold_left]. destruct Hin as [->|Hin]; [|now apply IH].
  apply listDir_files_mono.
  now apply (listDir_files_step dir p (basename p) acc).
Qed.

(** X22. [ls] misses nothing that sits in the directory it lists: the listing of
    the parent of a file of the working tree holds the name of the file, and
    the listing of the parent of a known directory (other than the root,
    which is its own parent) holds its name followed by a slash. *)
Theorem listDir_lists_entries (r : Repo) :
  (forall p, obj_has (workingFiles r) p = true ->
             In (basename p) (listDir r (dirname p))) /\
  (forall d, obj_has (directories r) d = true -> d <> dirname d ->
             In (basename d ++ "/") (listDir r (dirname d))).
Proof.
  split.
  - intros p Hp. unfold listDir. rewrite normalizePath_dirname.
    pose proof (listDir_files_adds (dirname p) p (obj_keys (workingFiles r))
                  (fold_left (listDir_dirs (dirname p)) (obj_keys (directories r)) [],
                   [])
                  (proj1 (obj_has_In _ _) Hp) eq_refl) as H.
    destruct (fold_left (listDir_files (dirname p)) _ _) as [ds fs].
    cbn [snd] in H. apply in_or_app. right. now apply sort_In.
  - intros d Hd Hne. unfold listDir. rewrite normalizePath_dirname.
    pose proof (listDir_dirs_adds (dirname d) d (obj_keys (directories r)) []
                  (proj1 (obj_has_In _ _) Hd) Hne eq_refl) as H.
    pose proof (proj1 (listDir_files_mono (dirname d) (basename d ++ "/")
                         (obj_keys (workingFiles r))
                         (fold_left (listDir_dirs (dirname d))
                            (obj_keys (directories r)) [], [])) H) as H'.
    destruct (fold_left (listDir_files (dirname d)) _ _) as [ds fs].
    cbn [fst] in H'. apply in_or_app. left. now apply sort_In.
Qed.

(** ** Tokens of a command line *)

Lemma splitArgs_loop_tokens (s current : string) (inQuotes : bool)
    (tokens : list string) (skip : nat) :
  has_char dq_char current = false ->
  Forall (fun t => t <> "" /\ has_char dq_char t = false) tokens ->
  Forall (fun t => t <> "" /\ has_char dq_char t = false)
    (splitArgs_loop s current inQuotes tokens skip).
Proof.
  revert current inQuotes tokens skip.
  assert (Hpush : forall current tokens,
    has_char dq_char current = false ->
    Forall (fun t => t <> "" /\ has_char dq_char t = false) tokens ->
    Forall (fun t => t <> "" /\ has_char dq_char t = false)
      (if nonempty current then (tokens ++ [current])%list else tokens)).
  { intros current tokens Hc Ht. destruct (nonempty current) eqn:E; [|exact Ht].
    apply Forall_app. split; [exact Ht|].
    constructor; [|constructor]. split; [now apply nonempty_true | exact Hc]. }
  induction s as [|ch s IH]; intros current inQuotes tokens skip Hc Ht;
    cbn [splitArgs_loop].
  - now apply Hpush.
  - destruct skip as [|k]; [|now apply IH].
    destruct (Ascii.eqb ch dq_char) eqn:Eq; [now apply IH|].
    destruct (if inQuotes then 0 else blank_length (String ch s)).
    + apply IH; [|exact Ht].
      rewrite has_char_app, Hc. cbn [has_char orb]. now rewrite Eq.
    + apply IH; [reflexivity | now apply Hpush].
Qed.

(** X23. No token of [splitArgs] is empty and none holds a double quote: quotes
    only group, and a quoted empty string gives no token.  So the first
    token, when there is one, is a command name that is not empty. *)
Theorem splitArgs_tokens (line : string) :
  Forall (fun t => t <> "" /\ has_char dq_char t = false) (splitArgs line) /\
  (forall n, nth_truthy n (splitArgs line) = nth_error (splitArgs line) n).
Proof.
  assert (H : Forall (fun t => t <> "" /\ has_char dq_char t = false)
                (splitArgs line)).
  { unfold splitArgs. destruct (negb (nonempty (trim line))); [constructor|].
    apply splitArgs_loop_tokens; [reflexivity | constructor]. }
  split; [exact H|].
  intros n. unfold nth_truthy.
  destruct (nth_error (splitArgs line) n) as [t|] eqn:E; [|reflexivity].
  apply nth_error_In in E. rewrite Forall_forall in H.
  destruct (H t E) as [Hne _]. apply nonempty_true in Hne. now rewrite Hne.
Qed.

(** * History is only ever extended *)

Lemma history_kept_refl (fresh : string) (r : Repo) : history_kept fresh r r.
Proof. split; [auto | exists []; now rewrite app_nil_r]. Qed.

Lemma history_kept_same_graph (fresh : string) (r r' : Repo) :
  same_graph r r' -> history_kept fresh r r'.
Proof.
  intros [Hc Ho]. unfold history_kept. rewrite Hc, Ho.
  split; [auto | exists []; now rewrite app_nil_r].
Qed.

Lemma history_kept_trans (fresh : string) (a b c : Repo) :
  history_kept fresh a b -> history_kept fresh b c -> history_kept fresh a c.
Proof.
  intros [H1 [l1 O1]] [H2 [l2 O2]]. split; [auto|].
  exists (l1 ++ l2)%list. now rewrite O2, O1, app_assoc.
Qed.

Ltac kept_same := apply history_kept_same_graph; split; reflexivity.

Lemma gitCommit_kept args h now r : history_kept h r (fst (gitCommit args h now r)).
Proof.
  unfold gitCommit. cbv zeta.
  destruct (negb (ok (ensureInitialized r))); [apply history_kept_refl|].
  destruct (negb _); [apply history_kept_refl|].
  destruct (negb (is_nil (merge_conflicts r))); [apply history_kept_refl|].
  unfold history_kept. cbn.
  destruct (ensureBranchMeta_fields (currentBranch r) r) as (_ & _ & _ & Hc & Ho & _).
  cbv zeta in Hc, Ho. rewrite Hc, Ho. split.
  - intros k c Hk Hg. rewrite obj_get_set_neq; [exact Hg | congruence].
  - now exists [h].
Qed.

Lemma gitMerge_kept args h now r : history_kept h r (fst (gitMerge args h now r)).
Proof.
  unfold gitMerge. cbv zeta.
  destruct (negb (ok (ensureInitialized r))); [kept_same|].
  destruct (isDirty (getStatus r)); [kept_same|].
  destruct (first_or_null args) as [tb|]; [|kept_same].
  destruct (negb (obj_has (branches r) tb)); [kept_same|].
  destruct (negb (truthy (branch_or_null r tb))); [kept_same|].
  destruct (negb (truthy (head r))); [kept_same|].
  destruct (isAncestor r (head r) (branch_or_null r tb)); [kept_same|].
  destruct (isAncestor r (branch_or_null r tb) (head r)); [kept_same|].
  destruct (three_way _ _ _ _) as [merged cs].
  destruct (negb (is_nil cs)); [kept_same|].
  match goal with
  | |- context [gitCommit ?a ?hh ?n ?x] =>
      pose proof (gitCommit_kept a hh n x) as Hc;
      destruct (gitCommit a hh n x) as [r5 res5]
  end.
  exact Hc.
Qed.

Lemma gitRevert_kept args h now r : history_kept h r (fst (gitRevert args h now r)).
Proof.
  unfold gitRevert. cbv zeta.
  destruct (negb (ok (ensureInitialized r))); [kept_same|].
  destruct (nth_truthy 0 args) as [hashArg|]; [|kept_same].
  destruct (match resolveHashPrefix r hashArg with
            | Some f => _
            | None => _
            end) as [f|]; [|kept_same].
  destruct (match js_read (commits r) f with
            | own c => Some c
            | proto => Some prototype_commit
            | undef => None
            end) as [c|]; [|kept_same].
  match goal with
  | |- context [gitCommit ?a ?hh ?n ?x] =>
      pose proof (gitCommit_kept a hh n x) as Hc;
      destruct (gitCommit a hh n x) as [r5 res5]
  end.
  cbn [fst] in Hc. destruct (ok res5); exact Hc.
Qed.

Lemma pull_step_kept (rcommits : obj Commit) (order : list string) :
  forall acc,
    (forall h c, obj_get (fst acc) h = Some c ->
                 obj_get (fst (fold_left (pull_step rcommits) order acc)) h = Some c) /\
    (exists l, snd (fold_left (pull_step rcommits) order acc) = (snd acc ++ l)%list).
Proof.
  induction order as [|h order IH]; intros [cs o].
  - split; [auto | exists []; now rewrite app_nil_r].
  - cbn [fold_left]. unfold pull_step at 2 4.
    destruct (obj_get rcommits h) as [c|]; [|apply IH].
    destruct (obj_has cs h) eqn:Eh; cbn [negb]; [apply IH|].
    destruct (IH (obj_set cs h (deepCopy c), (o ++ [h])%list)) as [I1 [l I2]].
    cbn [fst snd] in *. split.
    + intros k ck Hk. apply I1. rewrite obj_get_set_neq; [exact Hk|].
      intros <-. unfold obj_has in Eh. now rewrite Hk in Eh.
    + exists (h :: l). rewrite I2, <- app_assoc. reflexivity.
Qed.

Lemma gitPull_kept args ctx h now r :
  history_kept h r (fst (gitPull args ctx h now r)).
Proof.
  unfold gitPull. cbv zeta.
  destruct (negb (ok (ensureInitialized r))); [kept_same|].
  destruct ctx as [store|]; [|kept_same].
  destruct (isDirty (getStatus r)); [kept_same|].
  destruct (js_read (remotes r) _) as [rm| |]; [| |kept_same];
    (destruct (getRepo store _) as [remoteRepo| |]; [|kept_same|kept_same]).
  all: destruct (negb (truthy _)); [kept_same|].
  all: pose proof (pull_step_kept (remote_commits remoteRepo)
                     (remote_commitOrder remoteRepo) (commits r, commitOrder r))
         as [Hp1 Hp2].
  all: destruct (fold_left _ _ _) as [cs order]; cbn [fst snd] in Hp1, Hp2.
  all: assert (Hf : forall r1, commits r1 = cs -> commitOrder r1 = order ->
                               history_kept h r r1)
         by (intros r1 E1 E2; unfold history_kept; rewrite E1, E2;
             split; [intros k c _ Hk; now apply Hp1 | exact Hp2]).
  all: destruct (negb (truthy _) || isAncestor _ _ _)%bool; [now apply Hf|].
  all: destruct (isAncestor _ _ _); [now apply Hf|].
  all: match goal with
       | |- context [gitMerge ?a ?hh ?n ?x] =>
           pose proof (gitMerge_kept a hh n x) as Hm;
           pose proof (Hf x eq_refl eq_refl) as Hx;
           destruct (gitMerge a hh n x) as [r3 res3]
       end.
  all: cbn [fst] in Hm |- *.
  all: apply (history_kept_trans h r _ _ Hx).
  all: destruct Hm as [M1 M2]; split; [exact M1 | exact M2].
Qed.

Lemma gitRemote_same_graph args ctx r :
  same_graph r (fst (fst (gitRemote args ctx r))).
Proof.
  unfold gitRemote. cbv zeta.
  destruct (negb (ok (ensureInitialized r))); [now split|].
  destruct ctx as [store|]; [|now split].
  destruct (nth_truthy 0 args) as [sub|]; [|now split].
  destruct (String.eqb sub "-v"); [now split|].
  destruct (String.eqb sub "add"); [|now split].
  destruct (nth_truthy 1 args) as [name|]; [|now split].
  destruct (nth_truthy 2 args) as [u|]; [|now split].
  destruct (js_defined (remotes r) name); [now split|].
  destruct (ensureRepo store u) as [[store' key]|]; now split.
Qed.

Lemma gitPush_same_graph args ctx r :
  same_graph r (fst (fst (gitPush args ctx r))).
Proof.
  unfold gitPush. cbv zeta.
  destruct (negb (ok (ensureInitialized r))); [now split|].
  destruct ctx as [store|]; [|now split].
  destruct (js_read (remotes r) _) as [rm| |]; [|now split|now split].
  destruct (ensureRepo store (url rm)) as [[store1 key]|]; [|now split].
  destruct (negb (truthy _)); [now split|].
  destruct (obj_get (byUrl store1) key) as [remoteRepo|]; [|now split].
  destruct (push_commits _ _ _) as [rc threw].
  destruct threw; [now split|].
  destruct (existsb is_upstream_flag args); now split.
Qed.

(** X24. No git command other than [clone] drops or rewrites history: every
    commit the repository held is still stored afterwards under its hash
    and unchanged (the hash the command draws for a new commit apart, which
    [commit], [merge], [pull] and [revert] write to without looking), and
    [commitOrder] only grows at its end.  This holds whether the command
    succeeds or fails, for [reset --hard] and [stash] too. *)
Theorem runGit_keeps_history (line : string) (ctx : option RemoteStore) (env : Env)
    (r : Repo) :
  nth_truthy 1 (splitArgs line) <> Some "clone" ->
  let r' := fst (fst (runGit line ctx env r)) in
  (forall h c, h <> env_hash env -> obj_get (commits r) h = Some c ->
               obj_get (commits r') h = Some c) /\
  (exists l, commitOrder r' = (commitOrder r ++ l)%list).
Proof.
  intros Hsub. cbv zeta.
  change (history_kept (env_hash env) r (fst (fst (runGit line ctx env r)))).
  unfold runGit. cbv zeta.
  destruct (nth_truthy 1 (splitArgs line)) as [sub|]; [|apply history_kept_refl].
  unfold returned.
  destruct (String.eqb_spec sub "clone") as [->|_]; [now contradiction Hsub|].
  repeat match goal with
         | |- context [if String.eqb sub ?s then _ else _] =>
             destruct (String.eqb sub s)
         end;
    cbn [fst snd].
  - apply history_kept_same_graph, gitInit_same_graph.
  - rewrite gitStatus_atomic. apply history_kept_refl.
  - apply history_kept_same_graph, gitAdd_same_graph.
  - apply gitCommit_kept.
  - rewrite gitLog_atomic. apply history_kept_refl.
  - apply history_kept_same_graph, gitBranch_same_graph.
  - apply history_kept_same_graph, gitCheckout_same_graph.
  - apply gitMerge_kept.
  - apply history_kept_same_graph, gitRemote_same_graph.
  - apply history_kept_same_graph, gitPush_same_graph.
  - apply gitPull_kept.
  - apply history_kept_same_graph, gitStash_same_graph.
  - apply history_kept_same_graph, gitReset_same_graph.
  - apply gitRevert_kept.
  - apply history_kept_refl.
Qed.

Lemma runGit_keeps_history_witness :
  nth_truthy 1 (splitArgs "git reset --hard HEAD~1") <> Some "clone" /\
  head (fst (fst (runGit "git reset --hard HEAD~1" None env0 lesson4))) = Some h1 /\
  obj_has (commits (fst (fst (runGit "git reset --hard HEAD~1" None env0 lesson4)))) h3
  = true.
Proof.
  assert (H1 : nth_truthy 1 (splitArgs "git reset --hard HEAD~1") <> Some "clone")
    by (vm_compute; discriminate).
  pose proof (runGit_keeps_history "git reset --hard HEAD~1" None env0 lesson4 H1) as H.
  cbv zeta in H. destruct H as [H _].
  split; [exact H1|]. split; [vm_compute; reflexivity|].
  assert (E : exists c, obj_get (commits lesson4) h3 = Some c)
    by (vm_compute; eexists; reflexivity).
  destruct E as [c E].
  assert (N : h3 <> env_hash env0) by (vm_compute; discriminate).
  unfold obj_has. now rewrite (H h3 c N E).
Defined.

(** * The merge base *)

Lemma not_nonempty (h : string) : negb (nonempty h) = true -> h = "".
Proof.
  intros E. apply Bool.negb_true_iff in E. unfold nonempty in E.
  now apply Bool.negb_false_iff, String.eqb_eq in E.
Qed.

Lemma in_queue_parents (x : string) (dx d : nat) (rest : list (string * nat))
    (ps : list string) :
  In (x, dx) (rest ++ map (fun p => (p, d + 1)) ps) ->
  In (x, dx) rest \/ In x ps.
Proof.
  intros H. apply in_app_or in H as [H|H]; [now left|].
  apply in_map_iff in H as (p & E & Hp). injection E as <- _. now right.
Qed.

Lemma in_parents_queue (p : string) (d : nat) (rest : list (string * nat))
    (ps : list string) :
  In p ps -> In (p, d + 1) (rest ++ map (fun q => (q, d + 1)) ps).
Proof.
  intros H. apply in_or_app. right. apply in_map_iff. now exists p.
Qed.

Section Bfs.
Variable r : Repo.

Lemma closed_under_parents (P : string -> Prop) :
  (forall x c p, P x -> obj_get (commits r) x = Some c -> In p (parents c) -> P p) ->
  forall x y, reachable r x y -> P x -> P y.
Proof.
  intros Hcl x y H. induction H as [h | h q h' c Hc Hq _ IH]; intros Hin; auto.
  apply IH. eapply Hcl; eauto.
Qed.

Lemma dist_sound (a : string) :
  forall fuel dist queue m,
    (forall k, obj_has dist k = true -> reachable r a k) ->
    (forall h d, In (h, d) queue -> reachable r a h) ->
    iter (dist_body r) fuel (dist, queue) = Some m ->
    forall k, obj_has m k = true -> reachable r a k.
Proof.
  induction fuel as [|f IH]; intros dist queue m Hd Hq; cbn [iter]; [discriminate|].
  unfold dist_body at 1.
  destruct queue as [|[h d] rest].
  - intros E. injection E as <-. exact Hd.
  - assert (Hq1 : forall x dx, In (x, dx) rest -> reachable r a x)
      by (intros x dx Hx; apply (Hq x dx); now right).
    destruct (negb (nonempty h) || obj_has dist h)%bool; [now apply IH|].
    assert (Hh : reachable r a h) by (apply (Hq h d); now left).
    assert (Hd' : forall k, obj_has (obj_set dist h d) k = true -> reachable r a k).
    { intros k Hk. rewrite obj_has_set in Hk.
      apply Bool.orb_true_iff in Hk as [Hk|Hk].
      - apply String.eqb_eq in Hk. now subst k.
      - now apply Hd. }
    destruct (obj_get (commits r) h) as [c|] eqn:Ec; [|now apply IH].
    apply IH; [exact Hd'|]. intros x dx Hx.
    apply in_queue_parents in Hx as [Hx|Hx]; [now apply (Hq1 x dx)|].
    eapply reachable_snoc; eauto.
Qed.

Lemma best_sound (dist : obj nat) (b : string) :
  forall fuel st res,
    (forall h, best st = Some h -> obj_has dist h = true /\ reachable r b h) ->
    (forall h d, In (h, d) (queue2 st) -> reachable r b h) ->
    iter (best_body r dist) fuel st = Some res ->
    forall h, res = Some h -> obj_has dist h = true /\ reachable r b h.
Proof.
  induction fuel as [|f IH]; intros [bst bd seen queue] res Hb Hq; cbn [iter];
    [discriminate|].
  unfold best_body at 1. cbn [queue2 seen2 best bestD] in *.
  destruct queue as [|[h d] rest].
  - intros E. injection E as <-. exact Hb.
  - assert (Hq1 : forall x dx, In (x, dx) rest -> reachable r b x)
      by (intros x dx Hx; apply (Hq x dx); now right).
    destruct (negb (nonempty h) || mem h seen)%bool; [now apply IH|].
    assert (Hh : reachable r b h) by (apply (Hq h d); now left).
    assert (Hq2 : forall c, obj_get (commits r) h = Some c ->
                  forall x dx,
                    In (x, dx) (rest ++ map (fun p => (p, d + 1)) (parents c)) ->
                    reachable r b x).
    { intros c Ec x dx Hx.
      apply in_queue_parents in Hx as [Hx|Hx]; [now apply (Hq1 x dx)|].
      eapply reachable_snoc; eauto. }
    assert (Hnew : forall x, Some h = Some x -> obj_get dist h <> None ->
                             obj_has dist x = true /\ reachable r b x).
    { intros x E Hn. injection E as <-. split; [|exact Hh].
      unfold obj_has. destruct (obj_get dist h); [reflexivity | contradiction]. }
    destruct (obj_get dist h) as [dh|] eqn:Edh;
      [cbv zeta; destruct (lt_bestD (dh + d) bd)|];
      destruct (obj_get (commits r) h) as [c|] eqn:Ec;
      apply IH; cbn [best queue2]; auto;
      try (now apply Hq2);
      intros x E; (apply Hnew; [exact E | discriminate]).
Qed.

Hypothesis Hwf : no_empty_parent r.

Lemma dist_step (st st' : obj nat * list (string * nat)) :
  dist_body r st = inl st' -> dist_closed r st ->
  dist_closed r st' /\ (forall x, dist_covers st x -> dist_covers st' x).
Proof.
  destruct st as [dist queue]. unfold dist_body, dist_closed, dist_covers.
  cbn [fst snd].
  destruct queue as [|[h d] rest]; [discriminate|].
  destruct (negb (nonempty h) || obj_has dist h)%bool eqn:E.
  - intros H Hcl. injection H as <-. cbn [fst snd]. split.
    + intros x c p H1 H2 H3.
      destruct (Hcl x c p H1 H2 H3) as [H|[dp [Hp|Hp]]]; [now left | | right; eauto].
      injection Hp as E1 E2. subst p dp.
      apply Bool.orb_true_iff in E as [E|E]; [|now left].
      apply not_nonempty in E. subst h. exfalso. exact (Hwf x c H2 H3).
    + intros x [Hx|[[dx [Hx|Hx]] Hne]]; [now left | | right; split; eauto].
      injection Hx as E1 E2. subst x dx.
      apply Bool.orb_true_iff in E as [E|E]; [|now left].
      apply not_nonempty in E. contradiction.
  - assert (Hmono : forall k, obj_has dist k = true ->
                              obj_has (obj_set dist h d) k = true).
    { intros k Hk. rewrite obj_has_set, Hk. apply Bool.orb_true_r. }
    assert (Hh : obj_has (obj_set dist h d) h = true).
    { rewrite obj_has_set, String.eqb_refl. reflexivity. }
    destruct (obj_get (commits r) h) as [c|] eqn:Ec;
      intros H Hcl; injection H as <-; cbn [fst snd]; split.
    + intros x c0 p H1 H2 H3. rewrite obj_has_set in H1.
      apply Bool.orb_true_iff in H1 as [H1|H1].
      * apply String.eqb_eq in H1. subst x.
        assert (c0 = c) by congruence. subst c0.
        right. exists (d + 1). now apply in_parents_queue.
      * destruct (Hcl x c0 p H1 H2 H3) as [H|[dp [Hp|Hp]]].
        -- left. now apply Hmono.
        -- injection Hp as E1 E2. subst p dp. now left.
        -- right. exists dp. apply in_or_app. now left.
    + intros x [Hx|[[dx [Hx|Hx]] Hne]].
      * left. now apply Hmono.
      * injection Hx as E1 E2. subst x dx. now left.
      * right. split; [|exact Hne]. exists dx. apply in_or_app. now left.
    + intros x c0 p H1 H2 H3. rewrite obj_has_set in H1.
      apply Bool.orb_true_iff in H1 as [H1|H1].
      * apply String.eqb_eq in H1. subst x. congruence.
      * destruct (Hcl x c0 p H1 H2 H3) as [H|[dp [Hp|Hp]]].
        -- left. now apply Hmono.
        -- injection Hp as E1 E2. subst p dp. now left.
        -- right. now exists dp.
    + intros x [Hx|[[dx [Hx|Hx]] Hne]].
      * left. now apply Hmono.
      * injection Hx as E1 E2. subst x dx. now left.
      * right. split; [|exact Hne]. now exists dx.
Qed.

Lemma dist_complete :
  forall fuel st m,
    dist_closed r st ->
    iter (dist_body r) fuel st = Some m ->
    forall x, dist_covers st x ->
    forall y, reachable r x y -> obj_has m y = true.
Proof.
  induction fuel as [|f IH]; intros st m Hcl; cbn [iter]; [discriminate|].
  destruct (dist_body r st) as [st'|res] eqn:Eb.
  - destruct (dist_step st st' Eb Hcl) as [Hcl' Hcov].
    intros Hit x Hx. apply (IH st' m Hcl' Hit). now apply Hcov.
  - intros E x Hx y Hreach. injection E as <-.
    destruct st as [dist queue]. unfold dist_body in Eb.
    destruct queue as [|[h d] rest].
    + injection Eb as <-.
      destruct Hx as [Hx|[[dx []] _]]. cbn [fst] in Hx.
      apply (closed_under_parents (fun k => obj_has dist k = true)) with (x := x);
        auto.
      intros x0 c p H1 H2 H3.
      destruct (Hcl x0 c p H1 H2 H3) as [H|[dp []]]. exact H.
    + destruct (negb (nonempty h) || obj_has dist h)%bool; [discriminate|].
      destruct (obj_get (commits r) h); discriminate.
Qed.

Lemma best_step (dist : obj nat) (st st' : BestAcc) :
  best_body r dist st = inl st' -> best_inv r dist st ->
  best_inv r dist st' /\ (forall x, best_covers st x -> best_covers st' x).
Proof.
  destruct st as [bst bd seen queue]. unfold best_body, best_inv, best_covers.
  cbn [queue2 seen2 best bestD].
  destruct queue as [|[h d] rest]; [discriminate|].
  destruct (negb (nonempty h) || mem h seen)%bool eqn:E.
  - intros H (HI & HJ & Hcl). injection H as <-. cbn [queue2 seen2 best bestD].
    split; [split; [exact HI|]; split; [exact HJ|]|].
    + intros x c p H1 H2 H3.
      destruct (Hcl x c p H1 H2 H3) as [H|[dp [Hp|Hp]]]; [now left | | right; eauto].
      injection Hp as E1 E2. subst p dp.
      apply Bool.orb_true_iff in E as [E|E]; [|left; now apply mem_In].
      apply not_nonempty in E. subst h. exfalso. exact (Hwf x c H2 H3).
    + intros x [Hx|[[dx [Hx|Hx]] Hne]]; [now left | | right; split; eauto].
      injection Hx as E1 E2. subst x dx.
      apply Bool.orb_true_iff in E as [E|E]; [|left; now apply mem_In].
      apply not_nonempty in E. contradiction.
  - intros H (HI & HJ & Hcl).
    assert (Hbest : forall b' bd',
              (b', bd') = match obj_get dist h with
                          | Some dh =>
                              let total := dh + d in
                              if lt_bestD total bd then (Some h, Some total)
                              else (bst, bd)
                          | None => (bst, bd)
                          end ->
              (bd' <> None -> b' <> None) /\
              (forall x, In x (h :: seen) -> obj_has dist x = true -> b' <> None)).
    { intros b' bd' Eq. unfold obj_has in *.
      destruct (obj_get dist h) as [dh|] eqn:Edh.
      - cbv zeta in Eq. destruct (lt_bestD (dh + d) bd) eqn:Elt.
        + injection Eq as -> ->. split; intros; discriminate.
        + injection Eq as -> ->. split; [exact HI|].
          intros x [<-|Hx] Hd; [|now apply (HJ x)].
          apply HI. destruct bd; [discriminate | discriminate Elt].
      - injection Eq as -> ->. split; [exact HI|].
        intros x [<-|Hx] Hd; [|now apply (HJ x)].
        rewrite Edh in Hd. discriminate. }
    destruct (match obj_get dist h with
              | Some dh => _
              | None => _
              end) as [b' bd'] eqn:Eq.
    destruct (Hbest b' bd' eq_refl) as [HI' HJ'].
    destruct (obj_get (commits r) h) as [c|] eqn:Ec;
      injection H as <-; cbn [queue2 seen2 best bestD];
      (split; [split; [exact HI'|]; split; [exact HJ'|]|]).
    + intros x c0 p [<-|H1] H2 H3.
      * assert (c0 = c) by congruence. subst c0.
        right. exists (d + 1). now apply in_parents_queue.
      * destruct (Hcl x c0 p H1 H2 H3) as [H|[dp [Hp|Hp]]].
        -- left. now right.
        -- injection Hp as E1 E2. subst p dp. left. now left.
        -- right. exists dp. apply in_or_app. now left.
    + intros x [Hx|[[dx [Hx|Hx]] Hne]].
      * left. now right.
      * injection Hx as E1 E2. subst x dx. left. now left.
      * right. split; [|exact Hne]. exists dx. apply in_or_app. now left.
    + intros x c0 p [<-|H1] H2 H3; [congruence|].
      destruct (Hcl x c0 p H1 H2 H3) as [H|[dp [Hp|Hp]]].
      * left. now right.
      * injection Hp as E1 E2. subst p dp. left. now left.
      * right. now exists dp.
    + intros x [Hx|[[dx [Hx|Hx]] Hne]].
      * left. now right.
      * injection Hx as E1 E2. subst x dx. left. now left.
      * right. split; [|exact Hne]. now exists dx.
Qed.

Lemma best_complete (dist : obj nat) :
  forall fuel st res,
    best_inv r dist st ->
    iter (best_body r dist) fuel st = Some res ->
    forall x, best_covers st x ->
    forall y, reachable r x y -> obj_has dist y = true -> res <> None.
Proof.
  induction fuel as [|f IH]; intros st res Hinv; cbn [iter]; [discriminate|].
  destruct (best_body r dist st) as [st'|res0] eqn:Eb.
  - destruct (best_step dist st st' Eb Hinv) as [Hinv' Hcov].
    intros Hit x Hx. apply (IH st' res Hinv' Hit). now apply Hcov.
  - intros E x Hx y Hreach Hy. injection E as <-.
    destruct st as [bst bd seen queue]. unfold best_body in Eb.
    cbn [queue2 seen2 best bestD] in Eb.
    destruct Hinv as (HI & HJ & Hcl). cbn [queue2 seen2 best bestD] in *.
    destruct queue as [|[h d] rest].
    + injection Eb as <-.
      destruct Hx as [Hx|[[dx []] _]]. cbn [seen2] in Hx.
      apply (HJ y); [|exact Hy].
      apply (closed_under_parents (fun k => In k seen)) with (x := x); auto.
      intros x0 c p H1 H2 H3.
      destruct (Hcl x0 c p H1 H2 H3) as [H|[dp []]]. exact H.
    + destruct (negb (nonempty h) || mem h seen)%bool; [discriminate|].
      destruct (match obj_get dist h with
                | Some dh => _
                | None => _
                end) as [b' bd'].
      destruct (obj_get (commits r) h); discriminate.
Qed.
End Bfs.

(** X25. [findCommonAncestor(a, b)] only ever returns a commit that both [a] and
    [b] reach through parent links, and it returns one whenever the two
    reach a common commit; it is null for a null or empty hash on either
    side.  (Parents are never the empty string.) *)
Theorem findCommonAncestor_spec (r : Repo) (a b : option string) :
  no_empty_parent r ->
  (forall h, findCommonAncestor r a b = Some h ->
     exists ha hb, a = Some ha /\ b = Some hb /\ ha <> "" /\ hb <> "" /\
                   reachable r ha h /\ reachable r hb h) /\
  (forall ha hb y, a = Some ha -> b = Some hb -> ha <> "" -> hb <> "" ->
     reachable r ha y -> reachable r hb y -> findCommonAncestor r a b <> None).
Proof.
  intros Hwf. unfold findCommonAncestor.
  destruct a as [ha|]; [|split; [discriminate | intros; discriminate]].
  destruct b as [hb|]; [|split; [discriminate | intros; discriminate]].
  destruct (nonempty ha) eqn:Na; cbn [negb orb].
  2:{ split; [discriminate|]. intros ha' hb' y Ea _ Hne _ _ _.
      injection Ea as <-. apply nonempty_true in Hne. congruence. }
  destruct (nonempty hb) eqn:Nb; cbn [negb].
  2:{ split; [discriminate|]. intros ha' hb' y _ Eb _ Hne _ _.
      injection Eb as <-. apply nonempty_true in Hne. congruence. }
  apply nonempty_true in Na, Nb.
  destruct (String.eqb_spec ha hb) as [<-|Hab].
  { split; [|intros; discriminate].
    intros h E. injection E as <-. exists ha, ha.
    repeat split; auto; constructor. }
  destruct (dist_terminates r ha) as [m Hm]. rewrite Hm.
  destruct (best_terminates r m hb) as [res Hres]. rewrite Hres.
  split.
  - intros h ->. exists ha, hb.
    assert (Hb : obj_has m h = true /\ reachable r hb h).
    { apply (best_sound r m hb _ _ _) with (3 := Hres); cbn [best queue2].
      - discriminate.
      - intros x d [E|[]]. injection E as <- _. constructor.
      - reflexivity. }
    destruct Hb as [Hd Hr].
    repeat split; auto.
    apply (dist_sound r ha _ _ _ m) with (3 := Hm); auto.
    + intros k Hk. discriminate.
    + intros x d [E|[]]. injection E as <- _. constructor.
  - intros ha' hb' y Ea Eb _ _ R1 R2. injection Ea as <-. injection Eb as <-.
    assert (Hy : obj_has m y = true).
    { apply (dist_complete r Hwf _ _ m) with (2 := Hm) (x := ha); auto.
      - intros x c p Hx. discriminate.
      - right. split; [exists 0; now left | exact Na]. }
    apply (best_complete r Hwf m _ _ res) with (2 := Hres) (x := hb) (y := y); auto.
    + split; [intros H; now contradiction H|]. split.
      * intros x [].
      * intros x c p [].
    + right. split; [exists 0; now left | exact Nb].
Qed.

Lemma findCommonAncestor_spec_witness :
  no_empty_parent lesson4 /\
  reachable lesson4 h3 h1 /\ reachable lesson4 h2 h1.
Proof.
  split; [exact no_empty_parent_lesson4|].
  destruct (findCommonAncestor_spec lesson4 (Some h3) (Some h2)
              no_empty_parent_lesson4) as [H _].
  assert (E : findCommonAncestor lesson4 (Some h3) (Some h2) = Some h1)
    by (vm_compute; reflexivity).
  destruct (H h1 E) as (ha & hb & Ea & Eb & _ & _ & R1 & R2).
  injection Ea as <-. injection Eb as <-. now split.
Defined.

(** * add *)

Lemma gitAdd_step_staged (r : Repo) (hs : obj string) (a : AddAcc) (p q : string) :
  obj_get (add_staged (gitAdd_step r hs a p)) q
  = if String.eqb q p
    then if obj_has (workingFiles r) p then Some (obj_get (workingFiles r) p)
         else if obj_has hs p then Some None
         else obj_get (add_staged a) q
    else obj_get (add_staged a) q.
Proof.
  unfold gitAdd_step. destruct (String.eqb_spec q p) as [->|N].
  - destruct (obj_has (workingFiles r) p); cbn [negb andb add_staged];
      [apply obj_get_set_eq|].
    destruct (obj_has hs p); cbn [add_staged]; [apply obj_get_set_eq | reflexivity].
  - assert (N' : p <> q) by congruence.
    destruct (obj_has (workingFiles r) p); cbn [negb andb add_staged];
      [now apply obj_get_set_neq|].
    destruct (obj_has hs p); cbn [add_staged];
      [now apply obj_get_set_neq | reflexivity].
Qed.

Lemma gitAdd_fold_staged (r : Repo) (hs : obj string) (targets : list string) :
  forall (a : AddAcc) (q : string),
    obj_get (add_staged (fold_left (gitAdd_step r hs) targets a)) q
    = if mem q targets
      then if obj_has (workingFiles r) q then Some (obj_get (workingFiles r) q)
           else if obj_has hs q then Some None
           else obj_get (add_staged a) q
      else obj_get (add_staged a) q.
Proof.
  induction targets as [|p targets IH]; intros a q; [reflexivity|].
  cbn [fold_left]. rewrite IH, mem_cons, gitAdd_step_staged.
  destruct (String.eqb_spec q p) as [->|N]; cbn [orb]; [|reflexivity].
  destruct (mem p targets); [|reflexivity].
  destruct (obj_has (workingFiles r) p); [reflexivity|].
  destruct (obj_has hs p); reflexivity.
Qed.

Lemma is_nil_snoc {A : Type} (l : list A) (x : A) : is_nil (l ++ [x]) = false.
Proof. now destruct l. Qed.

Lemma gitAdd_fold_errors (r : Repo) (hs : obj string) (targets : list string) :
  forall a : AddAcc,
    is_nil (errors (fold_left (gitAdd_step r hs) targets a))
    = (is_nil (errors a)
       && forallb (fun p => obj_has (workingFiles r) p || obj_has hs p) targets)%bool.
Proof.
  induction targets as [|p targets IH]; intros a; cbn [fold_left forallb].
  - now rewrite Bool.andb_true_r.
  - rewrite IH. unfold gitAdd_step.
    destruct (obj_has (workingFiles r) p); cbn [negb andb orb errors]; [reflexivity|].
    destruct (obj_has hs p); cbn [errors]; [reflexivity|].
    rewrite is_nil_snoc. cbn [andb]. now rewrite Bool.andb_false_r.
Qed.

Lemma gitAdd_fields (args : list string) (r : Repo) :
  initialized r = true -> is_nil args = false ->
  let targets :=
    if (mem "." args || mem "-A" args || mem "--all" args)%bool
    then set_of (obj_keys (workingFiles r) ++ obj_keys (getHeadSnapshot r))%list
    else map (joinPath (cwd r)) args in
  let a := fold_left (gitAdd_step r (getHeadSnapshot r)) targets
             {| add_staged := stagedFiles r;
                add_conflicts := set_of (merge_conflicts r);
                added := []; errors := [] |} in
  let r' := fst (gitAdd args r) in
  stagedFiles r' = add_staged a /\ workingFiles r' = workingFiles r /\
  getHeadSnapshot r' = getHeadSnapshot r /\
  ok (snd (gitAdd args r)) = is_nil (errors a).
Proof.
  intros Hi Ha. cbv zeta. unfold gitAdd, ensureInitialized.
  rewrite Hi, Ha. cbn [negb ok]. cbv zeta.
  unfold set_conflicts, getHeadSnapshot, head.
  destruct (is_nil (errors _)); cbn [negb fst snd];
    destruct (mergeState (set_stagedFiles _ r)); repeat split.
Qed.

(** X26. [git add] writes the index and nothing else.  Of the paths it is given
    (every path of the working tree and of HEAD for [.], [-A] and [--all]),
    a file of the working tree is staged with its content, a path only HEAD
    has is staged as a deletion, and a path neither has is reported; every
    other index entry is kept.  It succeeds exactly when every path it was
    given names a file of the working tree or of HEAD. *)
Theorem gitAdd_stages_targets (args : list string) (r : Repo) :
  initialized r = true -> args <> [] ->
  let targets :=
    if (mem "." args || mem "-A" args || mem "--all" args)%bool
    then set_of (obj_keys (workingFiles r) ++ obj_keys (getHeadSnapshot r))%list
    else map (joinPath (cwd r)) args in
  let r' := fst (gitAdd args r) in
  (forall p, In p targets -> obj_has (workingFiles r) p = true ->
             obj_get (stagedFiles r') p = Some (obj_get (workingFiles r) p)) /\
  (forall p, In p targets -> obj_has (workingFiles r) p = false ->
             obj_has (getHeadSnapshot r) p = true ->
             obj_get (stagedFiles r') p = Some None) /\
  (forall p, ~ In p targets \/
             (obj_has (workingFiles r) p = false /\
              obj_has (getHeadSnapshot r) p = false) ->
             obj_get (stagedFiles r') p = obj_get (stagedFiles r) p) /\
  workingFiles r' = workingFiles r /\ getHeadSnapshot r' = getHeadSnapshot r /\
  (ok (snd (gitAdd args r)) = true <->
   forall p, In p targets ->
             obj_has (workingFiles r) p = true \/ obj_has (getHeadSnapshot r) p = true).
Proof.
  intros Hi Ha.
  assert (Hn : is_nil args = false) by (destruct args; [contradiction | reflexivity]).
  destruct (gitAdd_fields args r Hi Hn) as (Hs & Hw & Hh & Hok).
  cbv zeta in *. rewrite Hs, Hok.
  set (targets := if (mem "." args || mem "-A" args || mem "--all" args)%bool
                  then _ else _) in *.
  split; [|split; [|split; [|split; [exact Hw | split; [exact Hh|]]]]].
  - intros p Hp Hwp. rewrite gitAdd_fold_staged.
    apply mem_In in Hp. now rewrite Hp, Hwp.
  - intros p Hp Hwp Hhp. rewrite gitAdd_fold_staged.
    apply mem_In in Hp. now rewrite Hp, Hwp, Hhp.
  - intros p Hp. rewrite gitAdd_fold_staged. cbn [add_staged].
    destruct (mem p targets) eqn:Em; [|reflexivity].
    destruct Hp as [Hp|[Hwp Hhp]].
    + apply mem_In in Em. contradiction.
    + now rewrite Hwp, Hhp.
  - rewrite gitAdd_fold_errors. cbn [errors is_nil andb].
    rewrite forallb_forall. split.
    + intros H p Hp. specialize (H p Hp). now apply Bool.orb_true_iff in H.
    + intros H p Hp. apply Bool.orb_true_iff. now apply H.
Qed.

Lemma gitAdd_stages_targets_witness :
  (initialized lesson2_with_file = true /\ ["a.txt"] <> []) /\
  obj_get (stagedFiles (fst (gitAdd ["a.txt"] lesson2_with_file))) "/a.txt"
  = Some (Some "A").
Proof.
  assert (H1 : initialized lesson2_with_file = true) by (vm_compute; reflexivity).
  assert (H2 : ["a.txt"] <> ([] : list string)) by discriminate.
  pose proof (gitAdd_stages_targets ["a.txt"] lesson2_with_file H1 H2) as H.
  cbv zeta in H. destruct H as (H & _).
  split; [split; assumption|].
  rewrite (H "/a.txt"); [vm_compute; reflexivity | vm_compute; auto |
                         vm_compute; reflexivity].
Defined.

Lemma fold_status_unstaged_nil (r : Repo) (l : list string) :
  (forall a p, acc_unstaged (status_step r a p) = acc_unstaged a) ->
  forall a, acc_unstaged (fold_left (status_step r) l a) = acc_unstaged a.
Proof.
  intros H. induction l as [|p l IH]; intros a; [reflexivity|].
  cbn [fold_left]. now rewrite IH, H.
Qed.

Lemma unstaged_nil_if_staged (r : Repo) :
  (forall p, obj_has (workingFiles r) p = true ->
             obj_get (stagedFiles r) p = Some (obj_get (workingFiles r) p)) ->
  (forall p, obj_has (workingFiles r) p = false ->
             obj_has (getHeadSnapshot r) p = true ->
             obj_has (stagedFiles r) p = true) ->
  unstaged (getStatus r) = [].
Proof.
  intros Hw Hd. unfold getStatus. cbn [unstaged].
  rewrite fold_status_unstaged_nil; [reflexivity|].
  intros a p. unfold status_step.
  destruct (mem p (set_of (merge_conflicts r))); [reflexivity|].
  set (a1 := if obj_has (stagedFiles r) p then _ else a).
  assert (Ha1 : acc_unstaged a1 = acc_unstaged a).
  { subst a1. repeat match goal with
                     | |- context [if ?b then _ else _] => destruct b
                     end; reflexivity. }
  clearbody a1.
  destruct (obj_has (getHeadSnapshot r) p) eqn:Eh;
    destruct (obj_has (workingFiles r) p) eqn:Ew; cbn [negb andb]; try exact Ha1.
  - rewrite (Hw p Ew). unfold obj_has. rewrite (Hw p Ew).
    destruct (negb (opt_eqb _ _)); [|exact Ha1].
    rewrite opt_eqb_refl. exact Ha1.
  - rewrite (Hd p Ew Eh). exact Ha1.
Qed.

(** X27. After [git add .] (or [-A], or [--all]) nothing is left unstaged: the
    command succeeds, and [getStatus] lists no file as modified or deleted
    in the working tree relative to the index. *)
Theorem gitAdd_all_leaves_nothing_unstaged (args : list string) (r : Repo) :
  initialized r = true ->
  (mem "." args || mem "-A" args || mem "--all" args)%bool = true ->
  ok (snd (gitAdd args r)) = true /\
  unstaged (getStatus (fst (gitAdd args r))) = [].
Proof.
  intros Hi Hall.
  assert (Hn : is_nil args = false) by (destruct args; [discriminate | reflexivity]).
  destruct (gitAdd_fields args r Hi Hn) as (Hs & Hw & Hh & Hok).
  cbv zeta in *. rewrite Hall in *.
  assert (Hin : forall p, obj_has (workingFiles r) p = true
                          \/ obj_has (getHeadSnapshot r) p = true ->
                          mem p (set_of (obj_keys (workingFiles r)
                                           ++ obj_keys (getHeadSnapshot r))%list)
                          = true).
  { intros p Hp. apply mem_In, set_of_In, in_or_app.
    destruct Hp as [Hp|Hp]; [left | right]; now apply obj_has_In. }
  split.
  - rewrite Hok, gitAdd_fold_errors. cbn [errors is_nil andb].
    apply forallb_forall. intros p Hp.
    apply set_of_In, in_app_or in Hp. apply Bool.orb_true_iff.
    destruct Hp as [Hp|Hp]; [left | right]; now apply obj_has_In.
  - apply unstaged_nil_if_staged.
    + intros p Hp. rewrite Hw in Hp |- *. rewrite Hs, gitAdd_fold_staged.
      rewrite Hin by now left. now rewrite Hp.
    + intros p Hp Hhp. rewrite Hw in Hp. rewrite Hh in Hhp.
      unfold obj_has at 1. rewrite Hs, gitAdd_fold_staged.
      rewrite Hin by now right. now rewrite Hp, Hhp.
Qed.

Lemma gitAdd_all_leaves_nothing_unstaged_witness :
  (initialized lesson2_with_file = true /\
   (mem "." ["."] || mem "-A" ["."] || mem "--all" ["."])%bool = true) /\
  unstaged (getStatus (fst (gitAdd ["."] lesson2_with_file))) = [].
Proof.
  assert (H1 : initialized lesson2_with_file = true) by (vm_compute; reflexivity).
  assert (H2 : (mem "." ["."] || mem "-A" ["."] || mem "--all" ["."])%bool = true)
    by (vm_compute; reflexivity).
  pose proof (gitAdd_all_leaves_nothing_unstaged ["."] lesson2_with_file H1 H2) as H.
  destruct H as [_ H]. split; [split; assumption | exact H].
Defined.

(** * revert *)

Lemma revert_step_get (pf cf hf : obj string) (p q : string) :
  obj_get (revert_step pf cf hf p) q
  = if (String.eqb q p && negb (opt_eqb (obj_get pf p) (obj_get cf p)))%bool
    then obj_get pf p else obj_get hf q.
Proof.
  unfold revert_step.
  destruct (opt_eqb (obj_get pf p) (obj_get cf p)) eqn:E; cbn [negb].
  - now rewrite Bool.andb_false_r.
  - rewrite Bool.andb_true_r.
    destruct (String.eqb_spec q p) as [->|N].
    + destruct (obj_get pf p) as [b|], (obj_get cf p) as [a|];
        first [ apply obj_get_set_eq | apply obj_get_delete_eq | discriminate E ].
    + assert (N' : p <> q) by congruence.
      destruct (obj_get pf p) as [b|], (obj_get cf p) as [a|];
        first [ now apply obj_get_set_neq | now apply obj_get_delete_neq
              | reflexivity ].
Qed.

Lemma revert_fold_get (pf cf : obj string) (paths : list string) :
  forall (hf : obj string) (q : string),
    obj_get (fold_left (revert_step pf cf) paths hf) q
    = if (mem q paths && negb (opt_eqb (obj_get pf q) (obj_get cf q)))%bool
      then obj_get pf q else obj_get hf q.
Proof.
  induction paths as [|p paths IH]; intros hf q; [reflexivity|].
  cbn [fold_left]. rewrite IH, mem_cons, revert_step_get.
  destruct (String.eqb_spec q p) as [->|N]; cbn [orb andb]; [|reflexivity].
  destruct (opt_eqb (obj_get pf p) (obj_get cf p)); cbn [negb];
    [now rewrite !Bool.andb_false_r|].
  rewrite Bool.andb_true_r. now destruct (mem p paths).
Qed.

Lemma revert_fold_NoDup (pf cf : obj string) (paths : list string) (hf : obj string) :
  NoDup (obj_keys hf) -> NoDup (obj_keys (fold_left (revert_step pf cf) paths hf)).
Proof.
  apply NoDup_fold_obj_set. intros s p H. unfold revert_step.
  destruct (opt_eqb _ _); [exact H|].
  destruct (obj_get pf p), (obj_get cf p);
    first [ now apply NoDup_obj_set | now apply NoDup_obj_delete | exact H ].
Qed.

Lemma mem_keys_has {V : Type} (o : obj V) (k : string) :
  mem k (obj_keys o) = obj_has o k.
Proof.
  apply Bool.eq_true_iff_eq. now rewrite mem_In, obj_has_In.
Qed.

Lemma overlay_stage_all_base (base work old : obj string) (q : string) :
  NoDup (obj_keys work) ->
  overlay base (stage_all work old []) q
  = match obj_get work q with
    | Some v => Some v
    | None => if obj_has old q then None else obj_get base q
    end.
Proof.
  intros Hnd. unfold overlay, stage_all.
  rewrite fold_stage_deletions_get, (fold_stage_get work Hnd), mem_keys_has.
  unfold obj_has at 2. destruct (obj_get work q) eqn:E; cbn [negb].
  - now rewrite Bool.andb_false_r.
  - rewrite Bool.andb_true_r. destruct (obj_has old q); reflexivity.
Qed.

(** X28. [git revert h] commits the inverse of commit [h] on top of HEAD: in the
    new snapshot a path that [h] changed relative to its first parent has
    the content it had in that parent (or is absent as it was there), and
    every other path has what HEAD had.  The working tree takes the new
    snapshot at every path tracked before or after, whatever it held there,
    and keeps only its untracked files.  (Stated for a HEAD snapshot that is
    not empty, with no merge conflict pending.) *)
Theorem gitRevert_spec (r : Repo) (args : list string) (hashArg f newHash : string)
    (c : Commit) (now : Z) :
  initialized r = true -> merge_conflicts r = [] ->
  nth_truthy 0 args = Some hashArg ->
  resolveHashPrefix r hashArg = Some f -> f <> "" ->
  obj_get (commits r) f = Some c ->
  NoDup (obj_keys (getHeadSnapshot r)) -> getHeadSnapshot r <> [] ->
  let before := getSnapshot r (first_or_null (parents c)) in
  let r' := fst (gitRevert args newHash now r) in
  ok (snd (gitRevert args newHash now r)) = true /\
  head r' = Some newHash /\
  (exists c',
     obj_get (commits r') newHash = Some c' /\ parents c' = commit_parents r /\
     (forall q, obj_get (files c') q
                = if opt_eqb (obj_get before q) (obj_get (files c) q)
                  then obj_get (getHeadSnapshot r) q
                  else obj_get before q) /\
     (forall q, obj_get (workingFiles r') q
                = match obj_get (files c') q with
                  | Some v => Some v
                  | None => if obj_has (getHeadSnapshot r) q then None
                            else obj_get (workingFiles r) q
                  end)) /\
  stagedFiles r' = [] /\ lastEvent r' = Some (git_revert f).
Proof.
  intros Hinit Hconf Hargs Hres Hf Hc Hnd Hne. cbv zeta. unfold gitRevert.
  rewrite (ensureInitialized_ok r Hinit), Hargs, Hres.
  apply nonempty_true in Hf. unfold js_read. rewrite Hf, Hc. cbn [negb]. cbv zeta.
  unfold deepCopy.
  set (pf := getSnapshot r (first_or_null (parents c))).
  set (paths := set_of (obj_keys pf ++ obj_keys (files c))%list).
  set (hfiles := fold_left (revert_step pf (files c)) paths (getHeadSnapshot r)).
  assert (Hhnd : NoDup (obj_keys hfiles)) by now apply revert_fold_NoDup.
  assert (Hget : forall q, obj_get hfiles q
                           = if opt_eqb (obj_get pf q) (obj_get (files c) q)
                             then obj_get (getHeadSnapshot r) q
                             else obj_get pf q).
  { intros q. unfold hfiles. rewrite revert_fold_get.
    destruct (opt_eqb (obj_get pf q) (obj_get (files c) q)) eqn:E; cbn [negb].
    - now rewrite Bool.andb_false_r.
    - rewrite Bool.andb_true_r. destruct (mem q paths) eqn:Em; [reflexivity|].
      exfalso. apply mem_false_In in Em.
      assert (H1 : obj_get pf q = None).
      { apply obj_get_notin. intros H. apply Em, set_of_In, in_or_app. now left. }
      assert (H2 : obj_get (files c) q = None).
      { apply obj_get_notin. intros H. apply Em, set_of_In, in_or_app. now right. }
      rewrite H1, H2 in E. discriminate. }
  match goal with
  | |- context [gitCommit ?a ?h ?n ?x] => set (r1 := x); set (cargs := a)
  end.
  assert (Hst1 : stagedFiles r1 = stage_all hfiles (getHeadSnapshot r) [])
    by reflexivity.
  assert (Hok : ok (snd (gitCommit cargs newHash now r1)) = true).
  { apply gitCommit_succeeds.
    - exact Hinit.
    - rewrite Hst1. now apply stage_all_nonempty.
    - exact Hconf. }
  destruct (gitCommit_success cargs newHash now r1 Hok)
    as (c' & Hcm & _ & Hfl & Hp & _ & Hbs & Hcb & Hw & Hs & _).
  cbv zeta in Hcm, Hfl, Hp, Hbs, Hcb, Hw, Hs.
  destruct (gitCommit cargs newHash now r1) as [r2 res2]. cbn [fst snd] in *.
  rewrite Hok. cbn [fst snd ok].
  split; [reflexivity|].
  split.
  { change (head r2 = Some newHash).
    apply (head_of_branches r2 (branches r1)). now rewrite Hcb. }
  split.
  { exists c'.
    assert (Hfq : forall q, obj_get (files c') q = obj_get hfiles q).
    { intros q. rewrite Hfl, Hst1.
      rewrite apply_staged_get by apply stage_all_NoDup.
      change (getHeadSnapshot r1) with (getHeadSnapshot r).
      now apply overlay_stage_all_old. }
    split; [|split; [exact Hp | split]].
    - cbn [commits set_lastEvent]. rewrite Hcm. apply obj_get_set_eq.
    - intros q. now rewrite Hfq, Hget.
    - intros q. cbn [workingFiles set_lastEvent]. rewrite Hw, Hst1, Hfq.
      rewrite apply_staged_get by apply stage_all_NoDup.
      now apply overlay_stage_all_base. }
  split; [exact Hs | reflexivity].
Qed.

Lemma gitRevert_spec_witness :
  (initialized lesson4 = true /\ merge_conflicts lesson4 = [] /\
   nth_truthy 0 ["3c3c"] = Some "3c3c" /\
   resolveHashPrefix lesson4 "3c3c" = Some h3 /\ h3 <> "" /\
   (exists c, obj_get (commits lesson4) h3 = Some c) /\
   NoDup (obj_keys (getHeadSnapshot lesson4)) /\ getHeadSnapshot lesson4 <> []) /\
  head (fst (gitRevert ["3c3c"] h4 3 lesson4)) = Some h4.
Proof.
  assert (H1 : initialized lesson4 = true) by (vm_compute; reflexivity).
  assert (H2 : merge_conflicts lesson4 = []) by (vm_compute; reflexivity).
  assert (H3 : nth_truthy 0 ["3c3c"] = Some "3c3c") by (vm_compute; reflexivity).
  assert (H4 : resolveHashPrefix lesson4 "3c3c" = Some h3) by (vm_compute; reflexivity).
  assert (H5 : h3 <> "") by discriminate.
  assert (H6 : exists c, obj_get (commits lesson4) h3 = Some c)
    by (vm_compute; eexists; reflexivity).
  assert (H7 : NoDup (obj_keys (getHeadSnapshot lesson4))).
  { vm_compute. repeat constructor; cbn; intuition discriminate. }
  assert (H8 : getHeadSnapshot lesson4 <> []) by (vm_compute; discriminate).
  destruct H6 as [c Hc].
  pose proof (gitRevert_spec lesson4 ["3c3c"] "3c3c" h3 h4 c 3
                H1 H2 H3 H4 H5 Hc H7 H8) as H.
  cbv zeta in H. destruct H as (_ & H & _).
  split; [|exact H].
  repeat split; try assumption. now exists c.
Defined.

(** * pull *)

Lemma pull_fold_get (rc : obj Commit) (order : list string) :
  forall (acc : obj Commit * list string) (h : string),
    obj_get (fst (fold_left (pull_step rc) order acc)) h
    = match obj_get (fst acc) h with
      | Some c => Some c
      | None => if mem h order then obj_get rc h else None
      end.
Proof.
  induction order as [|p order IH]; intros [cs o] h; cbn [fold_left].
  - cbn [fst mem existsb]. now destruct (obj_get cs h).
  - rewrite IH, mem_cons. unfold pull_step, obj_has, deepCopy.
    destruct (String.eqb_spec h p) as [->|N]; cbn [orb].
    + destruct (obj_get rc p) as [c|] eqn:Er.
      * destruct (obj_get cs p) as [c0|] eqn:Ec; cbn [negb fst].
        -- now rewrite Ec.
        -- now rewrite obj_get_set_eq, Ec.
      * cbn [fst]. destruct (obj_get cs p); [reflexivity|].
        now destruct (mem p order).
    + assert (N' : p <> h) by congruence.
      destruct (obj_get rc p) as [c|]; [|reflexivity].
      destruct (obj_get cs p); cbn [negb fst]; [reflexivity|].
      now rewrite obj_get_set_neq.
Qed.

Lemma pull_fetch_get (r : Repo) (rr : RemoteRepo) (h : string) :
  obj_get (commits (pull_fetch r rr)) h
  = match obj_get (commits r) h with
    | Some c => Some c
    | None => if mem h (remote_commitOrder rr) then obj_get (remote_commits rr) h
              else None
    end.
Proof.
  unfold pull_fetch.
  pose proof (pull_fold_get (remote_commits rr) (remote_commitOrder rr)
                (commits r, commitOrder r) h) as H.
  destruct (fold_left _ _ _) as [cs order]. exact H.
Qed.


Lemma gitPull_ff_eq (r : Repo) (args : list string) (store : RemoteStore)
    (rn bn th newHash : string) (rm : Remote) (rr : RemoteRepo) (now : Z) :
  initialized r = true -> isDirty (getStatus r) = false ->
  match nth_truthy 0 args with
  | Some n => n
  | None => or_else (upstream_remote r) "origin"
  end = rn ->
  match nth_truthy 1 args with
  | Some b => b
  | None => or_else (upstream_branch r) (currentBranch r)
  end = bn ->
  obj_get (remotes r) rn = Some rm -> getRepo store (url rm) = own rr ->
  obj_get (remote_branches rr) bn = Some (Some th) -> th <> "" ->
  truthy (head r) = false \/ isAncestor (pull_fetch r rr) (head r) (Some th) = true ->
  gitPull args (Some store) newHash now r
  = (let r2 := set_head (Some th) (pull_fetch r rr) in
     set_lastEvent (Some (git_pull_ff rn bn))
       (set_workingFiles (getHeadSnapshot r2) r2),
     Returned (success ["Fast-forward (simulated)."])).
Proof.
  intros Hi Hclean Hrn Hbn Hrm Hrr Hbr Hth Hff. unfold gitPull.
  rewrite (ensureInitialized_ok r Hi), Hclean. cbn [negb]. cbv zeta.
  assert (Hjs : js_read (remotes r) rn = own rm)
    by (unfold js_read; now rewrite Hrm).
  rewrite Hrn, Hbn, Hjs. cbn [or_else].
  rewrite Hrr, Hbr, (truthy_Some th Hth). cbn [negb].
  revert Hff. unfold pull_fetch, deepCopy.
  destruct (fold_left _ _ _) as [cs order]. intros Hff.
  set (r1 := set_commitOrder order (set_commits cs r)) in *.
  assert (Hc : (negb (truthy (head r1)) || isAncestor r1 (head r1) (Some th))%bool
               = true).
  { change (head r1) with (head r).
    destruct Hff as [H|H]; rewrite H; [reflexivity | apply Bool.orb_true_r]. }
  rewrite Hc. reflexivity.
Qed.


(** X30. The teammate of the pull lesson, then [git pull], on a clone that is in
    step with [origin/main]: the teammate's commit lands on the remote with
    the old remote head as its parent, the pull fast-forwards to it, and the
    working tree is the old snapshot with the teammate's note appended to the
    README (to a default README when there was none). *)
Theorem teammate_then_pull (r : Repo) (store : RemoteStore) (args : list string)
    (rm : Remote) (rr : RemoteRepo) (th hashT hashM : string) (c : Commit)
    (nowT nowP : Z) :
  initialized r = true -> isDirty (getStatus r) = false -> no_empty_parent r ->
  match nth_truthy 0 args with
  | Some n => n
  | None => or_else (upstream_remote r) "origin"
  end = "origin" ->
  match nth_truthy 1 args with
  | Some b => b
  | None => or_else (upstream_branch r) (currentBranch r)
  end = "main" ->
  obj_get (remotes r) "origin" = Some rm -> trim (url rm) <> "" ->
  getRepo store (url rm) = own rr ->
  (forall h k, obj_get (remote_commits rr) h = Some k -> ~ In "" (parents k)) ->
  obj_get (remote_branches rr) "main" = Some (Some th) -> th <> "" ->
  obj_get (remote_commits rr) th = Some c ->
  head r = Some th ->
  hashT <> "" -> obj_has (commits r) hashT = false ->
  exists store',
    simulateTeammateCommitToOriginMain store hashT nowT r = Some store' /\
    let out := gitPull args (Some store') hashM nowP r in
    snd out = Returned (success ["Fast-forward (simulated)."]) /\
    head (fst out) = Some hashT /\
    (exists k, obj_get (commits (fst out)) hashT = Some k /\ parents k = [th]) /\
    obj_get (workingFiles (fst out)) "/README.md"
    = Some (match obj_get (files c) "/README.md" with
            | Some s => if nonempty s then s else default_readme
            | None => default_readme
            end ++ teammate_note) /\
    (forall q, q <> "/README.md" ->
               obj_get (workingFiles (fst out)) q = obj_get (files c) q).
Proof.
  intros Hi Hclean Hwf Hrn Hbn Hrm Hu Hrr Hrwf Hbr Hth Hc Hhead HT HTl.
  unfold simulateTeammateCommitToOriginMain, ensureRepo.
  rewrite Hrm. apply nonempty_true in Hu. rewrite Hu. cbn [negb].
  assert (Hg : obj_get (byUrl store) (trim (url rm)) = Some rr).
  { unfold getRepo, js_read in Hrr.
    destruct (obj_get (byUrl store) (trim (url rm))) as [x|];
      [now injection Hrr as -> | now destruct (inherited (trim (url rm)))]. }
  unfold js_defined, obj_has. rewrite Hg. cbn [orb]. cbv zeta.
  rewrite Hg, Hbr. cbn [js_key]. rewrite Hc. unfold deepCopy.
  rewrite (opt_list_Some th Hth).
  set (readme := match obj_get (files c) "/README.md" with
                 | Some s => if nonempty s then s else default_readme
                 | None => default_readme
                 end).
  set (k := {| hash := hashT; message := "Teammate: update README"; parents := [th];
               timestamp := nowT;
               files := obj_set (files c) "/README.md" (readme ++ teammate_note);
               lane := 0; branch := "main" |}).
  set (rr' := {| remote_url := remote_url rr;
                 remote_commits := obj_set (remote_commits rr) hashT k;
                 remote_commitOrder := (remote_commitOrder rr ++ [hashT])%list;
                 remote_branches := obj_set (remote_branches rr) "main" (Some hashT) |}).
  eexists. split; [reflexivity|]. cbv zeta.
  assert (Hrr' : getRepo {| byUrl := obj_set (byUrl store) (trim (url rm)) rr' |}
                   (url rm) = own rr').
  { unfold getRepo, js_read. cbn [byUrl]. now rewrite obj_get_set_eq. }
  assert (Hbr' : obj_get (remote_branches rr') "main" = Some (Some hashT))
    by apply obj_get_set_eq.
  assert (Hk : obj_get (commits (pull_fetch r rr')) hashT = Some k).
  { rewrite pull_fetch_get. unfold obj_has in HTl.
    destruct (obj_get (commits r) hashT); [discriminate|].
    cbn [remote_commitOrder remote_commits rr'].
    assert (Hm : mem hashT (remote_commitOrder rr ++ [hashT]) = true).
    { apply mem_In, in_or_app. right. now left. }
    rewrite Hm. apply obj_get_set_eq. }
  assert (Hwf' : no_empty_parent (pull_fetch r rr')).
  { intros h k0 Hk0. rewrite pull_fetch_get in Hk0.
    destruct (obj_get (commits r) h) as [c0|] eqn:El.
    - injection Hk0 as <-. now apply (Hwf h).
    - destruct (mem h (remote_commitOrder rr')); [|discriminate].
      cbn [remote_commits rr'] in Hk0.
      destruct (String.eqb_spec hashT h) as [<-|N].
      + rewrite obj_get_set_eq in Hk0. injection Hk0 as <-.
        cbn [parents k In]. intros [E|[]]. now apply Hth.
      + rewrite obj_get_set_neq in Hk0 by exact N. now apply (Hrwf h). }
  assert (Hff : truthy (head r) = false
                \/ isAncestor (pull_fetch r rr') (head r) (Some hashT) = true).
  { right. rewrite Hhead.
    apply (isAncestor_spec (pull_fetch r rr') th hashT Hwf' Hth HT).
    eapply reachable_parent; [exact Hk | now left | constructor]. }
  rewrite (gitPull_ff_eq r args _ "origin" "main" hashT hashM rm rr' nowP
             Hi Hclean Hrn Hbn Hrm Hrr' Hbr' HT Hff).
  cbv zeta. cbn [fst snd].
  set (r2 := set_head (Some hashT) (pull_fetch r rr')).
  assert (Hsnap : getHeadSnapshot r2 = files k).
  { apply (getHeadSnapshot_at r2 hashT k); [apply head_set_head | exact HT | exact Hk]. }
  split; [reflexivity|].
  split; [apply head_set_head|].
  split; [exists k; split; [exact Hk | reflexivity]|].
  cbn [workingFiles set_lastEvent set_workingFiles]. rewrite Hsnap. cbn [files k].
  split.
  - apply obj_get_set_eq.
  - intros q Hq. apply obj_get_set_neq. congruence.
Qed.


Lemma no_empty_parent_lesson3_with_remote : no_empty_parent lesson3_with_remote.
Proof.
  intros h c Hc. apply obj_get_In in Hc.
  assert (E : commits lesson3_with_remote = [(h1, lesson3_root)])
    by (vm_compute; reflexivity).
  rewrite E in Hc. cbn [In] in Hc.
  destruct Hc as [Hc|[]]. injection Hc as <- <-. cbn. tauto.
Qed.

Lemma teammate_then_pull_witness :
  let r := lesson3_with_remote in
  (initialized r = true /\ isDirty (getStatus r) = false /\ no_empty_parent r /\
   obj_get (remotes r) "origin" = Some {| url := seed_url |} /\
   trim seed_url <> "" /\ getRepo store_pushed seed_url = own pushed_remote /\
   obj_get (remote_branches pushed_remote) "main" = Some (Some h1) /\ h1 <> "" /\
   obj_get (remote_commits pushed_remote) h1 = Some lesson3_root /\
   head r = Some h1 /\ h2 <> "" /\ obj_has (commits r) h2 = false) /\
  exists store',
    simulateTeammateCommitToOriginMain store_pushed h2 1 r = Some store' /\
    head (fst (gitPull ["origin"; "main"] (Some store') h3 2 r)) = Some h2.
Proof.
  cbv zeta.
  assert (H1 : initialized lesson3_with_remote = true) by (vm_compute; reflexivity).
  assert (H2 : isDirty (getStatus lesson3_with_remote) = false)
    by (vm_compute; reflexivity).
  assert (H3 : match nth_truthy 0 ["origin"; "main"] with
               | Some n => n
               | None => or_else (upstream_remote lesson3_with_remote) "origin"
               end = "origin") by (vm_compute; reflexivity).
  assert (H4 : match nth_truthy 1 ["origin"; "main"] with
               | Some b => b
               | None => or_else (upstream_branch lesson3_with_remote)
                           (currentBranch lesson3_with_remote)
               end = "main") by (vm_compute; reflexivity).
  assert (H5 : obj_get (remotes lesson3_with_remote) "origin"
               = Some {| url := seed_url |}) by (vm_compute; reflexivity).
  assert (H6 : trim (url {| url := seed_url |}) <> "") by (vm_compute; discriminate).
  assert (H7 : getRepo store_pushed (url {| url := seed_url |}) = own pushed_remote)
    by (vm_compute; reflexivity).
  assert (H8 : forall h k, obj_get (remote_commits pushed_remote) h = Some k ->
                           ~ In "" (parents k)).
  { intros h k Hk. apply obj_get_In in Hk. cbn in Hk.
    destruct Hk as [Hk|[]]. injection Hk as <- <-. cbn. tauto. }
  assert (H9 : obj_get (remote_branches pushed_remote) "main" = Some (Some h1))
    by (vm_compute; reflexivity).
  assert (H10 : h1 <> "") by discriminate.
  assert (H11 : obj_get (remote_commits pushed_remote) h1 = Some lesson3_root)
    by (vm_compute; reflexivity).
  assert (H12 : head lesson3_with_remote = Some h1) by (vm_compute; reflexivity).
  assert (H13 : h2 <> "") by discriminate.
  assert (H14 : obj_has (commits lesson3_with_remote) h2 = false)
    by (vm_compute; reflexivity).
  pose proof (teammate_then_pull lesson3_with_remote store_pushed ["origin"; "main"]
                {| url := seed_url |} pushed_remote h1 h2 h3 lesson3_root 1 2
                H1 H2 no_empty_parent_lesson3_with_remote H3 H4 H5 H6 H7 H8 H9 H10
                H11 H12 H13 H14) as H.
  destruct H as (store' & Hs & H). cbv zeta in H. destruct H as (_ & Hh & _).
  split.
  - split; [exact H1|]. split; [exact H2|].
    split; [exact no_empty_parent_lesson3_with_remote|].
    repeat split; assumption.
  - exists store'. split; assumption.
Defined.
